(** * WebGuardAI: threat-score fusion and the batch-analysis pipeline

    A shallow embedding of [threat-detection.py] (the fusion of the three
    detector scores into a verdict) and of [api-backend.py] (single-URL
    analysis, batch jobs, job lookup, job identifiers), with the properties
    the specification states about them.  It is followed by the rule engine
    and the feature vector of [threat-detection.py], the URL analysis and
    the risk score of [feature-extractor.py], the Snowflake connector of
    [database-connector.py] and the spider of [experiment_runner.py], with
    properties read off their code.

    Python's [float] is IEEE 754 binary64.  It is modelled exactly with the
    standard library's [spec_float] at precision 53 and maximal exponent
    1024, so every arithmetic expression of the source evaluates here to the
    very value CPython computes, NaN and infinities included. *)

From Stdlib Require Import ZArith QArith Qpower Lia Lqa List String Ascii DecimalString.
From Stdlib Require Import SpecFloat.
From stdpp Require Import gmap strings list.

(* ===================================================================== *)
(** * Numbers *)
(* ===================================================================== *)

(** The arithmetic the fusion formula and the level thresholds use.  The
    source is written once against this interface; it is run on binary64
    (what the program does) and on exact rationals (the arithmetic of which
    the floating-point result is the rounding). *)
Class PyNum (F : Type) := {
  num_add : F -> F -> F;
  num_mul : F -> F -> F;
  num_ltb : F -> F -> bool;
  (** [num_lit n d] is the decimal literal whose value is [n / d]. *)
  num_lit : Z -> positive -> F
}.

Declare Scope num_scope.
Delimit Scope num_scope with num.
Infix "+" := num_add : num_scope.
Infix "*" := num_mul : num_scope.
Infix "<?" := num_ltb : num_scope.

Module Float64.

Definition prec : Z := 53.
Definition emax : Z := 1024.

Definition float64 : Type := spec_float.

Definition of_Z (z : Z) : float64 := binary_normalize prec emax z 0 false.

Definition add : float64 -> float64 -> float64 := SFadd prec emax.
Definition sub : float64 -> float64 -> float64 := SFsub prec emax.
Definition mul : float64 -> float64 -> float64 := SFmul prec emax.
Definition div : float64 -> float64 -> float64 := SFdiv prec emax.
Definition sqrt : float64 -> float64 := SFsqrt prec emax.
Definition ltb : float64 -> float64 -> bool := SFltb.
Definition leb : float64 -> float64 -> bool := SFleb.

(** A decimal literal [n / d] with [n] and [d] exactly representable: the
    correctly rounded quotient is the double nearest to the decimal, which
    is what the Python parser produces. *)
Definition lit (n : Z) (d : positive) : float64 := div (of_Z n) (of_Z (Zpos d)).

Definition is_zero (x : float64) : bool :=
  match x with S754_zero _ => true | _ => false end.

(** ** Doubles as rational numbers

    The rational a double denotes, for stating what an operation computes.
    NaN and the infinities denote nothing; they are given 0 and kept out of
    the statements by [nonneg]. *)
Definition pow2 (e : Z) : Q := (2 ^ e)%Q.

Definition value (x : float64) : Q :=
  match x with
  | S754_finite false m e => (inject_Z (Zpos m) * pow2 e)%Q
  | S754_finite true m e => (- (inject_Z (Zpos m) * pow2 e))%Q
  | _ => 0%Q
  end.

(** Zero (of either sign) or a positive finite double. *)
Definition nonneg (x : float64) : Prop :=
  match x with
  | S754_zero _ | S754_finite false _ _ => True
  | _ => False
  end.

(** A double as the hardware stores it: mantissa and exponent normalised. *)
Definition valid (x : float64) : Prop := valid_binary prec emax x = true.

(** Half a unit in the last place of the doubles of [[1, 2)]: [2^-53]. *)
Definition half_ulp : Q := 1 # 9007199254740992.

(** [1.0]. *)
Definition one : float64 := S754_finite false 4503599627370496 (-52).

(** The double of sign [s] with mantissa [q] and exponent [e]; zero when
    [q] is. *)
Definition mk_float (s : bool) (q e : Z) : float64 :=
  match q with
  | Zpos q' => S754_finite s q' e
  | _ => S754_zero s
  end.

(** The exponent of the doubles of the binade that holds [m * 2^e]. *)
Definition binade_exponent (m : positive) (e : Z) : Z :=
  Z.max (Zpos (digits2_pos m) + e - 53) (-1074).

(** The record reached after dropping the bits of [m0] that weigh less than
    [P]: the quotient, the round bit and the sticky bit. *)
Definition shr_inv (m0 P : Z) (mrs : shr_record) : Prop :=
  exists rem : Z,
    (0 <= shr_m mrs /\ 0 <= rem < P /\ m0 = shr_m mrs * P + rem /\
     shr_r mrs = (P <=? 2 * rem) /\
     shr_s mrs = negb (rem =? 0) && negb (2 * rem =? P))%Z.

End Float64.

#[export] Instance float64_num : PyNum Float64.float64 := {|
  num_add := Float64.add;
  num_mul := Float64.mul;
  num_ltb := Float64.ltb;
  num_lit := Float64.lit
|}.

Definition Qltb (x y : Q) : bool :=
  match Qcompare x y with Lt => true | _ => false end.

#[export] Instance Q_num : PyNum Q := {|
  num_add := Qplus;
  num_mul := Qmult;
  num_ltb := Qltb;
  num_lit := fun n d => Qmake n d
|}.

(* ===================================================================== *)
(** * threat-detection.py *)
(* ===================================================================== *)

Module ThreatDetection.

Import Float64.

Inductive ThreatLevel := LOW | MEDIUM | HIGH | CRITICAL.

(** [self.config['weights']]. *)
Record WeightConfig (F : Type) := {
  w_text : F;
  w_anomaly : F;
  w_rules : F
}.
Arguments w_text {F} _.
Arguments w_anomaly {F} _.
Arguments w_rules {F} _.

(** The three detector outputs of [predict_threat], lines 75-77: the
    results of [predict_text_threat], [predict_anomaly] and [apply_rules].
    The detectors themselves (a neural network, an isolation forest, the
    rule table) are outside this development. *)
Record SignalSet (F : Type) := {
  text_score : F;
  anomaly_score : F;
  rule_based_score : F
}.
Arguments text_score {F} _.
Arguments anomaly_score {F} _.
Arguments rule_based_score {F} _.

Section Generic.
Context {F : Type} `{PyNum F}.
Local Open Scope num_scope.

(** The local variable [final_score] of [predict_threat], lines 80-84.
    Python's [+] associates to the left; there is no clamp. *)
Definition final_score (cfg : WeightConfig F) (sig : SignalSet F) : F :=
  w_text cfg * text_score sig
  + w_anomaly cfg * anomaly_score sig
  + w_rules cfg * rule_based_score sig.

(** [get_threat_level], lines 168-177. *)
Definition get_threat_level (score : F) : ThreatLevel :=
  if score <? num_lit 2 10 then LOW
  else if score <? num_lit 5 10 then MEDIUM
  else if score <? num_lit 8 10 then HIGH
  else CRITICAL.

End Generic.

(** NumPy's reductions on a short one-dimensional array of doubles.
    [np.add.reduce] on fewer than eight elements is a plain left-to-right
    loop; seeding it with the first element or with [-0.0] gives the same
    double.  [np.mean] divides the sum by the count; [np.std] is the
    square root of the mean of the squared deviations from the mean.
    NumPy's float64 division follows IEEE 754: dividing by zero yields NaN
    or an infinity (with a warning), not an exception. *)
Definition np_sum (a : list float64) : float64 :=
  match a with
  | [] => S754_zero false
  | x :: xs => fold_left add xs x
  end.

Definition np_mean (a : list float64) : float64 :=
  div (np_sum a) (of_Z (Z.of_nat (length a))).

Definition np_var (a : list float64) : float64 :=
  let arrmean := np_mean a in
  let x := map (fun v => sub v arrmean) a in
  let x := map (fun d => mul d d) x in
  div (np_sum x) (of_Z (Z.of_nat (length a))).

Definition np_std (a : list float64) : float64 := sqrt (np_var a).

(** [calculate_confidence], lines 179-184. *)
Definition calculate_confidence (scores : list float64) : float64 :=
  let std_dev := np_std scores in
  sub (of_Z 1) (div std_dev (np_mean scores)).

Record ComponentScores := {
  text_based : float64;
  anomaly : float64;
  rule_based : float64
}.

(** The dictionary [predict_threat] returns. *)
Record ThreatAnalysis := {
  threat_score : float64;
  component_scores : ComponentScores;
  threat_level : ThreatLevel;
  confidence : float64
}.

(** [predict_threat], lines 73-97, from the three detector outputs on. *)
Definition predict_threat (cfg : WeightConfig float64) (sig : SignalSet float64)
  : ThreatAnalysis :=
  let fs := final_score cfg sig in
  {| threat_score := fs;
     component_scores :=
       {| text_based := text_score sig;
          anomaly := anomaly_score sig;
          rule_based := rule_based_score sig |};
     threat_level := get_threat_level fs;
     confidence :=
       calculate_confidence
         [text_score sig; anomaly_score sig; rule_based_score sig] |}.

(** ** The words of the specification, for comparison *)

(** The spec's [clamp(x, 0, 1)]; it occurs nowhere in the source. *)
Definition spec_clamp01 (x : float64) : float64 :=
  if ltb x (of_Z 0) then of_Z 0
  else if ltb (of_Z 1) x then of_Z 1
  else x.

(** [0 <= x <= 1] on doubles. *)
Definition in_unit (x : float64) : bool :=
  leb (of_Z 0) x && leb x (of_Z 1).

End ThreatDetection.


(* ===================================================================== *)
(** * api-backend.py *)
(* ===================================================================== *)

Module ApiBackend.

Import Float64 ThreatDetection.
Local Open Scope string_scope.

(** ** Exceptions

    Everything a collaborator raises is a subclass of [Exception] whose
    [str] is its message; [HTTPException] is what the handlers raise
    themselves.  Signals that derive from [BaseException] only (task
    cancellation, interpreter exit) are not failures of an analysis and
    are outside the model. *)
Inductive exn :=
| Error (msg : string)
| HTTPException (status_code : Z) (detail : string).

(** [datetime.utcnow()] values. *)
Record datetime := {
  year : N; month : N; day : N;
  hour : N; minute : N; second : N;
  microsecond : N
}.

(** The [response] of the crawler; only [response.text] is read. *)
Record CrawlResponse := { text : string }.

(** [ThreatAnalysisResponse]. *)
Record ThreatAnalysisResponse := {
  resp_url : string;
  resp_timestamp : datetime;
  resp_threat_score : float64;
  resp_threat_level : ThreatLevel;
  resp_confidence : float64;
  resp_details : ComponentScores
}.

(** One element of the [results] list of [process_url_batch]: either the
    response of [analyze_url] or the dictionary [{"url": .., "error": ..}]. *)
Inductive entry :=
| Verdict (result : ThreatAnalysisResponse)
| ErrorRecord (url : string) (error : string).

(** Ghost events: when the call [analyze_url(...)] of the batch loop is
    entered and when it is left.  They have no counterpart in the source
    and exist only to count the analyses in flight. *)
Inductive event :=
| Started (url : string)
| Finished (url : string).

(** The parameters [store_analysis_results] binds to its INSERT: the URL,
    the two JSON texts and the timestamp. *)
Record AnalysisRow := {
  row_url : string;
  row_features : string;
  row_analysis : string;
  row_timestamp : datetime
}.

(** ** Collaborators

    What the module calls but does not define: the clock, the crawler, the
    feature extractor, the detectors and their configured weights,
    [json.dumps] on the features and on the analysis, the Snowflake
    connection and its cursor ([conn.cursor()], [cur.execute(..)],
    [cur.close()], each of which may raise), the HTTP client behind the
    callback, Python's hash of a datetime and the web framework's rendering
    of an [HTTPException].  [E] is the state of everything outside the
    process. *)
Class Collaborators (E Features : Type) := {
  utcnow : E -> datetime * E;
  crawl_single_url : string -> E -> (exn + CrawlResponse) * E;
  extract_features : string -> string -> E -> (exn + Features) * E;
  detectors : Features -> exn + SignalSet float64;
  weights : WeightConfig float64;
  conn_cursor : E -> (exn + unit) * E;
  json_dumps_features : Features -> exn + string;
  json_dumps_analysis : ThreatAnalysis -> exn + string;
  cursor_execute : AnalysisRow -> E -> (exn + unit) * E;
  cursor_close : E -> (exn + unit) * E;
  http_post : string -> string -> list entry -> E -> (exn + unit) * E;
  hash_datetime : datetime -> Z;
  http_exception_str : Z -> string -> string
}.

(** A task handed to [background_tasks.add_task]: the arguments of the
    pending call of [process_url_batch]. *)
Record Task := {
  task_urls : list string;
  task_job_id : string;
  task_callback_url : option string
}.

(** ** State of the process *)
Record World (E : Type) := {
  env : E;
  log : list string;
  jobs : gmap string (list entry);
  background_tasks : list Task;
  trace : list event
}.
Arguments env {E} _.
Arguments log {E} _.
Arguments jobs {E} _.
Arguments background_tasks {E} _.
Arguments trace {E} _.
Arguments Build_World {E} _ _ _ _ _.

Definition set_env {E} (e : E) (w : World E) : World E :=
  Build_World e (log w) (jobs w) (background_tasks w) (trace w).
Definition add_log {E} (line : string) (w : World E) : World E :=
  Build_World (env w) (log w ++ [line]) (jobs w) (background_tasks w) (trace w).
Definition put_job {E} (job_id : string) (results : list entry) (w : World E)
  : World E :=
  Build_World (env w) (log w) (<[job_id := results]> (jobs w))
    (background_tasks w) (trace w).
Definition set_tasks {E} (ts : list Task) (w : World E) : World E :=
  Build_World (env w) (log w) (jobs w) ts (trace w).
Definition add_event {E} (ev : event) (w : World E) : World E :=
  Build_World (env w) (log w) (jobs w) (background_tasks w) (trace w ++ [ev]).

(** A process that has just started, in outside state [e]. *)
Definition fresh {E} (e : E) : World E := Build_World e [] ∅ [] [].

(** ** The monad: state passing with exceptions

    An exception keeps the state reached when it was raised: nothing is
    rolled back. *)
Definition M (E A : Type) : Type := World E -> (exn + A) * World E.

Definition ret {E A} (a : A) : M E A := fun w => (inr a, w).
Definition raise {E A} (e : exn) : M E A := fun w => (inl e, w).
Definition bind {E A B} (c : M E A) (k : A -> M E B) : M E B :=
  fun w =>
    match c w with
    | (inr a, w') => k a w'
    | (inl e, w') => (inl e, w')
    end.

(** [try: c except Exception as e: h e]. *)
Definition try_except {E A} (c : M E A) (h : exn -> M E A) : M E A :=
  fun w =>
    match c w with
    | (inr a, w') => (inr a, w')
    | (inl e, w') => h e w'
    end.

(** [try: c finally: f].  The [finally] block runs however [c] ends; when
    it raises, its exception replaces the outcome of [c]. *)
Definition try_finally {E A} (c : M E A) (f : M E unit) : M E A :=
  fun w =>
    let '(r, w1) := c w in
    match f w1 with
    | (inr _, w2) => (r, w2)
    | (inl e, w2) => (inl e, w2)
    end.

(** The outcome of a computation that touches nothing. *)
Definition lift {E A} (r : exn + A) : M E A :=
  match r with
  | inl e => raise e
  | inr a => ret a
  end.

(** A call into a collaborator. *)
Definition call {E A} (f : E -> (exn + A) * E) : M E A :=
  fun w => let '(r, e') := f (env w) in (r, set_env e' w).

Definition logging_error {E} (line : string) : M E unit :=
  fun w => (inr tt, add_log line w).

Definition emit {E} (ev : event) : M E unit :=
  fun w => (inr tt, add_event ev w).

Declare Scope py_scope.
Delimit Scope py_scope with py.
Notation "x <- c ;; k" := (bind c (fun x => k))
  (at level 100, c at next level, right associativity) : py_scope.
Notation "c ;; k" := (bind c (fun _ => k))
  (at level 100, right associativity) : py_scope.

(** ** Strings *)

(** [str(n)] for an integer. *)
Definition str_int (z : Z) : string := NilZero.string_of_int (Z.to_int z).

(** [%02d]-style zero padding to [width] characters. *)
Definition zero_pad (width : nat) (n : N) : string :=
  let s := NilZero.string_of_uint (N.to_uint n) in
  String.concat "" (repeat "0" (width - String.length s)) ++ s.

(** [t.strftime('%Y%m%d%H%M%S-')]. *)
Definition strftime_job (t : datetime) : string :=
  zero_pad 4 (year t) ++ zero_pad 2 (month t) ++ zero_pad 2 (day t)
  ++ zero_pad 2 (hour t) ++ zero_pad 2 (minute t) ++ zero_pad 2 (second t)
  ++ "-".

(** Python truthiness of what [load_batch_results] returns: [None] and the
    empty list are false. *)
Definition truthy (results : option (list entry)) : bool :=
  match results with
  | Some (_ :: _) => true
  | _ => false
  end.

Section Handlers.
Context {E Features : Type} `{Collaborators E Features}.
Local Open Scope py_scope.

(** [str(e)]. *)
Definition str_exn (e : exn) : string :=
  match e with
  | Error msg => msg
  | HTTPException status_code detail => http_exception_str status_code detail
  end.

(** The two lines written with [logging.error], lines 99 and 127. *)
Definition error_analyzing (url : string) (e : exn) : string :=
  "Error analyzing URL " ++ url ++ ": " ++ str_exn e.

Definition error_processing (url : string) (e : exn) : string :=
  "Error processing " ++ url ++ ": " ++ str_exn e.

(** [threat_detector.predict_threat(features)]: run the detectors, then
    fuse with the configured weights. *)
Definition threat_detector_predict_threat (features : Features)
  : M E ThreatAnalysis :=
  match detectors features with
  | inl e => raise e
  | inr sig => ret (predict_threat weights sig)
  end.

(** [store_analysis_results], lines 148-163.  The cursor is obtained
    before the [try], so a failure to obtain it closes nothing.  Inside the
    [try] the arguments of [cur.execute] are evaluated from left to right:
    [json.dumps(features)], [json.dumps(analysis)], then
    [datetime.utcnow()].  There is no [except]; the [finally] closes the
    cursor, and [cur.close()] may raise as well. *)
Definition store_analysis_results (url : string) (features : Features)
    (analysis : ThreatAnalysis) : M E unit :=
  call conn_cursor ;;
  try_finally
    (features_json <- lift (json_dumps_features features) ;;
     analysis_json <- lift (json_dumps_analysis analysis) ;;
     now <- call (fun e => let '(t, e') := utcnow e in (inr t, e')) ;;
     call (cursor_execute
             {| row_url := url; row_features := features_json;
                row_analysis := analysis_json; row_timestamp := now |}))
    (call cursor_close).

(** [analyze_url], lines 65-100. *)
Definition analyze_url (url : string) : M E ThreatAnalysisResponse :=
  try_except
    (response <- call (crawl_single_url url) ;;
     features <- call (extract_features (text response) url) ;;
     threat_analysis <- threat_detector_predict_threat features ;;
     store_analysis_results url features threat_analysis ;;
     now <- call (fun e => let '(t, e') := utcnow e in (inr t, e')) ;;
     ret {| resp_url := url;
            resp_timestamp := now;
            resp_threat_score := threat_score threat_analysis;
            resp_threat_level := threat_level threat_analysis;
            resp_confidence := confidence threat_analysis;
            resp_details := component_scores threat_analysis |})
    (fun e =>
       logging_error (error_analyzing url e) ;;
       raise (HTTPException 500 (str_exn e))).

(** Modelled from the spec: [store_batch_results] is called but defined
    nowhere in the repository.  The spec's JobStore [put]: the job's
    results are recorded under its id in a process-wide map. *)
Definition store_batch_results (job_id : string) (results : list entry)
  : M E unit :=
  fun w => (inr tt, put_job job_id results w).

(** Modelled from the spec: [load_batch_results] is called but defined
    nowhere in the repository.  The spec's JobStore [get]; an unknown id
    yields [None]. *)
Definition load_batch_results (job_id : string) : M E (option (list entry)) :=
  fun w => (inr (jobs w !! job_id), w).

(** Modelled from the spec: [send_callback] is called but defined nowhere
    in the repository.  The spec's CallbackDispatcher: best effort, at
    least one attempt, a bounded number of attempts, a failed delivery is
    logged and changes nothing else. *)
Fixpoint deliver (attempts : nat) (callback_url job_id : string)
    (results : list entry) : M E unit :=
  match attempts with
  | O => logging_error ("Callback delivery failed for job " ++ job_id)
  | S n =>
      try_except (call (http_post callback_url job_id results))
        (fun _ => deliver n callback_url job_id results)
  end.

Definition send_callback (callback_url job_id : string)
    (results : list entry) : M E unit :=
  deliver 3 callback_url job_id results.

(** The ghost bracket around one analysis of the batch loop. *)
Definition in_flight {A} (url : string) (c : M E A) : M E A :=
  emit (Started url) ;;
  try_finally c (emit (Finished url)).

(** The [for] loop of [process_url_batch], lines 122-131; [results] is
    the list built so far. *)
Fixpoint batch_loop (urls : list string) (results : list entry)
  : M E (list entry) :=
  match urls with
  | [] => ret results
  | url :: rest =>
      results' <-
        try_except
          (result <- in_flight url (analyze_url url) ;;
           ret (results ++ [Verdict result])%list)
          (fun e =>
             logging_error (error_processing url e) ;;
             ret (results ++ [ErrorRecord url (str_exn e)])%list) ;;
      batch_loop rest results'
  end.

(** [process_url_batch], lines 118-138. *)
Definition process_url_batch (urls : list string) (job_id : string)
    (callback_url : option string) : M E unit :=
  results <- batch_loop urls [] ;;
  store_batch_results job_id results ;;
  match callback_url with
  | Some cb => send_callback cb job_id results
  | None => ret tt
  end.

(** [get_batch_results], lines 140-146. *)
Definition get_batch_results (job_id : string) : M E (option (list entry)) :=
  results <- load_batch_results job_id ;;
  if negb (truthy results)
  then raise (HTTPException 404 "Job not found")
  else ret results.

(** [generate_job_id], lines 165-167: two readings of the clock, the
    first formatted to the second, the second hashed. *)
Definition generate_job_id : M E string :=
  t1 <- call (fun e => let '(t, e') := utcnow e in (inr t, e')) ;;
  t2 <- call (fun e => let '(t, e') := utcnow e in (inr t, e')) ;;
  ret (strftime_job t1 ++ str_int (hash_datetime t2)).

(** [analyze_urls_batch], lines 102-116. *)
Definition analyze_urls_batch (urls : list string)
    (callback_url : option string) : M E (string * string) :=
  job_id <- generate_job_id ;;
  (fun w =>
     (inr tt,
      set_tasks
        (background_tasks w ++
           [{| task_urls := urls; task_job_id := job_id;
               task_callback_url := callback_url |}])%list w)) ;;
  ret (job_id, "processing").

(** What the framework does with the queued tasks once the response has
    been sent: it runs them in order. *)
Fixpoint run_tasks (ts : list Task) : M E unit :=
  match ts with
  | [] => ret tt
  | t :: ts' =>
      process_url_batch (task_urls t) (task_job_id t) (task_callback_url t) ;;
      run_tasks ts'
  end.

Definition run_background_tasks : M E unit :=
  fun w => run_tasks (background_tasks w) (set_tasks [] w).

(** ** Reading a run of the batch loop *)

(** The element of [results] that one iteration appends for [url], from
    the outcome of its analysis. *)
Definition entry_of (url : string) (r : exn + ThreatAnalysisResponse) : entry :=
  match r with
  | inr result => Verdict result
  | inl e => ErrorRecord url (str_exn e)
  end.

(** The outcomes of the analyses of [urls], each one started in the
    state its predecessor (and the logging of its failure) left. *)
Fixpoint batch_outcomes (urls : list string) (w : World E)
  : list (exn + ThreatAnalysisResponse) :=
  match urls with
  | [] => []
  | url :: rest =>
      let '(r, w1) := in_flight url (analyze_url url) w in
      let w2 :=
        match r with
        | inr _ => w1
        | inl e => add_log (error_processing url e) w1
        end in
      r :: batch_outcomes rest w2
  end.

End Handlers.

(** The URL an element of [results] is about. *)
Definition entry_url (e : entry) : string :=
  match e with
  | Verdict result => resp_url result
  | ErrorRecord url _ => url
  end.

Definition is_error (e : entry) : bool :=
  match e with
  | Verdict _ => false
  | ErrorRecord _ _ => true
  end.

(** The largest number of analyses in flight along a trace, starting with
    [n] of them in flight. *)
Fixpoint peak_in_flight (tr : list event) (n : nat) : nat :=
  match tr with
  | [] => n
  | Started _ :: tr' => Nat.max n (peak_in_flight tr' (S n))
  | Finished _ :: tr' => Nat.max n (peak_in_flight tr' (Nat.pred n))
  end.

(** The trace of a loop that analyses one URL at a time, in order. *)
Definition sequential_trace (urls : list string) : list event :=
  flat_map (fun url => [Started url; Finished url]) urls.

End ApiBackend.

(* ===================================================================== *)
(** * A concrete deployment, for examples *)
(* ===================================================================== *)

Module Scenario.

Import Float64 ThreatDetection ApiBackend.
Local Open Scope string_scope.

(** The outside world of the examples. *)
Record Outside := {
  (** readings the clock still has to give; the last one repeats *)
  clock : list datetime;
  (** URLs the crawler cannot fetch *)
  unreachable : list string;
  (** whether Snowflake accepts the INSERT *)
  snowflake_up : bool;
  (** the table [threat_analysis_results] *)
  rows : list AnalysisRow;
  (** callbacks that reached their endpoint *)
  delivered : list (string * string * list entry)
}.

Definition epoch : datetime :=
  {| year := 1970; month := 1; day := 1;
     hour := 0; minute := 0; second := 0; microsecond := 0 |}.

Definition read_clock (o : Outside) : datetime * Outside :=
  match clock o with
  | [] => (epoch, o)
  | [t] => (t, o)
  | t :: later =>
      (t, {| clock := later; unreachable := unreachable o;
             snowflake_up := snowflake_up o; rows := rows o;
             delivered := delivered o |})
  end.

Definition fetch (url : string) (o : Outside) : (exn + CrawlResponse) * Outside :=
  if existsb (String.eqb url) (unreachable o)
  then (inl (Error "connection refused"), o)
  else (inr {| text := "<html></html>" |}, o).

Definition insert_row (row : AnalysisRow) (o : Outside)
  : (exn + unit) * Outside :=
  if snowflake_up o
  then (inr tt, {| clock := clock o; unreachable := unreachable o;
                   snowflake_up := true; rows := (rows o ++ [row])%list;
                   delivered := delivered o |})
  else (inl (Error "snowflake: connection lost"), o).

Definition post (callback_url job_id : string) (results : list entry)
    (o : Outside) : (exn + unit) * Outside :=
  (inr tt, {| clock := clock o; unreachable := unreachable o;
              snowflake_up := snowflake_up o; rows := rows o;
              delivered :=
                (delivered o ++ [(callback_url, job_id, results)])%list |}).

(** The JSON text that stands for an analysis in the examples: its level. *)
Definition level_name (level : ThreatLevel) : string :=
  match level with
  | LOW => "LOW"
  | MEDIUM => "MEDIUM"
  | HIGH => "HIGH"
  | CRITICAL => "CRITICAL"
  end.

(** Weights 0.5, 0.3, 0.2; every page reads 0.8, 0.4, 0.1.  The cursor
    can always be opened and closed; only the INSERT may be refused. *)
#[export] Instance deployment : Collaborators Outside string := {|
  utcnow := read_clock;
  crawl_single_url := fetch;
  extract_features := fun page _ o => (inr page, o);
  detectors := fun _ =>
    inr {| text_score := lit 8 10; anomaly_score := lit 4 10;
           rule_based_score := lit 1 10 |};
  weights := {| w_text := lit 5 10; w_anomaly := lit 3 10; w_rules := lit 2 10 |};
  conn_cursor := fun o => (inr tt, o);
  json_dumps_features := fun page => inr page;
  json_dumps_analysis := fun analysis => inr (level_name (threat_level analysis));
  cursor_execute := insert_row;
  cursor_close := fun o => (inr tt, o);
  http_post := post;
  hash_datetime := fun t =>
    (Z.of_N (second t) * 1000000 + Z.of_N (microsecond t))%Z;
  http_exception_str := fun status_code detail =>
    str_int status_code ++ ": " ++ detail
|}.

Definition noon : datetime :=
  {| year := 2024; month := 1; day := 1;
     hour := 12; minute := 0; second := 0; microsecond := 0 |}.

(** Everything works; the clock does not tick between readings. *)
Definition healthy : Outside :=
  {| clock := [noon]; unreachable := []; snowflake_up := true;
     rows := []; delivered := [] |}.

(** Pages can be fetched but the database refuses the INSERT. *)
Definition database_down : Outside :=
  {| clock := [noon]; unreachable := []; snowflake_up := false;
     rows := []; delivered := [] |}.

(** One of three sites cannot be fetched. *)
Definition one_site_down : Outside :=
  {| clock := [noon]; unreachable := ["http://b.example/"];
     snowflake_up := true; rows := []; delivered := [] |}.

End Scenario.

(* ===================================================================== *)
(** * Python's built-ins on floats *)
(* ===================================================================== *)

Module PyFloat.
Import Float64.

(** [min(a, b)] on two floats: CPython keeps [a] unless [b < a]. *)
Definition py_min (a b : float64) : float64 := if ltb b a then b else a.

(** Python's [0.0 <= x]: neither NaN nor negative. *)
Definition ge_zero (x : float64) : bool := leb (of_Z 0) x.

(** Python's [0.0 < x]. *)
Definition gt_zero (x : float64) : bool := ltb (of_Z 0) x.

End PyFloat.

(* ===================================================================== *)
(** * Python's [re], as far as the extractor uses it *)
(* ===================================================================== *)

Module Re.

Local Open Scope char_scope.

(** The syntax the patterns of [feature-extractor.py] are written in.
    Text is ASCII: one [ascii] per character, so that [\d] is [[0-9]] and
    letter case is the ASCII one. *)
Inductive regex :=
| Chr (c : ascii)                          (** a literal character; [\.] is [Chr "."] *)
| Digit                                    (** [\d] *)
| Dot                                      (** [.]: any character but a newline *)
| CharSet (negated : bool) (items : list (ascii * ascii))
                                           (** [[a-z...]] and [[^...]], as ranges *)
| Cat (r1 r2 : regex)
| Alt (r1 r2 : regex)                      (** [r1|r2] *)
| Repeat (r : regex) (lo : nat) (hi : option nat)
                                           (** [r{lo,hi}]; [r*] is [Repeat r 0 None],
                                               [r?] is [Repeat r 0 (Some 1)] *)
| NotAhead (r : regex).                    (** [(?!r)] *)

Definition code (c : ascii) : nat := nat_of_ascii c.

Definition is_digit (c : ascii) : bool := (48 <=? code c)%nat && (code c <=? 57)%nat.
Definition is_upper (c : ascii) : bool := (65 <=? code c)%nat && (code c <=? 90)%nat.
Definition is_lower (c : ascii) : bool := (97 <=? code c)%nat && (code c <=? 122)%nat.
Definition is_letter (c : ascii) : bool := is_upper c || is_lower c.

Definition lower (c : ascii) : ascii :=
  if is_upper c then ascii_of_nat (code c + 32) else c.
Definition upper (c : ascii) : ascii :=
  if is_lower c then ascii_of_nat (code c - 32) else c.

(** A literal against a character, under [re.IGNORECASE] when [ic]. *)
Definition chr_eq (ic : bool) (c x : ascii) : bool :=
  if ic then Ascii.eqb (lower c) (lower x) else Ascii.eqb c x.

Definition in_range (lo hi x : ascii) : bool :=
  (code lo <=? code x)%nat && (code x <=? code hi)%nat.

(** Membership in a set; under [re.IGNORECASE] a character belongs to the
    set when one of its two cases does. *)
Definition in_set (ic : bool) (items : list (ascii * ascii)) (x : ascii) : bool :=
  existsb
    (fun item =>
       in_range (fst item) (snd item) x
       || (ic && (in_range (fst item) (snd item) (lower x)
                  || in_range (fst item) (snd item) (upper x))))
    items.

(** What [.] matches. *)
Definition not_newline (c : ascii) : bool := negb (Ascii.eqb c "010").

(** One character, when it satisfies [p]. *)
Definition single (p : ascii -> bool) (s : string) : list string :=
  match s with
  | String x s' => if p x then [s'] else []
  | EmptyString => []
  end.

Section Repetition.
Variable step : string -> list string.

(** Exactly [n] rounds of [step]. *)
Fixpoint rep_exact (n : nat) (s : string) : list string :=
  match n with
  | O => [s]
  | S n' => flat_map (rep_exact n') (step s)
  end.

(** Zero to [n] rounds of [step]. *)
Fixpoint rep_upto (n : nat) (s : string) : list string :=
  s :: match n with
       | O => []
       | S n' => flat_map (rep_upto n') (step s)
       end.

End Repetition.

(** [ends ic r s]: what can remain of [s] once [r] has matched at its
    beginning, every way of matching considered.  Whether a search succeeds
    depends on whether some way of matching exists, not on the order in
    which the backtracking engine tries them.  An unbounded repetition needs
    no more rounds than [s] has characters. *)
Fixpoint ends (ic : bool) (r : regex) (s : string) : list string :=
  match r with
  | Chr c => single (chr_eq ic c) s
  | Digit => single is_digit s
  | Dot => single not_newline s
  | CharSet negated items => single (fun x => xorb negated (in_set ic items x)) s
  | Cat r1 r2 => flat_map (ends ic r2) (ends ic r1 s)
  | Alt r1 r2 => ends ic r1 s ++ ends ic r2 s
  | Repeat r lo hi =>
      flat_map
        (rep_upto (ends ic r)
           match hi with
           | Some h => h - lo
           | None => String.length s
           end)
        (rep_exact (ends ic r) lo s)
  | NotAhead r =>
      match ends ic r s with
      | [] => [s]
      | _ :: _ => []
      end
  end.

Definition matches_at (ic : bool) (r : regex) (s : string) : bool :=
  match ends ic r s with
  | [] => false
  | _ :: _ => true
  end.

(** The positions a search can start from: [s] and all its suffixes. *)
Fixpoint tails (s : string) : list string :=
  s :: match s with
       | String _ s' => tails s'
       | EmptyString => []
       end.

(** [bool(re.search(r, s))], with [re.IGNORECASE] when [ic]. *)
Definition search (ic : bool) (r : regex) (s : string) : bool :=
  existsb (matches_at ic r) (tails s).

(** [Cat] over a list; a literal word. *)
Fixpoint cat (rs : list regex) (last : regex) : regex :=
  match rs with
  | [] => last
  | r :: rs' => Cat r (cat rs' last)
  end.

(** Every character of [s] satisfies [p]. *)
Fixpoint string_forall (p : ascii -> bool) (s : string) : bool :=
  match s with
  | EmptyString => true
  | String c s' => p c && string_forall p s'
  end.

(** One to three decimal digits: what [\d{1,3}] matches. *)
Definition digits_1_3 (d : string) : bool :=
  string_forall is_digit d
  && (1 <=? String.length d)%nat && (String.length d <=? 3)%nat.

End Re.

(* ===================================================================== *)
(** * feature-extractor.py *)
(* ===================================================================== *)

Module FeatureExtractor.

Import Float64 PyFloat Re.
Local Open Scope string_scope.

(** The dictionaries the extractor builds. *)
Record ImageAnalysis := {
  has_logo : bool;
  is_suspicious : bool
}.

Record ImageFeature := {
  src : string;
  analysis : ImageAnalysis
}.

Record ImageFeatures := { images : list ImageFeature }.

Record TextFeatures := {
  bert_embeddings : list (list float64);
  suspicious_patterns_found : list string;
  named_entities : list (string * string);
  text_length : nat;
  sentence_count : nat
}.

(** [url_length] is the key ['length']. *)
Record UrlFeatures := {
  url_length : nat;
  suspicious_patterns : list string;
  contains_ip : bool;
  subdomain_count : Z
}.

Record Features := {
  text_features : TextFeatures;
  image_features : ImageFeatures;
  url_features : UrlFeatures;
  combined_risk_score : float64
}.

(** A pattern: its text as written in the source and what it denotes. *)
Record pattern := {
  pattern_text : string;
  pattern_regex : regex
}.

Definition letters : regex := CharSet false [("A", "Z"); ("a", "z")]%char.

(** [bit\.ly] *)
Definition bit_ly : pattern :=
  {| pattern_text := "bit\.ly";
     pattern_regex := cat [Chr "b"; Chr "i"; Chr "t"; Chr "."; Chr "l"] (Chr "y") |}.

(** [tiny\.cc] *)
Definition tiny_cc : pattern :=
  {| pattern_text := "tiny\.cc";
     pattern_regex :=
       cat [Chr "t"; Chr "i"; Chr "n"; Chr "y"; Chr "."; Chr "c"] (Chr "c") |}.

(** The alternatives of the lookahead of the third pattern:
    [www\.], [(?:http|ftp)s?://], [[A-Za-z]:\\] and [//]. *)
Definition www_dot : regex := cat [Chr "w"; Chr "w"; Chr "w"] (Chr ".").
Definition scheme : regex :=
  cat [Alt (cat [Chr "h"; Chr "t"; Chr "t"] (Chr "p"))
           (cat [Chr "f"; Chr "t"] (Chr "p"));
       Repeat (Chr "s") 0 (Some 1);
       Chr ":"; Chr "/"] (Chr "/").
Definition drive : regex := cat [letters; Chr ":"] (Chr "\").
Definition slashes : regex := Cat (Chr "/") (Chr "/").

(** [(?!www\.|(?:http|ftp)s?://|[A-Za-z]:\\|//).*\.[A-Za-z]{2,6}] *)
Definition dotted_name : pattern :=
  {| pattern_text := "(?!www\.|(?:http|ftp)s?://|[A-Za-z]:\\|//).*\.[A-Za-z]{2,6}";
     pattern_regex :=
       cat [NotAhead (Alt www_dot (Alt scheme (Alt drive slashes)));
            Repeat Dot 0 None;
            Chr "."]
           (Repeat letters 2 (Some 6)) |}.

(** [load_suspicious_patterns()['suspicious_urls']], lines 27-31. *)
Definition suspicious_urls : list pattern := [bit_ly; tiny_cc; dotted_name].

(** [\d{1,3}\.\d{1,3}\.\d{1,3}\.\d{1,3}], line 118. *)
Definition dotted_quad : regex :=
  cat [Repeat Digit 1 (Some 3); Chr ".";
       Repeat Digit 1 (Some 3); Chr ".";
       Repeat Digit 1 (Some 3); Chr "."]
      (Repeat Digit 1 (Some 3)).

(** [len(re.findall(r'\.', url))]: one match per dot. *)
Fixpoint count_dots (url : string) : nat :=
  match url with
  | EmptyString => 0
  | String c rest => (if Ascii.eqb c "." then 1 else 0) + count_dots rest
  end.

(** [analyze_url], lines 111-120. *)
Definition analyze_url (url : string) : UrlFeatures :=
  {| url_length := String.length url;
     suspicious_patterns :=
       map pattern_text
         (List.filter (fun p => search true (pattern_regex p) url) suspicious_urls);
     contains_ip := search false dotted_quad url;
     subdomain_count := Z.of_nat (count_dots url) - 1 |}.

(** [detect_logo] and [check_image_manipulation], lines 101-109: both are
    placeholders that answer [False]. *)
Definition detect_logo (image_path : string) : bool := false.
Definition check_image_manipulation (image_path : string) : bool := false.

(** The loop of [extract_image_features], lines 84-99, over the [src]
    attributes the regular expression of line 82 found. *)
Definition image_features_of (image_tags : list string) : ImageFeatures :=
  {| images :=
       map (fun img_src =>
              {| src := img_src;
                 analysis :=
                   {| has_logo := detect_logo img_src;
                      is_suspicious := check_image_manipulation img_src |} |})
           image_tags |}.

(** [sum(1 for img in images if img['analysis']['is_suspicious'])]. *)
Definition count_suspicious (imgs : list ImageFeature) : nat :=
  List.length (List.filter (fun img => is_suspicious (analysis img)) imgs).

Definition count_logos (imgs : list ImageFeature) : nat :=
  List.length (List.filter (fun img => has_logo (analysis img)) imgs).

(** [n * x] for an [int] and a [float]: the integer is converted first. *)
Definition int_times (n : nat) (x : float64) : float64 :=
  mul (of_Z (Z.of_nat n)) x.

(** [calculate_risk_score], lines 122-144. *)
Definition calculate_risk_score (text_features : TextFeatures)
    (image_features : ImageFeatures) (url_features : UrlFeatures) : float64 :=
  let risk_score := of_Z 0 in
  let risk_score :=
    add risk_score
      (int_times (List.length (suspicious_patterns_found text_features)) (lit 1 10)) in
  let risk_score :=
    add risk_score
      (int_times (List.length (suspicious_patterns url_features)) (lit 2 10)) in
  let risk_score :=
    add risk_score
      (int_times (count_suspicious (images image_features)) (lit 15 100)) in
  py_min risk_score (of_Z 1).

Section Extraction.

(** What [extract_features] needs from outside: [extract_text_features]
    (spaCy, BERT and the scan for phishing keywords) and the [src]
    attributes found by [re.findall(r'<img[^>]+src=..', html_content)]. *)
Variable extract_text_features : string -> TextFeatures.
Variable image_tags : string -> list string.

Definition extract_image_features (html_content : string) : ImageFeatures :=
  image_features_of (image_tags html_content).

(** [extract_features], lines 34-46. *)
Definition extract_features (html_content url : string) : Features :=
  let text_features := extract_text_features html_content in
  let image_features := extract_image_features html_content in
  let url_features := analyze_url url in
  {| text_features := text_features;
     image_features := image_features;
     url_features := url_features;
     combined_risk_score :=
       calculate_risk_score text_features image_features url_features |}.

End Extraction.

End FeatureExtractor.

(* ===================================================================== *)
(** * threat-detection.py: the rule engine and the feature vector *)
(* ===================================================================== *)

Module ThreatDetectionModel.

Import Float64 PyFloat ThreatDetection FeatureExtractor.

(** Truth value of a list: empty is false. *)
Definition nonempty {A} (l : list A) : bool :=
  match l with
  | [] => false
  | _ :: _ => true
  end.

(** The body of the loop over the images, lines 135-139. *)
Definition image_rules (score : float64) (image : ImageFeature) : float64 :=
  let score :=
    if is_suspicious (analysis image) then add score (lit 1 10) else score in
  if has_logo (analysis image) then add score (lit 1 10) else score.

(** [apply_rules], lines 114-141.  The test on ['subdomain_count'] is the
    statement that starts on line 127 and is completed on line 131. *)
Definition apply_rules (features : Features) : float64 :=
  let score := of_Z 0 in
  let score :=
    if nonempty (suspicious_patterns_found (text_features features))
    then add score (lit 3 10) else score in
  let url_features := url_features features in
  let score :=
    if contains_ip url_features then add score (lit 2 10) else score in
  let score :=
    if nonempty (suspicious_patterns url_features)
    then add score (lit 2 10) else score in
  let score :=
    if (2 <? subdomain_count url_features)%Z
    then add score (lit 1 10) else score in
  let score := fold_left image_rules (images (image_features features)) score in
  py_min score (of_Z 1).



(** Whether some rule of [apply_rules] fires. *)
Definition some_rule_fires (features : Features) : bool :=
  nonempty (suspicious_patterns_found (text_features features))
  || contains_ip (url_features features)
  || nonempty (suspicious_patterns (url_features features))
  || (2 <? subdomain_count (url_features features))%Z
  || existsb (fun image => is_suspicious (analysis image) || has_logo (analysis image))
       (images (image_features features)).

(** What holds of [score] along [apply_rules] and along
    [calculate_risk_score]: it is a valid double, zero as long as nothing
    has been added and positive from then on. *)
Definition rule_inv (fired : bool) (score : float64) : Prop :=
  valid score /\ if fired then gt_zero score = true else score = of_Z 0.

(** The levels in increasing order of severity. *)
Definition level_rank (l : ThreatLevel) : nat :=
  match l with
  | LOW => 0
  | MEDIUM => 1
  | HIGH => 2
  | CRITICAL => 3
  end.

End ThreatDetectionModel.

(* ===================================================================== *)
(** * Clock readings and job-id stamps *)
(* ===================================================================== *)

Module Clock.
Import ApiBackend.

(** A reading [datetime.utcnow()] can give: a four-digit year and fields
    within their calendar ranges. *)
Definition well_formed (t : datetime) : Prop :=
  (1000 <= year t <= 9999 /\ 1 <= month t <= 12 /\ 1 <= day t <= 31 /\
   hour t <= 23 /\ minute t <= 59 /\ second t <= 59)%N.

(** Two readings within the same calendar second. *)
Definition same_second (t t' : datetime) : Prop :=
  year t = year t' /\ month t = month t' /\ day t = day t' /\
  hour t = hour t' /\ minute t = minute t' /\ second t = second t'.

(** The number a string of decimal digits denotes. *)
Definition digits_value (s : string) : N :=
  fold_left (fun acc c => (10 * acc + (N_of_ascii c - 48))%N)
    (list_ascii_of_string s) 0%N.

(** The naturals below [k]. *)
Definition below (k : N) : list N := map N.of_nat (seq 0 (N.to_nat k)).

(** A padded field has the width asked for and reads back as the number
    it was made from. *)
Definition pad_ok (width : nat) (n : N) : bool :=
  (String.length (zero_pad width n) =? width)%nat
  && (digits_value (zero_pad width n) =? n)%N.

End Clock.

(* ===================================================================== *)
(** * Exceptions and effects shared by the connector and the spider *)
(* ===================================================================== *)

Module Py.

(** An exception: its class and its message; [str(e)] is the message. *)
Inductive exception :=
| Exception (kind : string) (message : string).

Definition str (e : exception) : string :=
  match e with Exception _ message => message end.

Section Monad.
Variable S : Type.

(** State passing with exceptions; an exception keeps the state reached. *)
Definition Run (A : Type) : Type := S -> (exception + A) * S.

Definition ret {A} (a : A) : Run A := fun s => (inr a, s).
Definition raise {A} (e : exception) : Run A := fun s => (inl e, s).
Definition bind {A B} (c : Run A) (k : A -> Run B) : Run B :=
  fun s =>
    match c s with
    | (inr a, s') => k a s'
    | (inl e, s') => (inl e, s')
    end.

(** [try: c except Exception as e: h e]. *)
Definition try_except {A} (c : Run A) (h : exception -> Run A) : Run A :=
  fun s =>
    match c s with
    | (inr a, s') => (inr a, s')
    | (inl e, s') => h e s'
    end.

(** [try: c finally: f].  The [finally] block always runs; when it raises,
    its exception replaces the outcome of [c]. *)
Definition try_finally {A} (c : Run A) (f : Run unit) : Run A :=
  fun s =>
    let '(r, s1) := c s in
    match f s1 with
    | (inr _, s2) => (r, s2)
    | (inl e, s2) => (inl e, s2)
    end.

End Monad.

Arguments ret {S A} _.
Arguments raise {S A} _.
Arguments bind {S A B} _ _.
Arguments try_except {S A} _ _.
Arguments try_finally {S A} _ _.

End Py.

Declare Scope run_scope.
Delimit Scope run_scope with run.
Notation "x <- c ;; k" := (Py.bind c (fun x => k))
  (at level 100, c at next level, right associativity) : run_scope.
Notation "c ;; k" := (Py.bind c (fun _ => k))
  (at level 100, right associativity) : run_scope.

(* ===================================================================== *)
(** * database-connector.py *)
(* ===================================================================== *)

Module DatabaseConnector.

Import Float64 Py.
Local Open Scope string_scope.

(** A value bound to a [%s] placeholder. *)
Inductive param :=
| PText (s : string)
| PInt (n : Z)
| PFloat (x : float64)
| PTime (t : ApiBackend.datetime).

(** The calls made on the Snowflake driver, in the order they are made. *)
Inductive call (C : Type) :=
| Connect
| Cursor (c : C)
| Execute (c : C) (sql : string) (params : list param)
| Fetchone (c : C)
| CursorClose (c : C)
| ReadSql (sql : string) (params : list param)
| ConnClose.
Arguments Connect {C}.
Arguments Cursor {C} _.
Arguments Execute {C} _ _ _.
Arguments Fetchone {C} _.
Arguments CursorClose {C} _.
Arguments ReadSql {C} _ _.
Arguments ConnClose {C}.

(** The driver, the clock and the JSON encoder.  [D] is the state of the
    database and of everything else outside the process, [C] the type of
    cursors, [J] the type of the values handed to [json.dumps], [T] the
    type of a [pandas] data frame. *)
Class Driver (D C J T : Type) := {
  db_connect : D -> (exception + unit) * D;
  db_cursor : D -> (exception + C) * D;
  db_execute : C -> string -> list param -> D -> (exception + unit) * D;
  db_fetchone : C -> D -> (exception + option (list Z)) * D;
  db_cursor_close : C -> D -> (exception + unit) * D;
  db_read_sql : string -> list param -> D -> (exception + T) * D;
  db_conn_close : D -> (exception + unit) * D;
  db_utcnow : D -> ApiBackend.datetime * D;
  json_dumps : J -> exception + string
}.

(** The connector object and what surrounds it. *)
Record Connector (D C : Type) := {
  outside : D;
  (** whether the attribute [self.conn] is set *)
  has_conn : bool;
  (** the records written to [self.logger]: level and message *)
  logger : list (string * string);
  (** the calls made on the driver so far *)
  journal : list (call C)
}.
Arguments outside {D C} _.
Arguments has_conn {D C} _.
Arguments logger {D C} _.
Arguments journal {D C} _.
Arguments Build_Connector {D C} _ _ _ _.

Definition fresh_connector {D C} (d : D) : Connector D C :=
  Build_Connector d false [] [].

(** The dictionaries the [store_*] methods receive. *)
Record CrawlData (J : Type) := {
  cd_url : string;
  cd_html_content : string;
  cd_headers : J;
  cd_status : Z
}.
Arguments cd_url {J} _.
Arguments cd_html_content {J} _.
Arguments cd_headers {J} _.
Arguments cd_status {J} _.

Record FeatureData (J : Type) := {
  fd_text_features : J;
  fd_image_features : J;
  fd_url_features : J
}.
Arguments fd_text_features {J} _.
Arguments fd_image_features {J} _.
Arguments fd_url_features {J} _.

Record AnalysisData (J : Type) := {
  ad_threat_score : float64;
  ad_threat_level : string;
  ad_confidence : float64;
  ad_component_scores : J
}.
Arguments ad_threat_score {J} _.
Arguments ad_threat_level {J} _.
Arguments ad_confidence {J} _.
Arguments ad_component_scores {J} _.

(** ** The statements, as written in the source *)

Definition create_raw_crawl_data : string := "
                CREATE TABLE IF NOT EXISTS raw_crawl_data (
                    id NUMBER AUTOINCREMENT,
                    url VARCHAR,
                    timestamp TIMESTAMP_NTZ,
                    html_content VARCHAR,
                    headers VARIANT,
                    status INTEGER,
                    PRIMARY KEY (id)
                )
            ".

Definition create_extracted_features : string := "
                CREATE TABLE IF NOT EXISTS extracted_features (
                    id NUMBER AUTOINCREMENT,
                    crawl_id NUMBER,
                    text_features VARIANT,
                    image_features VARIANT,
                    url_features VARIANT,
                    timestamp TIMESTAMP_NTZ,
                    PRIMARY KEY (id),
                    FOREIGN KEY (crawl_id) REFERENCES raw_crawl_data(id)
                )
            ".

Definition create_threat_analysis : string := "
                CREATE TABLE IF NOT EXISTS threat_analysis (
                    id NUMBER AUTOINCREMENT,
                    feature_id NUMBER,
                    threat_score FLOAT,
                    threat_level VARCHAR,
                    confidence FLOAT,
                    component_scores VARIANT,
                    timestamp TIMESTAMP_NTZ,
                    PRIMARY KEY (id),
                    FOREIGN KEY (feature_id) REFERENCES extracted_features(id)
                )
            ".

Definition insert_raw_crawl_data : string := "
                INSERT INTO raw_crawl_data (url, timestamp, html_content, headers, status)
                VALUES (%s, %s, %s, parse_json(%s), %s)
                RETURNING id
            ".

Definition insert_extracted_features : string := "
                INSERT INTO extracted_features 
                (crawl_id, text_features, image_features, url_features, timestamp)
                VALUES (%s, parse_json(%s), parse_json(%s), parse_json(%s), %s)
                RETURNING id
            ".

Definition insert_threat_analysis : string := "
                INSERT INTO threat_analysis 
                (feature_id, threat_score, threat_level, confidence, 
                 component_scores, timestamp)
                VALUES (%s, %s, %s, %s, parse_json(%s), %s)
            ".

Definition select_analysis : string := "
            SELECT 
                r.url,
                t.threat_score,
                t.threat_level,
                t.confidence,
                t.component_scores,
                t.timestamp
            FROM threat_analysis t
            JOIN extracted_features f ON t.feature_id = f.id
            JOIN raw_crawl_data r ON f.crawl_id = r.id
            WHERE 1=1
        ".

(** The number of occurrences of a character. *)
Fixpoint count_char (c : ascii) (s : string) : nat :=
  match s with
  | EmptyString => 0
  | String x s' => (if Ascii.eqb x c then 1 else 0) + count_char c s'
  end.

(** The number of [%s] placeholders of a statement. *)
Fixpoint placeholders (s : string) : nat :=
  match s with
  | EmptyString => 0
  | String c rest =>
      match rest with
      | EmptyString => 0
      | String d _ =>
          (if Ascii.eqb c "%" && Ascii.eqb d "s" then 1 else 0) + placeholders rest
      end
  end.

(** Whether a text starts with the letter that would complete a [%]. *)
Definition starts_with_s (s : string) : bool :=
  match s with
  | String c _ => Ascii.eqb c "s"
  | EmptyString => false
  end.

Section Methods.
Context {D C J T : Type} `{Driver D C J T}.
Local Open Scope run_scope.

(** A call to the driver: it is entered in the journal, then made. *)
Definition driver {A} (what : A -> list (call C))
    (f : D -> (exception + A) * D) : Run (Connector D C) A :=
  fun s =>
    let '(r, d) := f (outside s) in
    (r, Build_Connector d (has_conn s) (logger s)
          (journal s ++ match r with
                        | inr a => what a
                        | inl _ => []
                        end)%list).

(** A call that is journalled whether it succeeds or not. *)
Definition attempt {A} (what : call C)
    (f : D -> (exception + A) * D) : Run (Connector D C) A :=
  fun s =>
    let '(r, d) := f (outside s) in
    (r, Build_Connector d (has_conn s) (logger s) (journal s ++ [what])%list).

Definition log_record (level message : string) : Run (Connector D C) unit :=
  fun s =>
    (inr tt,
     Build_Connector (outside s) (has_conn s)
       (logger s ++ [(level, message)])%list (journal s)).

Definition set_conn : Run (Connector D C) unit :=
  fun s => (inr tt, Build_Connector (outside s) true (logger s) (journal s)).

Definition utcnow : Run (Connector D C) ApiBackend.datetime :=
  fun s =>
    let '(t, d) := db_utcnow (outside s) in
    (inr t, Build_Connector d (has_conn s) (logger s) (journal s)).

Definition dumps (j : J) : Run (Connector D C) string :=
  match json_dumps j with
  | inl e => raise e
  | inr text => ret text
  end.

(** Reading the attribute [self.conn]. *)
Definition self_conn : Run (Connector D C) unit :=
  fun s =>
    if has_conn s then (inr tt, s)
    else (inl (Exception "AttributeError"
                 "'SnowflakeConnector' object has no attribute 'conn'"), s).

(** [initialize_connection], lines 21-35.  Reading the credentials from
    [self.config] is part of [db_connect]. *)
Definition initialize_connection : Run (Connector D C) unit :=
  try_except
    (attempt Connect db_connect ;;
     set_conn ;;
     log_record "INFO" "Successfully connected to Snowflake")
    (fun e =>
       log_record "ERROR" ("Failed to connect to Snowflake: " ++ str e) ;;
       raise e).

(** [with self.get_cursor() as cursor: body], lines 37-44: the cursor is
    obtained before the [try], so a failure to obtain it closes nothing. *)
Definition with_cursor {A} (body : C -> Run (Connector D C) A) : Run (Connector D C) A :=
  self_conn ;;
  cursor <- driver (fun c => [Cursor c]) db_cursor ;;
  try_finally (body cursor)
    (attempt (CursorClose cursor) (db_cursor_close cursor)).

Definition execute (cursor : C) (sql : string) (params : list param)
  : Run (Connector D C) unit :=
  attempt (Execute cursor sql params) (db_execute cursor sql params).

(** [cursor.fetchone()[0]]. *)
Definition fetch_id (cursor : C) : Run (Connector D C) Z :=
  row <- attempt (Fetchone cursor) (db_fetchone cursor) ;;
  match row with
  | None => raise (Exception "TypeError" "'NoneType' object is not subscriptable")
  | Some [] => raise (Exception "IndexError" "tuple index out of range")
  | Some (id :: _) => ret id
  end.

(** [create_tables], lines 46-89. *)
Definition create_tables : Run (Connector D C) unit :=
  with_cursor (fun cursor =>
    execute cursor create_raw_crawl_data [] ;;
    execute cursor create_extracted_features [] ;;
    execute cursor create_threat_analysis []).

(** [store_crawl_data], lines 91-105. *)
Definition store_crawl_data (data : CrawlData J) : Run (Connector D C) Z :=
  with_cursor (fun cursor =>
    now <- utcnow ;;
    headers <- dumps (cd_headers data) ;;
    execute cursor insert_raw_crawl_data
      [PText (cd_url data); PTime now; PText (cd_html_content data);
       PText headers; PInt (cd_status data)] ;;
    fetch_id cursor).

(** [store_features], lines 107-122. *)
Definition store_features (crawl_id : Z) (features : FeatureData J) : Run (Connector D C) Z :=
  with_cursor (fun cursor =>
    text_features <- dumps (fd_text_features features) ;;
    image_features <- dumps (fd_image_features features) ;;
    url_features <- dumps (fd_url_features features) ;;
    now <- utcnow ;;
    execute cursor insert_extracted_features
      [PInt crawl_id; PText text_features; PText image_features;
       PText url_features; PTime now] ;;
    fetch_id cursor).

(** [store_analysis], lines 124-139. *)
Definition store_analysis (feature_id : Z) (analysis : AnalysisData J)
  : Run (Connector D C) unit :=
  with_cursor (fun cursor =>
    component_scores <- dumps (ad_component_scores analysis) ;;
    now <- utcnow ;;
    execute cursor insert_threat_analysis
      [PInt feature_id; PFloat (ad_threat_score analysis);
       PText (ad_threat_level analysis); PFloat (ad_confidence analysis);
       PText component_scores; PTime now]).

(** The query and the parameters [get_analysis_results] builds, lines
    149-176.  A [datetime] is always true; a string is true unless empty. *)
Definition analysis_query (start_date end_date : option ApiBackend.datetime)
    (threat_level : option string) (limit : Z) : string * list param :=
  let query := select_analysis in
  let params := [] in
  let '(query, params) :=
    match start_date with
    | Some t => (query ++ " AND t.timestamp >= %s", (params ++ [PTime t])%list)
    | None => (query, params)
    end in
  let '(query, params) :=
    match end_date with
    | Some t => (query ++ " AND t.timestamp <= %s", (params ++ [PTime t])%list)
    | None => (query, params)
    end in
  let '(query, params) :=
    match threat_level with
    | Some (String _ _ as level) =>
        (query ++ " AND t.threat_level = %s", (params ++ [PText level])%list)
    | _ => (query, params)
    end in
  let query := query ++ " ORDER BY t.timestamp DESC LIMIT " ++ ApiBackend.str_int limit in
  (query, params).

(** [get_analysis_results], lines 141-178. *)
Definition get_analysis_results (start_date end_date : option ApiBackend.datetime)
    (threat_level : option string) (limit : Z) : Run (Connector D C) T :=
  let '(query, params) := analysis_query start_date end_date threat_level limit in
  self_conn ;;
  attempt (ReadSql query params) (db_read_sql query params).

(** [close], lines 180-183. *)
Definition close : Run (Connector D C) unit :=
  fun s =>
    if has_conn s then attempt ConnClose db_conn_close s else (inr tt, s).

(** [__init__], lines 11-15; [setup_logging] only configures the logger. *)
Definition init : Run (Connector D C) unit :=
  initialize_connection ;;
  create_tables.

End Methods.

(** The three statements of [create_tables], in the order it issues them. *)
Definition table_statements : list string :=
  [create_raw_crawl_data; create_extracted_features; create_threat_analysis].

(** A journalled statement binds one parameter per placeholder. *)
Definition well_bound {C} (c : call C) : Prop :=
  match c with
  | Execute _ sql params | ReadSql sql params =>
      placeholders sql = List.length params
  | _ => True
  end.

(** Along a journal, the cursors obtained minus the calls of [close()]
    made on cursors, whatever those calls returned. *)
Fixpoint open_cursors {C} (j : list (call C)) : Z :=
  match j with
  | [] => 0
  | Cursor _ :: j' => open_cursors j' + 1
  | CursorClose _ :: j' => open_cursors j' - 1
  | _ :: j' => open_cursors j'
  end.

(** Journal entries that bind their placeholders and call [close()] as
    many times as they obtain a cursor. *)
Definition tidy {C} (new : list (call C)) : Prop :=
  Forall well_bound new /\ open_cursors new = 0%Z.

(** What a step may add to the journal; it does not touch [self.conn]. *)
Definition adds {D C} (P : list (call C) -> Prop) {A}
    (c : Py.Run (Connector D C) A) : Prop :=
  forall s, exists new,
    journal (snd (c s)) = (journal s ++ new)%list /\ P new /\
    has_conn (snd (c s)) = has_conn s.

(** A call made on the cursor [c] while it is in use. *)
Definition uses_cursor {C} (c : C) (ev : call C) : Prop :=
  match ev with
  | Execute c' _ _ | Fetchone c' => c' = c
  | _ => False
  end.

(** A method that either obtains no cursor and raises, or obtains one
    cursor, makes its calls on that cursor and then calls [close()] on it,
    as its last call on the driver; when that [close()] raises, so does
    the method, with the same exception.  [d] is the state of the database
    when [close()] is called, [closed] what the call returns. *)
Definition closes_its_cursor {D C J T : Type} `{Driver D C J T} {A}
    (m : Py.Run (Connector D C) A) : Prop :=
  forall s,
    (journal (snd (m s)) = journal s /\ exists e, fst (m s) = inl e) \/
    (exists cursor uses d closed,
       journal (snd (m s)) =
         (journal s ++ Cursor cursor :: uses ++ [CursorClose cursor])%list /\
       Forall (uses_cursor cursor) uses /\
       db_cursor_close cursor d = (closed, outside (snd (m s))) /\
       match closed with
       | inl e => fst (m s) = inl e
       | inr _ => True
       end).

End DatabaseConnector.

(* ===================================================================== *)
(** * experiment_runner.py: the spider *)
(* ===================================================================== *)

Module Spider.

Import Py.
Local Open Scope string_scope.

(** The two callbacks a request can name. *)
Inductive handler := parse_callback | handle_error_callback.

(** What the spider reads of a response. *)
Record Response (J : Type) := {
  response_url : string;
  response_text : string;
  response_headers : J;
  response_status : Z
}.
Arguments response_url {J} _.
Arguments response_text {J} _.
Arguments response_headers {J} _.
Arguments response_status {J} _.

Record Request := {
  request_url : string;
  user_agent : string;
  callback : handler;
  errback : option handler;
  proxy : option string
}.

(** The two settings the spider reads; a missing key reads as [[]]. *)
Record Settings := {
  START_URLS : list string;
  PROXY_LIST : list string
}.

(** A value bound to a placeholder of the INSERT. *)
Inductive field :=
| FText (s : string)
| FInt (n : Z).

(** What the spider calls: the clock, the pool of user agents, the link
    extractor, [response.urljoin], the validation [Request(..)] performs on
    its URL, [json.dumps] and the Snowflake cursor.  [W] is the state of
    the outside world, [J] the type of header dictionaries. *)
Class Outside (W J : Type) := {
  utcnow_isoformat : W -> string * W;
  random_user_agent : W -> string * W;
  css_hrefs : Response J -> exception + list string;
  urljoin : Response J -> string -> exception + string;
  request_check : string -> exception + unit;
  headers_json : J -> exception + string;
  snow_cursor : W -> (exception + unit) * W;
  snow_execute : string -> list field -> W -> (exception + unit) * W;
  snow_close : W -> (exception + unit) * W
}.

(** The spider at work: the outside world, the lines written with
    [logging.error] and the requests yielded so far. *)
Record Spider (W : Type) := {
  world : W;
  errors : list string;
  yielded : list Request
}.
Arguments world {W} _.
Arguments errors {W} _.
Arguments yielded {W} _.
Arguments Build_Spider {W} _ _ _.


Section Methods.
Context {W J : Type} `{Outside W J}.
Variable settings : Settings.
Local Open Scope run_scope.

Definition outside {A} (f : W -> (exception + A) * W) : Run (Spider W) A :=
  fun s =>
    let '(r, w) := f (world s) in
    (r, Build_Spider w (errors s) (yielded s)).

Definition total {A} (f : W -> A * W) : Run (Spider W) A :=
  outside (fun w => let '(a, w') := f w in (inr a, w')).

Definition lift {A} (r : exception + A) : Run (Spider W) A :=
  match r with
  | inl e => raise e
  | inr a => ret a
  end.

Definition logging_error (line : string) : Run (Spider W) unit :=
  fun s => (inr tt, Build_Spider (world s) (errors s ++ [line])%list (yielded s)).

(** [yield request]: the engine takes the request; it stays taken whatever
    happens next. *)
Definition yield (request : Request) : Run (Spider W) unit :=
  fun s => (inr tt, Build_Spider (world s) (errors s) (yielded s ++ [request])%list).

(** [get_next_proxy], lines 83-86. *)
Definition get_next_proxy : option string :=
  match PROXY_LIST settings with
  | [] => None
  | first :: _ => Some first
  end.





(** [start_requests], lines 30-39. *)
Fixpoint start_loop (urls : list string) : Run (Spider W) unit :=
  match urls with
  | [] => ret tt
  | url :: rest =>
      agent <- total random_user_agent ;;
      lift (request_check url) ;;
      yield {| request_url := url; user_agent := agent;
               callback := parse_callback;
               errback := Some handle_error_callback;
               proxy := get_next_proxy |} ;;
      start_loop rest
  end.

Definition start_requests : Run (Spider W) unit :=
  start_loop (START_URLS settings).

End Methods.


(** A request made for a start URL. *)
Definition start_request (settings : Settings) (r : Request) : Prop :=
  callback r = parse_callback /\ errback r = Some handle_error_callback /\
  proxy r = get_next_proxy settings.

End Spider.

(* ===================================================================== *)
(** * More concrete settings, for examples *)
(* ===================================================================== *)

Module PageScenario.

Import Float64 FeatureExtractor ThreatDetectionModel.
Local Open Scope string_scope.

(** A page with no phishing keyword and a two-dimensional embedding. *)
Definition plain_text : TextFeatures :=
  {| bert_embeddings := [[lit 1 10; lit 2 10]];
     suspicious_patterns_found := [];
     named_entities := [];
     text_length := 0;
     sentence_count := 0 |}.

(** The features of a page with two images, fetched from [url]. *)
Definition features_of (url : string) : Features :=
  extract_features (fun _ => plain_text) (fun _ => ["a.png"; "b.png"])
    "<html></html>" url.

(** Features on which no rule fires. *)
Definition quiet : Features :=
  {| text_features := plain_text;
     image_features := {| images := [] |};
     url_features :=
       {| url_length := 9; suspicious_patterns := [];
          contains_ip := false; subdomain_count := -1 |};
     combined_risk_score := of_Z 0 |}.

End PageScenario.

Module ClockScenario.

Import ApiBackend Scenario.

Definition one_second_later : datetime :=
  {| year := 2024; month := 1; day := 1;
     hour := 12; minute := 0; second := 1; microsecond := 0 |}.

(** The clock moves on by one second between two submissions. *)
Definition ticking : Outside :=
  {| clock := [noon; noon; one_second_later];
     unreachable := []; snowflake_up := true; rows := []; delivered := [] |}.

Definition ticked : Outside :=
  {| clock := [one_second_later];
     unreachable := []; snowflake_up := true; rows := []; delivered := [] |}.

End ClockScenario.

Module ConnectorScenario.

Import Py DatabaseConnector.
Local Open Scope string_scope.

(** A database that answers [budget] more calls and fails from then on. *)
Definition answer {A} (a : A) (budget : nat) : (exception + A) * nat :=
  match budget with
  | O => (inl (Exception "DatabaseError" "connection lost"), O)
  | S rest => (inr a, rest)
  end.

#[export] Instance scripted : Driver nat unit string unit := {|
  db_connect := answer tt;
  db_cursor := answer tt;
  db_execute := fun _ _ _ => answer tt;
  db_fetchone := fun _ => answer (Some [7%Z]);
  db_cursor_close := fun _ budget => (inr tt, budget);
  db_read_sql := fun _ _ => answer tt;
  db_conn_close := fun budget => (inr tt, budget);
  db_utcnow := fun budget => (Scenario.noon, budget);
  json_dumps := fun text => inr text
|}.

(** A connected connector whose database answers [budget] more calls. *)
Definition connected (budget : nat) : Connector nat unit :=
  {| outside := budget; has_conn := true; logger := []; journal := [] |}.

End ConnectorScenario.

Module SpiderScenario.

Import Py Spider.
Local Open Scope string_scope.

(** The outside world is the state of the database: up or down. *)
#[export] Instance web : Outside bool string := {|
  utcnow_isoformat := fun up : bool => ("2024-01-01T12:00:00", up);
  random_user_agent := fun up : bool => ("Mozilla/5.0", up);
  css_hrefs := fun _ => inr ["/a"; "/b"];
  urljoin := fun response href => inr (response_url response ++ href);
  request_check := fun url =>
    if String.prefix "http" url then inr tt
    else inl (Exception "ValueError" ("Missing scheme in request url: " ++ url));
  headers_json := fun headers => inr headers;
  snow_cursor := fun up : bool => (inr tt, up);
  snow_execute := fun _ _ (up : bool) =>
    if up then (inr tt, up)
    else (inl (Exception "DatabaseError" "connection lost"), up);
  snow_close := fun up : bool => (inr tt, up)
|}.

Definition settings : Settings :=
  {| START_URLS := ["http://a.example"; "http://b.example"];
     PROXY_LIST := ["proxy-1:8080"; "proxy-2:8080"] |}.

Definition page : Response string :=
  {| response_url := "http://a.example";
     response_text := "<html></html>";
     response_headers := "{}";
     response_status := 200 |}.

Definition at_start (up : bool) : Spider bool :=
  {| world := up; errors := []; yielded := [] |}.

End SpiderScenario.

(* ===================================================================== *)
(** * Rounding in binary64 arithmetic *)
(* ===================================================================== *)

Section Rounding.

Import Float64.
Local Open Scope Z_scope.

Ltac bool_cases :=
  repeat match goal with
         | |- context [?a <=? ?b] => destruct (Z.leb_spec a b)
         | |- context [?a =? ?b] => destruct (Z.eqb_spec a b)
         | H : context [?a <=? ?b] |- _ => destruct (Z.leb_spec a b)
         | H : context [?a =? ?b] |- _ => destruct (Z.eqb_spec a b)
         end.

(** One more bit dropped: the weight doubles. *)
Lemma shr_1_inv (m0 P : Z) (mrs : shr_record) :
  0 < P -> shr_inv m0 P mrs -> shr_inv m0 (2 * P) (shr_1 mrs).
Proof.
  intros HP (rem & Hm & Hrem & Hm0 & Hr & Hs).
  destruct mrs as [m r s]. cbn [shr_m shr_r shr_s] in *.
  destruct m as [| p | p]; [| | lia].
  - exists rem. cbn [shr_1 shr_m shr_r shr_s]. subst r s.
    repeat split; try lia; bool_cases; cbn; try reflexivity; lia.
  - destruct p as [p | p |].
    + exists (P + rem). cbn [shr_1 shr_m shr_r shr_s]. subst r s.
      rewrite (Pos2Z.inj_xI p) in Hm0.
      repeat split; try lia; bool_cases; cbn; try reflexivity; lia.
    + exists rem. cbn [shr_1 shr_m shr_r shr_s]. subst r s.
      rewrite (Pos2Z.inj_xO p) in Hm0.
      repeat split; try lia; bool_cases; cbn; try reflexivity; lia.
    + exists (P + rem). cbn [shr_1 shr_m shr_r shr_s]. subst r s.
      repeat split; try lia; bool_cases; cbn; try reflexivity; lia.
Qed.

(** Dropping [p] bits multiplies the weight by [2^p]. *)
Lemma iter_pos_shr_inv (p : positive) :
  forall (m0 P : Z) (mrs : shr_record),
    0 < P -> shr_inv m0 P mrs ->
    shr_inv m0 (P * 2 ^ Zpos p) (SpecFloat.iter_pos shr_1 p mrs).
Proof.
  induction p as [p IH | p IH |]; intros m0 P mrs HP Hinv; cbn [SpecFloat.iter_pos].
  - replace (P * 2 ^ Zpos p~1) with (2 * P * 2 ^ Zpos p * 2 ^ Zpos p).
    + apply IH; [| apply IH; [lia | apply shr_1_inv; assumption]].
      assert (0 < 2 ^ Zpos p) by (apply Z.pow_pos_nonneg; lia). nia.
    + replace (Zpos p~1) with (Zpos p + Zpos p + 1) by lia.
      rewrite !Z.pow_add_r, Z.pow_1_r by lia. ring.
  - replace (P * 2 ^ Zpos p~0) with (P * 2 ^ Zpos p * 2 ^ Zpos p).
    + apply IH; [| apply IH; assumption].
      assert (0 < 2 ^ Zpos p) by (apply Z.pow_pos_nonneg; lia). nia.
    + replace (Zpos p~0) with (Zpos p + Zpos p) by lia.
      rewrite Z.pow_add_r by lia. ring.
  - replace (P * 2 ^ 1) with (2 * P) by (rewrite Z.pow_1_r; ring).
    apply shr_1_inv; assumption.
Qed.

(** Rounding to nearest, ties to even, from the quotient and the two bits:
    the result is within half the weight of the number rounded, it is
    below that number plus the weight, and a tie rounded up gives an even
    result. *)
Lemma round_nearest_even_spec (m0 P : Z) (mrs : shr_record) :
  0 < P -> shr_inv m0 P mrs ->
  let m1 := round_nearest_even (shr_m mrs) (loc_of_shr_record mrs) in
  shr_m mrs <= m1 /\ 2 * Z.abs (m1 * P - m0) <= P /\ m1 * P < m0 + P /\
  (2 * (m1 * P - m0) = P -> Z.even m1 = true).
Proof.
  intros HP (rem & Hm & Hrem & Hm0 & Hr & Hs).
  destruct mrs as [m r s]. cbn [shr_m shr_r shr_s] in *.
  unfold loc_of_shr_record, round_nearest_even.
  destruct r, s; bool_cases; cbn in Hs; try discriminate;
    try (destruct (Z.even m) eqn:Hev);
    repeat split; try nia; intros Htie;
    try (exfalso; nia).
  rewrite Z.add_1_r, Z.even_succ, <- Z.negb_even, Hev. reflexivity.
Qed.

(** A positive number of [d] binary digits lies in [[2^(d-1), 2^d)]. *)
Lemma digits2_pos_bounds (m : positive) :
  2 ^ (Zpos (digits2_pos m) - 1) <= Zpos m < 2 ^ Zpos (digits2_pos m).
Proof.
  induction m as [m IH | m IH |]; cbn [digits2_pos].
  - rewrite Pos2Z.inj_succ, (Pos2Z.inj_xI m).
    replace (Z.succ (Zpos (digits2_pos m)) - 1) with (Z.succ (Zpos (digits2_pos m) - 1)) by lia.
    rewrite !Z.pow_succ_r by lia. lia.
  - rewrite Pos2Z.inj_succ, (Pos2Z.inj_xO m).
    replace (Z.succ (Zpos (digits2_pos m)) - 1) with (Z.succ (Zpos (digits2_pos m) - 1)) by lia.
    rewrite !Z.pow_succ_r by lia. lia.
  - cbn. lia.
Qed.

Lemma digits2_pos_le (q : positive) (k : Z) :
  0 <= k -> Zpos q < 2 ^ k -> Zpos (digits2_pos q) <= k.
Proof.
  intros Hk Hq.
  destruct (Z.le_gt_cases (Zpos (digits2_pos q)) k) as [Hle | Hgt]; [exact Hle |].
  pose proof (digits2_pos_bounds q) as [Hlo _].
  assert (2 ^ k <= 2 ^ (Zpos (digits2_pos q) - 1))
    by (apply Z.pow_le_mono_r; lia).
  lia.
Qed.

(** What [binary_round_aux] makes of the exact value [m * 2^e] when that
    value is below 2.  Either [m] fits as it stands and nothing changes, or
    [m] is shifted right to the exponent [E] of its binade and rounded to
    the nearest multiple [m1] of [P = 2^(E - e)], ties going to the even
    one. *)
Lemma binary_round_aux_exact (s : bool) (m : positive) (e : Z) :
  Zpos (digits2_pos m) + e <= 1 ->
  let E := binade_exponent m e in
  let P := 2 ^ (E - e) in
  exists q e' : Z,
    binary_round_aux 53 1024 s (Zpos m) e loc_Exact = mk_float s q e' /\
    0 <= q /\
    ((E <= e /\ q = Zpos m /\ e' = e) \/
     (e < E /\ e <= e' /\
      exists m1 : Z,
        q * 2 ^ (e' - e) = m1 * P /\ 0 <= m1 /\
        2 * Z.abs (m1 * P - Zpos m) <= P /\
        m1 * P < Zpos m + P /\
        (2 * (m1 * P - Zpos m) = P -> Z.even m1 = true))).
Proof.
  intros Hmag. cbv zeta.
  pose proof (digits2_pos_bounds m) as [Hdlo Hdhi].
  unfold binade_exponent.
  set (d := Zpos (digits2_pos m)) in *.
  unfold binary_round_aux, shr_fexp, shr, shr_record_of_loc, fexp, emin.
  cbn [Zdigits2]. fold d.
  change (3 - 1024 - 53) with (-1074).
  set (E := Z.max (d + e - 53) (-1074)).
  destruct (E - e) as [| p | p] eqn:Hn.
  - (* no shift *)
    cbn [loc_of_shr_record shr_m round_nearest_even Zdigits2]. fold d.
    fold E. rewrite Hn. cbn [shr_m].
    replace (e <=? 1024 - 53) with true by (symmetry; apply Z.leb_le; lia).
    exists (Zpos m), e. cbn [mk_float].
    repeat split; lia.
  - (* right shift by [p] bits, then rounding *)
    assert (HE : E = e + Zpos p) by lia.
    assert (HEhi : E <= -52) by (unfold E; lia).
    assert (HElo : -1074 <= E) by (unfold E; lia).
    assert (Hinv0 : shr_inv (Zpos m) 1 (Build_shr_record (Zpos m) false false)).
    { exists 0. cbn [shr_m shr_r shr_s]. repeat split; try lia; reflexivity. }
    pose proof (iter_pos_shr_inv p (Zpos m) 1 _ ltac:(lia) Hinv0) as Hinv.
    rewrite Z.mul_1_l in Hinv.
    set (P := 2 ^ Zpos p) in *.
    assert (HP : 0 < P) by (apply Z.pow_pos_nonneg; lia).
    pose proof (round_nearest_even_spec _ _ _ HP Hinv) as (Hge & Herr & Hcap & Htie).
    destruct Hinv as (rem & Hm' & _).
    set (mrs' := SpecFloat.iter_pos shr_1 p (Build_shr_record (Zpos m) false false)) in *.
    cbv beta iota zeta.
    set (m1 := round_nearest_even (shr_m mrs') (loc_of_shr_record mrs')) in *.
    assert (Hd53 : 2 ^ d <= 9007199254740992 * P).
    { change 9007199254740992 with (2 ^ 53). unfold P.
      rewrite <- Z.pow_add_r by lia. apply Z.pow_le_mono_r; unfold E in *; lia. }
    assert (Hm1hi : m1 <= 9007199254740992) by nia.
    rewrite <- HE.
    destruct m1 as [| q | q] eqn:Hm1; [| | lia].
    + cbn [Zdigits2].
      destruct (Z.max (0 + E - 53) (-1074) - E) eqn:Hn2; try lia;
        cbn [shr_m]; exists 0, E; cbn [mk_float];
        (repeat split; [lia |]); right; (repeat split; try lia);
        exists 0; repeat split; try lia; assumption.
    + destruct (Z.eq_dec (Zpos q) 9007199254740992) as [Hq | Hq].
      * injection Hq as ->.
        change (Zdigits2 9007199254740992) with 54.
        replace (Z.max (54 + E - 53) (-1074) - E) with 1 by lia.
        cbn [SpecFloat.iter_pos shr_1 shr_m Z.add Pos.add].
        replace (E + 1 <=? 1024 - 53) with true by (symmetry; apply Z.leb_le; lia).
        exists 4503599627370496, (E + 1). cbn [mk_float].
        repeat split; try lia. right. repeat split; try lia.
        exists 9007199254740992.
        replace (E + 1 - e) with (1 + Zpos p) by lia.
        rewrite Z.pow_add_r by lia. fold P.
        change (2 ^ 1) with 2.
        repeat split; try lia; assumption.
      * pose proof (digits2_pos_le q 53 ltac:(lia)
                      ltac:(change (2 ^ 53) with 9007199254740992; lia)) as Hdq.
        cbn [Zdigits2].
        destruct (Z.max (Zpos (digits2_pos q) + E - 53) (-1074) - E)
          eqn:Hn2; try lia; cbn [shr_m];
          (replace (E <=? 1024 - 53) with true by (symmetry; apply Z.leb_le; lia));
          exists (Zpos q), E; cbn [mk_float];
          (repeat split; [lia |]); right; (repeat split; try lia);
          exists (Zpos q); replace (E - e) with (Zpos p) by lia; fold P;
          repeat split; try lia; assumption.
  - cbn [loc_of_shr_record shr_m round_nearest_even Zdigits2]. fold d.
    fold E. rewrite Hn. cbn [shr_m].
    replace (e <=? 1024 - 53) with true by (symmetry; apply Z.leb_le; lia).
    exists (Zpos m), e. cbn [mk_float].
    repeat split; lia.
Qed.

Local Close Scope Z_scope.
Local Open Scope Q_scope.

Lemma pow2_pos (e : Z) : 0 < pow2 e.
Proof. apply Qpower_0_lt. reflexivity. Qed.

Lemma pow2_add (a b : Z) : pow2 (a + b) == pow2 a * pow2 b.
Proof. apply Qpower_plus. discriminate. Qed.

Lemma pow2_mono (a b : Z) : (a <= b)%Z -> pow2 a <= pow2 b.
Proof. intros Hab. apply Qpower_le_compat_l; [exact Hab | discriminate]. Qed.

Lemma pow2_lt_inv (a b : Z) : pow2 a < pow2 b -> (a < b)%Z.
Proof. intros Hab. eapply Qpower_lt_compat_l_inv; [exact Hab | reflexivity]. Qed.

Lemma pow2_Z (k : Z) : (0 <= k)%Z -> inject_Z (2 ^ k) == pow2 k.
Proof. intros Hk. apply (Zpower_Qpower 2 k Hk). Qed.

Lemma pow2_split (a b : Z) : pow2 a == pow2 (a - b) * pow2 b.
Proof. rewrite <- pow2_add. replace (a - b + b)%Z with a by lia. reflexivity. Qed.

(** Comparing two integers scaled by the same power of two. *)
Lemma scaled_le (a b e : Z) :
  inject_Z a * pow2 e <= inject_Z b * pow2 e <-> (a <= b)%Z.
Proof.
  rewrite Zle_Qle. split; intros Hab.
  - apply (Qmult_le_r _ _ (pow2 e) (pow2_pos e)). exact Hab.
  - apply Qmult_le_compat_r; [exact Hab | apply Qlt_le_weak, pow2_pos].
Qed.

Lemma value_nonneg (x : spec_float) : nonneg x -> 0 <= value x.
Proof.
  destruct x as [s | s | | [|] m e]; cbn; intros Hx; try lra; try contradiction.
  apply Qmult_le_0_compat; [| apply Qlt_le_weak, pow2_pos].
  change 0 with (inject_Z 0). rewrite <- Zle_Qle. lia.
Qed.

Lemma mk_float_value (q e : Z) :
  (0 <= q)%Z -> nonneg (mk_float false q e) /\ value (mk_float false q e) == inject_Z q * pow2 e.
Proof.
  destruct q as [| q | q]; cbn; intros Hq; try lia; split; try exact I; try reflexivity.
Qed.

(** A positive value [m * 2^e] lies in the binade its digit count names. *)
Lemma binade_bounds (m : positive) (e : Z) :
  pow2 (Zpos (digits2_pos m) + e - 1) <= inject_Z (Zpos m) * pow2 e
  /\ inject_Z (Zpos m) * pow2 e < pow2 (Zpos (digits2_pos m) + e).
Proof.
  pose proof (digits2_pos_bounds m) as [Hlo Hhi].
  set (d := Zpos (digits2_pos m)) in *.
  assert (0 < d)%Z by (unfold d; lia).
  split.
  - replace (d + e - 1)%Z with ((d - 1) + e)%Z by lia.
    rewrite pow2_add, <- (pow2_Z (d - 1)) by lia. apply scaled_le. exact Hlo.
  - rewrite pow2_add, <- (pow2_Z d) by lia.
    apply Qmult_lt_compat_r; [apply pow2_pos |].
    rewrite <- Zlt_Qlt. exact Hhi.
Qed.

Lemma binade_below (m : positive) (e c : Z) :
  inject_Z (Zpos m) * pow2 e < pow2 c -> (Zpos (digits2_pos m) + e <= c)%Z.
Proof.
  intros Hx. destruct (binade_bounds m e) as [Hlo _].
  assert (Hlt : pow2 (Zpos (digits2_pos m) + e - 1) < pow2 c)
    by (eapply Qle_lt_trans; eassumption).
  apply pow2_lt_inv in Hlt. lia.
Qed.

Lemma binade_above (m : positive) (e c : Z) :
  pow2 c <= inject_Z (Zpos m) * pow2 e -> (c < Zpos (digits2_pos m) + e)%Z.
Proof.
  intros Hx. destruct (binade_bounds m e) as [_ Hhi].
  apply pow2_lt_inv. eapply Qle_lt_trans; eassumption.
Qed.

(** A valid positive double carries the exponent of its binade. *)
Lemma valid_canonical (mb : positive) (eb : Z) :
  valid (S754_finite false mb eb) -> binade_exponent mb eb = eb.
Proof.
  unfold valid, prec, emax, valid_binary, bounded, canonical_mantissa, fexp, emin, binade_exponent.
  intros Hv. apply andb_prop in Hv as [Hc _]. apply Z.eqb_eq in Hc.
  change (3 - 1024 - 53)%Z with (-1074)%Z in Hc. exact Hc.
Qed.

(** The same in terms of values.  The double obtained from an exact value
    [x] below 2 is within [2^-53] of [x], within [2^-54] when [x] is below
    1; it does not exceed any valid double that [x] does not exceed; and it
    is at most 1 as soon as [x] is at most [1 + 2^-53]. *)
Lemma round_value (m : positive) (e : Z) :
  let x := inject_Z (Zpos m) * pow2 e in
  let r := binary_round_aux 53 1024 false (Zpos m) e loc_Exact in
  x < 2 ->
  nonneg r /\
  x - half_ulp <= value r <= x + half_ulp /\
  (x < 1 -> value r <= x + (1 # 2) * half_ulp) /\
  (forall b, nonneg b -> valid b -> x <= value b -> value r <= value b) /\
  (x <= 1 + half_ulp -> value r <= 1).
Proof.
  intros x r Hx.
  assert (Hmag : (Zpos (digits2_pos m) + e <= 1)%Z)
    by (apply binade_below; exact Hx).
  assert (Hxpos : 0 < x).
  { destruct (binade_bounds m e) as [Hlo _].
    eapply Qlt_le_trans; [apply pow2_pos | exact Hlo]. }
  assert (Hu : half_ulp == 1 # 9007199254740992) by reflexivity.
  destruct (binary_round_aux_exact false m e Hmag)
    as (q & e' & Hr & Hq & Hcase).
  subst r. rewrite Hr.
  destruct (mk_float_value q e' Hq) as [Hnn Hval].
  split; [exact Hnn |].
  destruct Hcase as [(HEe & -> & ->) | (HeE & Hee & m1 & Hq1 & Hm1 & Herr & Hcap & Htie)].
  - (* the value is representable as it stands *)
    fold x in Hval.
    split; [rewrite Hval; lra |].
    split; [intros _; rewrite Hval; lra |].
    split; [intros b _ _ Hb; rewrite Hval; exact Hb |].
    intros Hx1. rewrite Hval.
    destruct (Qlt_le_dec 1 x) as [Hgt | Hle]; [exfalso | exact Hle].
    assert (Hd : (0 < Zpos (digits2_pos m) + e)%Z)
      by (apply binade_above; change (pow2 0) with 1; unfold x in *; lra).
    assert (He52 : (-52 <= e)%Z) by (unfold binade_exponent in HEe; lia).
    assert (HxN : x == inject_Z (Zpos m * 2 ^ (e + 52)) * (1 # 4503599627370496)).
    { unfold x. rewrite (pow2_split e (-52)), inject_Z_mult.
      replace (e - -52)%Z with (e + 52)%Z by lia.
      rewrite pow2_Z by lia. change (pow2 (-52)) with (/ 4503599627370496).
      change (/ 4503599627370496) with (1 # 4503599627370496). ring. }
    set (N := (Zpos m * 2 ^ (e + 52))%Z) in *.
    destruct (Z.le_gt_cases N 4503599627370496) as [HN | HN].
    + rewrite Zle_Qle in HN.
      change (inject_Z 4503599627370496) with (4503599627370496 # 1) in HN. lra.
    + assert (HN' : (4503599627370497 <= N)%Z) by lia.
      rewrite Zle_Qle in HN'.
      change (inject_Z 4503599627370497) with (4503599627370497 # 1) in HN'. lra.
  - (* shifted to the exponent [E] of the binade and rounded *)
    set (E := binade_exponent m e) in *.
    set (P := (2 ^ (E - e))%Z) in *.
    assert (HE52 : (E <= -52)%Z) by (unfold E, binade_exponent; lia).
    set (t := pow2 e) in *. set (g := pow2 E).
    unfold x in *. clear x.
    assert (Ht : 0 < t) by apply pow2_pos.
    assert (Hg : 0 < g) by apply pow2_pos.
    assert (HPt : inject_Z P * t == g).
    { unfold P, t, g. rewrite pow2_Z by lia. symmetry. apply pow2_split. }
    assert (Hvalr : value (mk_float false q e') == inject_Z m1 * g).
    { rewrite Hval, (pow2_split e' e). fold t.
      rewrite <- (pow2_Z (e' - e)) by lia.
      rewrite Qmult_assoc, <- inject_Z_mult, Hq1, inject_Z_mult, <- Qmult_assoc, HPt.
      reflexivity. }
    rewrite Hvalr.
    assert (Hg52 : g <= 2 * half_ulp).
    { unfold g. eapply Qle_trans; [apply (pow2_mono E (-52) HE52) |].
      change (pow2 (-52)) with (/ 4503599627370496). rewrite Hu.
      unfold Qle; cbn; lia. }
    assert (Hup : (2 * (m1 * P) <= P + 2 * Zpos m)%Z) by lia.
    assert (Hdn : (2 * Zpos m <= P + 2 * (m1 * P))%Z) by lia.
    rewrite Zle_Qle in Hup, Hdn.
    rewrite inject_Z_plus, !inject_Z_mult in Hup, Hdn.
    change (inject_Z 2) with 2 in *.
    assert (Hup' : 0 <= (inject_Z P + 2 * inject_Z (Zpos m)
                         - 2 * (inject_Z m1 * inject_Z P)) * t)
      by (apply Qmult_le_0_compat; lra).
    assert (Hdn' : 0 <= (inject_Z P + 2 * (inject_Z m1 * inject_Z P)
                         - 2 * inject_Z (Zpos m)) * t)
      by (apply Qmult_le_0_compat; lra).
    assert (Hm1g : inject_Z m1 * g == inject_Z m1 * inject_Z P * t)
      by (rewrite <- HPt; ring).
    assert (Hcapb : forall b, nonneg b -> valid b ->
                              inject_Z (Zpos m) * t <= value b ->
                              inject_Z m1 * g <= value b).
    { intros b Hb Hv Hxb.
      destruct b as [sb | sb | | [|] mb eb]; try contradiction;
        cbn [value] in *; [lra |].
      pose proof (valid_canonical mb eb Hv) as Hcan.
      destruct (binade_bounds m e) as [Hlo _].
      destruct (binade_bounds mb eb) as [_ Hhi].
      assert (Hdd : (Zpos (digits2_pos m) + e - 1 < Zpos (digits2_pos mb) + eb)%Z).
      { apply pow2_lt_inv. eapply Qle_lt_trans; [exact Hlo |].
        eapply Qle_lt_trans; [exact Hxb | exact Hhi]. }
      assert (HEeb : (E <= eb)%Z) by (unfold E, binade_exponent in *; lia).
      assert (Hvb : inject_Z (Zpos mb) * pow2 eb
                    == inject_Z (Zpos mb * 2 ^ (eb - E) * P) * t).
      { rewrite (pow2_split eb E), !inject_Z_mult, pow2_Z by lia. fold g.
        rewrite <- HPt. ring. }
      rewrite Hvb in Hxb.
      apply scaled_le in Hxb.
      set (T := (Zpos mb * 2 ^ (eb - E))%Z) in *.
      assert (HP : (0 < P)%Z) by (apply Z.pow_pos_nonneg; lia).
      assert (Hlt : (m1 < T + 1)%Z)
        by (apply (Z.mul_lt_mono_pos_r P); [exact HP | lia]).
      rewrite Hvb, inject_Z_mult, <- Qmult_assoc, HPt.
      apply scaled_le. lia. }
    split; [lra |].
    split.
    { intros Hx1.
      assert (Hd : (Zpos (digits2_pos m) + e <= 0)%Z)
        by (apply binade_below; change (pow2 0) with 1; exact Hx1).
      assert (Hg53 : g <= half_ulp).
      { unfold g. eapply Qle_trans;
          [apply (pow2_mono E (-53)); unfold E, binade_exponent; lia |].
        change (pow2 (-53)) with (/ 9007199254740992). rewrite Hu.
        unfold Qle; cbn; lia. }
      lra. }
    split; [intros b Hb Hv Hxb; rewrite Hvalr; apply Hcapb; assumption |].
    intros Hx1.
    destruct (Qlt_le_dec 1 (inject_Z (Zpos m) * t)) as [Hgt | Hle].
    + assert (Hd : (0 < Zpos (digits2_pos m) + e)%Z)
        by (apply binade_above; change (pow2 0) with 1; apply Qlt_le_weak; exact Hgt).
      assert (HE : E = (-52)%Z) by (unfold E, binade_exponent; lia).
      assert (Hgv : g == 1 # 4503599627370496) by (unfold g; rewrite HE; reflexivity).
      assert (HP : (0 < P)%Z) by (apply Z.pow_pos_nonneg; lia).
      assert (HmZ : (2 * Zpos m <= 9007199254740992 * P + P)%Z).
      { apply (scaled_le _ _ e). fold t.
        rewrite inject_Z_plus, !inject_Z_mult.
        change (inject_Z 2) with 2.
        change (inject_Z 9007199254740992) with (9007199254740992 # 1).
        lra. }
      assert (Hm1hi : (m1 <= 4503599627370497)%Z).
      { assert ((2 * m1) * P < 9007199254740995 * P)%Z by lia.
        assert (2 * m1 < 9007199254740995)%Z
          by (apply (Z.mul_lt_mono_pos_r P); assumption).
        lia. }
      assert (Hm1' : (m1 <= 4503599627370496)%Z).
      { destruct (Z.eq_dec m1 4503599627370497%Z) as [-> | Hne]; [| lia].
        assert (Heven : Z.even 4503599627370497%Z = true) by (apply Htie; lia).
        discriminate Heven. }
      rewrite Zle_Qle in Hm1'.
      change (inject_Z 4503599627370496) with (4503599627370496 # 1) in Hm1'.
      rewrite Hgv. lra.
    + assert (Hone : value one == 1) by reflexivity.
      rewrite <- Hone. apply Hcapb; [exact I | reflexivity | rewrite Hone; exact Hle].
Qed.

(** Appending [d] zero bits multiplies by [2^d]. *)
Lemma pos_iter_xO (m d : positive) :
  Zpos (Pos.iter xO m d) = (Zpos m * 2 ^ Zpos d)%Z.
Proof.
  induction d as [| d IH] using Pos.peano_ind.
  - cbn [Pos.iter]. rewrite Z.pow_1_r. lia.
  - rewrite Pos.iter_succ, Pos2Z.inj_succ, Z.pow_succ_r by lia.
    rewrite (Pos2Z.inj_xO (Pos.iter xO m d)), IH. ring.
Qed.

(** [shl_align] changes the representation, not the value. *)
Lemma shl_align_value (mx : positive) (ex ex' : Z) :
  inject_Z (Zpos (fst (shl_align mx ex ex'))) * pow2 (snd (shl_align mx ex ex'))
    == inject_Z (Zpos mx) * pow2 ex /\
  ((ex' <= ex)%Z -> snd (shl_align mx ex ex') = ex').
Proof.
  unfold shl_align.
  destruct (ex' - ex)%Z as [| d | d] eqn:Hd; cbn [fst snd].
  - split; [reflexivity | lia].
  - split; [reflexivity | lia].
  - split; [| reflexivity].
    assert (Hex : pow2 ex == pow2 (Zpos d) * pow2 ex').
    { rewrite <- pow2_add. replace (Zpos d + ex')%Z with ex by lia. reflexivity. }
    rewrite pos_iter_xO, inject_Z_mult, pow2_Z, Hex by lia. ring.
Qed.

(** A product of non-negative doubles whose exact value is below 2. *)
Lemma mul_value (x y : spec_float) :
  nonneg x -> nonneg y -> value x * value y < 2 ->
  nonneg (mul x y) /\
  value x * value y - half_ulp <= value (mul x y) <= value x * value y + half_ulp /\
  (forall b, nonneg b -> valid b -> value x * value y <= value b ->
             value (mul x y) <= value b) /\
  (value x * value y <= 1 + half_ulp -> value (mul x y) <= 1).
Proof.
  unfold mul, prec, emax.
  destruct x as [sx | sx | | [|] mx ex]; try contradiction;
    destruct y as [sy | sy | | [|] my ey]; try contradiction;
    intros _ _ Hlt; cbn [SFmul value nonneg];
    try (split; [exact I |];
         split; [unfold half_ulp; lra |];
         split; [intros b Hb _ _; apply value_nonneg, Hb | intros _; lra]).
  cbn [xorb].
  assert (Hval : inject_Z (Zpos mx) * pow2 ex * (inject_Z (Zpos my) * pow2 ey)
                 == inject_Z (Zpos (mx * my)) * pow2 (ex + ey)).
  { rewrite Pos2Z.inj_mul, inject_Z_mult, pow2_add. ring. }
  cbn [value] in Hlt. rewrite Hval in Hlt.
  destruct (round_value (mx * my) (ex + ey) Hlt) as (Hn & Herr & _ & Hcap & Hslack).
  split; [exact Hn |]. split; [rewrite Hval; exact Herr |].
  split.
  - intros b Hb Hv Hxb. apply Hcap; try assumption. rewrite <- Hval. exact Hxb.
  - intros Hx1. apply Hslack. rewrite <- Hval. exact Hx1.
Qed.

(** A sum of non-negative doubles whose exact value is below 2. *)
Lemma add_value (x y : spec_float) :
  nonneg x -> nonneg y -> value x + value y < 2 ->
  nonneg (add x y) /\
  value x + value y - half_ulp <= value (add x y) <= value x + value y + half_ulp /\
  (value x + value y < 1 ->
   value (add x y) <= value x + value y + (1 # 2) * half_ulp) /\
  (value x <= 1 -> value y <= 1 -> value x + value y <= 1 + half_ulp ->
   value (add x y) <= 1).
Proof.
  unfold add, prec, emax.
  destruct x as [sx | sx | | [|] mx ex]; try contradiction;
    destruct y as [sy | sy | | [|] my ey]; try contradiction;
    intros _ _ Hlt; cbn [SFadd].
  - destruct sx, sy; cbn [value nonneg];
      (split; [exact I | unfold half_ulp; repeat split; intros; lra]).
  - cbn [value nonneg] in *.
    split; [exact I | unfold half_ulp; repeat split; intros; lra].
  - cbn [value nonneg] in *.
    split; [exact I | unfold half_ulp; repeat split; intros; lra].
  - cbn [cond_Zopp value] in *.
    set (ez := Z.min ex ey).
    destruct (shl_align_value mx ex ez) as [Hvx _].
    destruct (shl_align_value my ey ez) as [Hvy _].
    pose proof (proj2 (shl_align_value mx ex ez) ltac:(lia)) as Hex.
    pose proof (proj2 (shl_align_value my ey ez) ltac:(lia)) as Hey.
    rewrite Hex in Hvx. rewrite Hey in Hvy.
    set (ax := fst (shl_align mx ex ez)) in *.
    set (ay := fst (shl_align my ey ez)) in *.
    change (Zpos ax + Zpos ay)%Z with (Zpos (ax + ay)).
    cbn [binary_normalize]. unfold binary_round.
    set (ea := fexp 53 1024 (Zpos (digits2_pos (ax + ay)) + ez)).
    destruct (shl_align_value (ax + ay) ez ea) as [Hvs _].
    destruct (shl_align (ax + ay) ez ea) as [mz ez'] eqn:Hsh. cbn [fst snd] in Hvs.
    assert (Hsum : inject_Z (Zpos mx) * pow2 ex + inject_Z (Zpos my) * pow2 ey
                   == inject_Z (Zpos mz) * pow2 ez').
    { rewrite <- Hvx, <- Hvy, Hvs, Pos2Z.inj_add, inject_Z_plus. ring. }
    rewrite Hsum in Hlt.
    destruct (round_value mz ez' Hlt) as (Hn & Herr & Hhalf & _ & Hslack).
    split; [exact Hn |]. rewrite Hsum.
    split; [exact Herr |]. split; [exact Hhalf |].
    intros _ _. exact Hslack.
Qed.

(** The weighted sum of three scores, as the program computes it, lies
    within five half-units of the exact weighted sum. *)
Lemma weighted_sum_rounding (wt wa wr t a r : spec_float) :
  nonneg wt -> nonneg wa -> nonneg wr -> nonneg t -> nonneg a -> nonneg r ->
  value t <= 1 -> value a <= 1 -> value r <= 1 ->
  value wt + value wa + value wr <= 3 # 2 ->
  let s := add (add (mul wt t) (mul wa a)) (mul wr r) in
  let exact := value wt * value t + value wa * value a + value wr * value r in
  nonneg s /\ exact - 5 * half_ulp <= value s <= exact + 5 * half_ulp.
Proof.
  intros Hwt Hwa Hwr Ht Ha Hr Ht1 Ha1 Hr1 Hsum s exact.
  pose proof (value_nonneg _ Hwt). pose proof (value_nonneg _ Hwa).
  pose proof (value_nonneg _ Hwr). pose proof (value_nonneg _ Ht).
  pose proof (value_nonneg _ Ha). pose proof (value_nonneg _ Hr).
  assert (0 <= value wt * value t) by (apply Qmult_le_0_compat; assumption).
  assert (0 <= value wa * value a) by (apply Qmult_le_0_compat; assumption).
  assert (0 <= value wr * value r) by (apply Qmult_le_0_compat; assumption).
  assert (0 <= value wt * (1 - value t)) by (apply Qmult_le_0_compat; lra).
  assert (0 <= value wa * (1 - value a)) by (apply Qmult_le_0_compat; lra).
  assert (0 <= value wr * (1 - value r)) by (apply Qmult_le_0_compat; lra).
  assert (Hu : half_ulp == 1 # 9007199254740992) by reflexivity.
  destruct (mul_value wt t Hwt Ht ltac:(lra)) as (Hn1 & Hp1 & _).
  destruct (mul_value wa a Hwa Ha ltac:(lra)) as (Hn2 & Hp2 & _).
  destruct (mul_value wr r Hwr Hr ltac:(lra)) as (Hn3 & Hp3 & _).
  destruct (add_value _ _ Hn1 Hn2 ltac:(lra)) as (Hn4 & Hs1 & _).
  destruct (add_value _ _ Hn4 Hn3 ltac:(lra)) as (Hn5 & Hs2 & _).
  split; [exact Hn5 |]. unfold s, exact. lra.
Qed.

(** With valid weights of total at most 1 the computed sum does not leave
    the unit interval: no rounding step can push it above 1.  The total may
    even exceed 1 by a quarter unit in the last place, [2^-54], as the
    doubles of decimal weights such as 0.4, 0.4, 0.2 do. *)
Lemma weighted_sum_in_unit (wt wa wr t a r : spec_float) :
  nonneg wt -> nonneg wa -> nonneg wr -> valid wt -> valid wa -> valid wr ->
  nonneg t -> nonneg a -> nonneg r ->
  value t <= 1 -> value a <= 1 -> value r <= 1 ->
  value wt + value wa + value wr <= 1 + (1 # 2) * half_ulp ->
  let s := add (add (mul wt t) (mul wa a)) (mul wr r) in
  nonneg s /\ 0 <= value s <= 1.
Proof.
  intros Hwt Hwa Hwr Vwt Vwa Vwr Ht Ha Hr Ht1 Ha1 Hr1 Hsum s.
  pose proof (value_nonneg _ Hwt). pose proof (value_nonneg _ Hwa).
  pose proof (value_nonneg _ Hwr). pose proof (value_nonneg _ Ht).
  pose proof (value_nonneg _ Ha). pose proof (value_nonneg _ Hr).
  assert (0 <= value wt * value t) by (apply Qmult_le_0_compat; assumption).
  assert (0 <= value wa * value a) by (apply Qmult_le_0_compat; assumption).
  assert (0 <= value wr * value r) by (apply Qmult_le_0_compat; assumption).
  assert (0 <= value wt * (1 - value t)) by (apply Qmult_le_0_compat; lra).
  assert (0 <= value wa * (1 - value a)) by (apply Qmult_le_0_compat; lra).
  assert (0 <= value wr * (1 - value r)) by (apply Qmult_le_0_compat; lra).
  assert (Hu : half_ulp == 1 # 9007199254740992) by reflexivity.
  destruct (mul_value wt t Hwt Ht ltac:(lra)) as (Hn1 & _ & Hc1 & Hl1).
  destruct (mul_value wa a Hwa Ha ltac:(lra)) as (Hn2 & _ & Hc2 & Hl2).
  destruct (mul_value wr r Hwr Hr ltac:(lra)) as (Hn3 & _ & Hc3 & Hl3).
  specialize (Hc1 wt Hwt Vwt ltac:(lra)). specialize (Hl1 ltac:(lra)).
  specialize (Hc2 wa Hwa Vwa ltac:(lra)). specialize (Hl2 ltac:(lra)).
  specialize (Hc3 wr Hwr Vwr ltac:(lra)). specialize (Hl3 ltac:(lra)).
  pose proof (value_nonneg _ Hn1). pose proof (value_nonneg _ Hn2).
  pose proof (value_nonneg _ Hn3).
  destruct (add_value _ _ Hn1 Hn2 ltac:(lra)) as (Hn4 & _ & Hh1 & Hk1).
  specialize (Hk1 Hl1 Hl2 ltac:(lra)).
  pose proof (value_nonneg _ Hn4).
  assert (Hle : value (add (mul wt t) (mul wa a)) + value (mul wr r)
                <= 1 + half_ulp).
  { destruct (Qlt_le_dec (value (mul wt t) + value (mul wa a)) 1) as [Hlt | Hge].
    - specialize (Hh1 Hlt). lra.
    - lra. }
  destruct (add_value _ _ Hn4 Hn3 ltac:(lra)) as (Hn5 & _ & _ & Hk2).
  specialize (Hk2 Hk1 Hl3 Hle).
  split; [exact Hn5 |]. split; [apply value_nonneg, Hn5 | exact Hk2].
Qed.

End Rounding.

(* ===================================================================== *)
(** * Properties of the fusion engine *)
(* ===================================================================== *)

Section FusionFacts.

Import Float64 ThreatDetection.

(** ** Comparison of doubles *)

Lemma SFltb_finite_pos (m mc : positive) (e ec : Z) :
  SFltb (S754_finite false m e) (S754_finite false mc ec) = true
  <-> (e < ec \/ (e = ec /\ (m < mc)%positive))%Z.
Proof.
  unfold SFltb, SFcompare.
  destruct (Z.compare_spec e ec) as [-> | Hlt | Hgt].
  - change (Pos.compare_cont Eq m mc) with (Pos.compare m mc).
    destruct (Pos.compare_spec m mc) as [-> | Hm | Hm]; split;
      intros; try discriminate; try reflexivity; try lia.
  - split; intros; [left; assumption | reflexivity].
  - split; intros; [discriminate | lia].
Qed.

Lemma SFleb_finite_pos (m mc : positive) (e ec : Z) :
  SFleb (S754_finite false mc ec) (S754_finite false m e) = true
  <-> (ec < e \/ (e = ec /\ (mc <= m)%positive))%Z.
Proof.
  unfold SFleb, SFcompare.
  destruct (Z.compare_spec ec e) as [<- | Hlt | Hgt].
  - change (Pos.compare_cont Eq mc m) with (Pos.compare mc m).
    destruct (Pos.compare_spec mc m) as [-> | Hm | Hm]; split;
      intros; try discriminate; try reflexivity; try lia.
  - split; intros; [left; assumption | reflexivity].
  - split; intros; [discriminate | lia].
Qed.

Lemma lit_2_10 : lit 2 10 = S754_finite false 7205759403792794 (-55).
Proof. vm_compute. reflexivity. Qed.

Lemma lit_5_10 : lit 5 10 = S754_finite false 4503599627370496 (-53).
Proof. vm_compute. reflexivity. Qed.

Lemma lit_8_10 : lit 8 10 = S754_finite false 7205759403792794 (-53).
Proof. vm_compute. reflexivity. Qed.

(** A double at or above a positive finite constant is not below a
    smaller-or-equal positive finite constant. *)
Lemma SFleb_SFltb_false (mc mc' : positive) (ec ec' : Z) (s : float64) :
  (ec' < ec \/ (ec' = ec /\ (mc' <= mc)%positive))%Z ->
  SFleb (S754_finite false mc ec) s = true ->
  SFltb s (S754_finite false mc' ec') = false.
Proof.
  intros Hc Hle.
  destruct s as [sg | sg | | sg m e].
  - discriminate Hle.
  - destruct sg; [discriminate Hle | reflexivity].
  - discriminate Hle.
  - destruct sg; [discriminate Hle |].
    apply SFleb_finite_pos in Hle.
    destruct (SFltb (S754_finite false m e) (S754_finite false mc' ec')) eqn:Hlt;
      [| reflexivity].
    apply SFltb_finite_pos in Hlt. lia.
Qed.

(** ** Threat levels *)

(** C6. For every double [s], [get_threat_level] maps [s < 0.2] to LOW,
    [0.2 <= s < 0.5] to MEDIUM, [0.5 <= s < 0.8] to HIGH and [s >= 0.8] to
    CRITICAL, the comparisons being Python's on doubles; the boundary 0.2
    is MEDIUM and the boundary 0.8 is CRITICAL. *)
Theorem get_threat_level_thresholds (s : float64) :
  (ltb s (lit 2 10) = true -> get_threat_level s = LOW) /\
  (leb (lit 2 10) s = true -> ltb s (lit 5 10) = true ->
     get_threat_level s = MEDIUM) /\
  (leb (lit 5 10) s = true -> ltb s (lit 8 10) = true ->
     get_threat_level s = HIGH) /\
  (leb (lit 8 10) s = true -> get_threat_level s = CRITICAL) /\
  get_threat_level (lit 2 10) = MEDIUM /\
  get_threat_level (lit 8 10) = CRITICAL.
Proof.
  assert (below : forall mc ec mc' ec',
             (ec' < ec \/ (ec' = ec /\ (mc' <= mc)%positive))%Z ->
             SFleb (S754_finite false mc ec) s = true ->
             SFltb s (S754_finite false mc' ec') = false)
    by (intros; eapply SFleb_SFltb_false; eassumption).
  repeat apply conj.
  5, 6: vm_compute; reflexivity.
  all: unfold get_threat_level; cbn [num_ltb num_lit float64_num];
    rewrite ?lit_2_10, ?lit_5_10, ?lit_8_10; unfold ltb, leb.
  - intros ->. reflexivity.
  - intros Hge ->.
    rewrite (fun pf => below _ _ 7205759403792794%positive (-55)%Z pf Hge) by lia.
    reflexivity.
  - intros Hge ->.
    rewrite (fun pf => below _ _ 7205759403792794%positive (-55)%Z pf Hge) by lia.
    rewrite (fun pf => below _ _ 4503599627370496%positive (-53)%Z pf Hge) by lia.
    reflexivity.
  - intros Hge.
    rewrite (fun pf => below _ _ 7205759403792794%positive (-55)%Z pf Hge) by lia.
    rewrite (fun pf => below _ _ 4503599627370496%positive (-53)%Z pf Hge) by lia.
    rewrite (fun pf => below _ _ 7205759403792794%positive (-53)%Z pf Hge) by lia.
    reflexivity.
Qed.

(** ** Confidence *)

(** C1, evaluated on the code.  When the three component scores are all
    zero (of either sign), the mean is zero and [std_dev / mean] is the
    NumPy quotient [0.0 / 0.0]: the confidence [predict_threat] returns is
    NaN, whatever the weights; it does not compare equal to 1.0. *)
Theorem predict_threat_confidence_all_zero
    (cfg : WeightConfig float64) (sig : SignalSet float64) :
  is_zero (text_score sig) = true ->
  is_zero (anomaly_score sig) = true ->
  is_zero (rule_based_score sig) = true ->
  confidence (predict_threat cfg sig) = S754_nan /\
  SFeqb (confidence (predict_threat cfg sig)) (of_Z 1) = false.
Proof.
  destruct sig as [t a r]; cbn [text_score anomaly_score rule_based_score].
  unfold predict_threat; cbn [confidence text_score anomaly_score rule_based_score].
  destruct t as [st | | |]; try discriminate.
  destruct a as [sa | | |]; try discriminate.
  destruct r as [sr | | |]; try discriminate.
  intros _ _ _.
  destruct st, sa, sr; vm_compute; split; reflexivity.
Qed.

Lemma predict_threat_confidence_all_zero_witness :
  confidence
    (predict_threat
       {| w_text := lit 5 10; w_anomaly := lit 3 10; w_rules := lit 2 10 |}
       {| text_score := of_Z 0; anomaly_score := of_Z 0;
          rule_based_score := of_Z 0 |}) = S754_nan.
Proof.
  apply (predict_threat_confidence_all_zero
           {| w_text := lit 5 10; w_anomaly := lit 3 10; w_rules := lit 2 10 |}
           {| text_score := of_Z 0; anomaly_score := of_Z 0;
              rule_based_score := of_Z 0 |});
    reflexivity.
Defined.

(** ** The fused score *)

(** On doubles, [spec_clamp01] leaves a value of the unit interval alone. *)
Lemma spec_clamp01_in_unit (x : float64) :
  in_unit x = true -> spec_clamp01 x = x.
Proof.
  unfold in_unit, spec_clamp01, leb, ltb, SFleb, SFltb.
  intros Hx. apply andb_prop in Hx as [H0 H1].
  replace (of_Z 0) with (S754_zero false) in * by reflexivity.
  replace (of_Z 1) with (S754_finite false 4503599627370496 (-52)) in *
    by (vm_compute; reflexivity).
  destruct x as [sx | sx | | sx m e]; cbn [SFcompare] in *;
    try discriminate; try reflexivity.
  - destruct sx; discriminate.
  - destruct sx; [discriminate H0 |].
    destruct (Z.compare_spec e (-52)) as [-> | He | He]; try discriminate.
    + rewrite Z.compare_refl.
      pose proof (Pos.compare_cont_antisym m 4503599627370496%positive Eq) as Hsym.
      cbn [CompOpp] in Hsym. rewrite <- Hsym.
      destruct (Pos.compare_cont Eq m 4503599627370496%positive);
        try discriminate; reflexivity.
    + rewrite (proj2 (Z.compare_gt_iff _ _)) by lia. reflexivity.
Qed.

(** Exact arithmetic: a weighted sum of values of the unit interval under
    non-negative weights of total at most one stays in the unit interval. *)
Lemma final_score_Q_bounds (cfg : WeightConfig Q) (sig : SignalSet Q) :
  (0 <= text_score sig <= 1 -> 0 <= anomaly_score sig <= 1 ->
   0 <= rule_based_score sig <= 1 ->
   0 <= w_text cfg -> 0 <= w_anomaly cfg -> 0 <= w_rules cfg ->
   w_text cfg + w_anomaly cfg + w_rules cfg <= 1 ->
   0 <= final_score cfg sig <= 1)%Q.
Proof.
  destruct cfg as [wt wa wr], sig as [t a r].
  unfold final_score;
    cbn [num_add num_mul Q_num w_text w_anomaly w_rules
         text_score anomaly_score rule_based_score].
  intros [Ht0 Ht1] [Ha0 Ha1] [Hr0 Hr1] Hwt Hwa Hwr Hsum.
  assert (0 <= wt * t)%Q by (apply Qmult_le_0_compat; assumption).
  assert (0 <= wa * a)%Q by (apply Qmult_le_0_compat; assumption).
  assert (0 <= wr * r)%Q by (apply Qmult_le_0_compat; assumption).
  assert (0 <= wt * (1 - t))%Q by (apply Qmult_le_0_compat; lra).
  assert (0 <= wa * (1 - a))%Q by (apply Qmult_le_0_compat; lra).
  assert (0 <= wr * (1 - r))%Q by (apply Qmult_le_0_compat; lra).
  split; lra.
Qed.

(** C2, refuted as stated.  With the weights [{1.0, 1.0, 1.0}] and the
    three component scores equal to 1.0 (all in [[0,1]]),
    [predict_threat] returns the score 3.0: it is above 1 and it is not
    the clamped weighted sum, which is 1.0. *)
Lemma predict_threat_score_exceeds_one :
  let cfg := {| w_text := of_Z 1; w_anomaly := of_Z 1; w_rules := of_Z 1 |} in
  let sig := {| text_score := of_Z 1; anomaly_score := of_Z 1;
                rule_based_score := of_Z 1 |} in
  in_unit (text_score sig) = true /\
  in_unit (anomaly_score sig) = true /\
  in_unit (rule_based_score sig) = true /\
  threat_score (predict_threat cfg sig) = of_Z 3 /\
  spec_clamp01 (final_score cfg sig) = of_Z 1 /\
  threat_score (predict_threat cfg sig) <> spec_clamp01 (final_score cfg sig) /\
  in_unit (threat_score (predict_threat cfg sig)) = false.
Proof. vm_compute. repeat split; try reflexivity. discriminate. Qed.

(** On doubles, the score of [predict_threat] spelled out. *)
Lemma threat_score_unfold (cfg : WeightConfig float64) (sig : SignalSet float64) :
  threat_score (predict_threat cfg sig)
  = add (add (mul (w_text cfg) (text_score sig))
             (mul (w_anomaly cfg) (anomaly_score sig)))
        (mul (w_rules cfg) (rule_based_score sig)).
Proof. reflexivity. Qed.

(** C2, amended.  The score [predict_threat] returns is the weighted sum
    itself, computed in binary64, with no clamp.  When the component scores
    lie in [[0,1]] and the weights are non-negative doubles of total at most
    1 (or above 1 by no more than [2^-54], as the doubles of decimal weights
    can be), that score lies in [[0,1]]: no rounding step takes it out.  And
    whenever the sum lies in [[0,1]] it is what the clamp would return. *)
Theorem predict_threat_score_weighted_sum :
  (forall (cfg : WeightConfig float64) (sig : SignalSet float64),
     threat_score (predict_threat cfg sig)
     = add (add (mul (w_text cfg) (text_score sig))
                (mul (w_anomaly cfg) (anomaly_score sig)))
           (mul (w_rules cfg) (rule_based_score sig))) /\
  (forall (cfg : WeightConfig float64) (sig : SignalSet float64),
     nonneg (text_score sig) -> nonneg (anomaly_score sig) ->
     nonneg (rule_based_score sig) ->
     (value (text_score sig) <= 1)%Q -> (value (anomaly_score sig) <= 1)%Q ->
     (value (rule_based_score sig) <= 1)%Q ->
     nonneg (w_text cfg) -> nonneg (w_anomaly cfg) -> nonneg (w_rules cfg) ->
     valid (w_text cfg) -> valid (w_anomaly cfg) -> valid (w_rules cfg) ->
     (value (w_text cfg) + value (w_anomaly cfg) + value (w_rules cfg)
      <= 1 + (1 # 2) * half_ulp)%Q ->
     nonneg (threat_score (predict_threat cfg sig)) /\
     (0 <= value (threat_score (predict_threat cfg sig)) <= 1)%Q) /\
  (forall (cfg : WeightConfig float64) (sig : SignalSet float64),
     in_unit (final_score cfg sig) = true ->
     threat_score (predict_threat cfg sig) = spec_clamp01 (final_score cfg sig)).
Proof.
  split; [| split].
  - exact threat_score_unfold.
  - intros cfg sig Ht Ha Hr Ht1 Ha1 Hr1 Hwt Hwa Hwr Vwt Vwa Vwr Hsum.
    rewrite threat_score_unfold.
    apply weighted_sum_in_unit; assumption.
  - intros cfg sig Hin. cbn [predict_threat threat_score].
    symmetry. apply spec_clamp01_in_unit. exact Hin.
Qed.

Lemma predict_threat_score_weighted_sum_witness :
  let cfg := {| w_text := lit 4 10; w_anomaly := lit 4 10; w_rules := lit 2 10 |} in
  let sig := {| text_score := lit 8 10; anomaly_score := lit 4 10;
                rule_based_score := lit 1 10 |} in
  (0 <= value (threat_score (predict_threat cfg sig)) <= 1)%Q.
Proof.
  cbv zeta.
  apply (proj1 (proj2 predict_threat_score_weighted_sum));
    cbn [text_score anomaly_score rule_based_score w_text w_anomaly w_rules];
    try (vm_compute; exact I);
    try (vm_compute; reflexivity);
    try (vm_compute; discriminate).
Defined.

(** Exact arithmetic: equal components under weights of total 1. *)
Lemma final_score_Q_equal_components (cfg : WeightConfig Q) (v : Q) :
  (w_text cfg + w_anomaly cfg + w_rules cfg == 1 ->
   final_score cfg
     {| text_score := v; anomaly_score := v; rule_based_score := v |} == v)%Q.
Proof.
  destruct cfg as [wt wa wr].
  unfold final_score;
    cbn [num_add num_mul Q_num w_text w_anomaly w_rules
         text_score anomaly_score rule_based_score].
  intros Hsum.
  assert (Hfactor : (wt * v + wa * v + wr * v == (wt + wa + wr) * v)%Q) by ring.
  rewrite Hfactor, Hsum. ring.
Qed.

(** C7.  When the three component scores all equal [v] in [[0,1]] and the
    weights are non-negative and sum to 1, the fused score is [v] whatever
    the distribution of the weights: exactly so in exact arithmetic, and on
    doubles within five half-units in the last place, [5 * 2^-53], to which
    adds the amount [delta] by which the doubles chosen as weights miss a
    total of exactly 1. *)
Theorem final_score_equal_components :
  (forall (cfg : WeightConfig Q) (v : Q),
     0 <= v <= 1 ->
     0 <= w_text cfg -> 0 <= w_anomaly cfg -> 0 <= w_rules cfg ->
     w_text cfg + w_anomaly cfg + w_rules cfg == 1 ->
     final_score cfg
       {| text_score := v; anomaly_score := v; rule_based_score := v |} == v)%Q /\
  (forall (cfg : WeightConfig float64) (v : float64) (delta : Q),
     nonneg v -> (value v <= 1)%Q ->
     nonneg (w_text cfg) -> nonneg (w_anomaly cfg) -> nonneg (w_rules cfg) ->
     (0 <= delta <= 1 # 2)%Q ->
     (1 - delta
      <= value (w_text cfg) + value (w_anomaly cfg) + value (w_rules cfg)
      <= 1 + delta)%Q ->
     let s :=
       threat_score
         (predict_threat cfg
            {| text_score := v; anomaly_score := v; rule_based_score := v |}) in
     nonneg s /\
     (value v - (5 * half_ulp + delta) <= value s
      <= value v + (5 * half_ulp + delta))%Q).
Proof.
  split.
  - intros cfg v _ _ _ _ Hsum. apply final_score_Q_equal_components. exact Hsum.
  - intros cfg v delta Hv Hv1 Hwt Hwa Hwr Hdelta Hsum s. subst s.
    rewrite threat_score_unfold.
    cbn [text_score anomaly_score rule_based_score].
    destruct (weighted_sum_rounding (w_text cfg) (w_anomaly cfg) (w_rules cfg)
                v v v Hwt Hwa Hwr Hv Hv Hv Hv1 Hv1 Hv1)
      as [Hn Hs]; [lra |].
    split; [exact Hn |].
    pose proof (value_nonneg _ Hv) as Hv0.
    set (a := value v) in *.
    set (wt := value (w_text cfg)) in *.
    set (wa := value (w_anomaly cfg)) in *.
    set (wr := value (w_rules cfg)) in *.
    assert (0 <= (wt + wa + wr - 1 + delta) * a)%Q
      by (apply Qmult_le_0_compat; lra).
    assert (0 <= (1 + delta - (wt + wa + wr)) * a)%Q
      by (apply Qmult_le_0_compat; lra).
    assert (0 <= delta * (1 - a))%Q by (apply Qmult_le_0_compat; lra).
    lra.
Qed.

Lemma final_score_equal_components_witness :
  let cfg := {| w_text := lit 4 10; w_anomaly := lit 4 10; w_rules := lit 2 10 |} in
  let v := lit 7 10 in
  (value v - (5 * half_ulp + half_ulp)
   <= value (threat_score
               (predict_threat cfg
                  {| text_score := v; anomaly_score := v; rule_based_score := v |}))
   <= value v + (5 * half_ulp + half_ulp))%Q.
Proof.
  cbv zeta.
  apply (proj2 final_score_equal_components);
    cbn [w_text w_anomaly w_rules];
    try (vm_compute; exact I);
    try (vm_compute; reflexivity);
    try (vm_compute; split; discriminate);
    try (vm_compute; discriminate).
Defined.

End FusionFacts.


(* ===================================================================== *)
(** * Properties of the request handlers *)
(* ===================================================================== *)

Section PipelineFacts.

Import Float64 ThreatDetection ApiBackend.
Local Open Scope py_scope.

Context {E Features : Type} `{Collaborators E Features}.

(** Unfolds the monad and splits on every outcome a collaborator can have. *)
Ltac run_step :=
  match goal with
  | |- context [match ?x with _ => _ end] =>
      lazymatch x with
      | context [match _ with _ => _ end] => fail
      | _ => destruct x eqn:?
      end
  end.

Ltac run :=
  unfold bind, lift, ret, raise, try_except, try_finally, call, logging_error, emit;
  cbn beta iota;
  repeat (run_step; cbn beta iota);
  cbn [env log jobs background_tasks trace
       set_env add_log put_job set_tasks add_event].

(** ** What a call leaves untouched *)

(** Only the outside state and the log change during [analyze_url]; the
    log only grows; a failure is always an [HTTPException] of status 500
    and a success is about the URL asked for. *)
Lemma analyze_url_frame (url : string) (w : World E) :
  match analyze_url url w with
  | (r, w') =>
      jobs w' = jobs w /\
      background_tasks w' = background_tasks w /\
      trace w' = trace w /\
      match r with
      | inr result => resp_url result = url /\ log w' = log w
      | inl e =>
          exists cause,
            e = HTTPException 500 (str_exn cause) /\
            log w' = (log w ++ [error_analyzing url cause])%list
      end
  end.
Proof.
  unfold analyze_url, store_analysis_results, threat_detector_predict_threat.
  run; repeat split; try reflexivity; eauto.
Qed.

(** A callback delivery never raises and touches neither the job store,
    nor the task queue, nor the trace. *)
Lemma deliver_frame (attempts : nat) (callback_url job_id : string)
    (results : list entry) (w : World E) :
  exists w',
    deliver attempts callback_url job_id results w = (inr tt, w') /\
    jobs w' = jobs w /\
    background_tasks w' = background_tasks w /\
    trace w' = trace w.
Proof.
  revert w. induction attempts as [| n IH]; intros w; cbn [deliver].
  - eexists. unfold logging_error. repeat split.
  - unfold try_except, call.
    destruct (http_post callback_url job_id results (env w)) as [[e | []] e'].
    + destruct (IH (set_env e' w)) as (w' & -> & Hj & Hb & Ht).
      exists w'. repeat split; assumption.
    + eexists. repeat split.
Qed.

(** One bracketed analysis of the batch loop: it adds exactly its own two
    events to the trace. *)
Lemma in_flight_analyze_url (url : string) (w : World E) :
  match in_flight url (analyze_url url) w with
  | (r, w1) =>
      jobs w1 = jobs w /\
      background_tasks w1 = background_tasks w /\
      trace w1 = (trace w ++ [Started url; Finished url])%list /\
      match r with
      | inr result => resp_url result = url
      | inl e => exists cause, e = HTTPException 500 (str_exn cause)
      end
  end.
Proof.
  unfold in_flight, bind, emit, try_finally.
  pose proof (analyze_url_frame url (add_event (Started url) w)) as Hf.
  destruct (analyze_url url (add_event (Started url) w)) as [r w1].
  destruct Hf as (Hj & Hb & Ht & Hr).
  cbn [jobs background_tasks trace add_event] in *.
  rewrite Ht, <- app_assoc. repeat split; try assumption.
  destruct r as [e | result].
  - destruct Hr as (cause & -> & _). eauto.
  - apply Hr.
Qed.

(** ** The batch loop *)

Lemma batch_loop_cons (url : string) (rest : list string)
    (results : list entry) (w : World E) :
  batch_loop (url :: rest) results w =
  let '(r, w1) := in_flight url (analyze_url url) w in
  match r with
  | inr result => batch_loop rest (results ++ [Verdict result]) w1
  | inl e =>
      batch_loop rest (results ++ [ErrorRecord url (str_exn e)])
        (add_log (error_processing url e) w1)
  end.
Proof.
  cbn [batch_loop]. unfold bind at 1. unfold try_except, bind, ret, logging_error.
  destruct (in_flight url (analyze_url url) w) as [[e | result] w1]; reflexivity.
Qed.

Lemma batch_outcomes_length (urls : list string) (w : World E) :
  length (batch_outcomes urls w) = length urls.
Proof.
  revert w. induction urls as [| url rest IH]; intros w; cbn [batch_outcomes].
  - reflexivity.
  - destruct (in_flight url (analyze_url url) w) as [r w1].
    cbn [length]. f_equal. apply IH.
Qed.

(** The loop never raises.  It returns the list it was given followed by
    one element per URL, in order, and it leaves the job store and the
    task queue alone. *)
Lemma batch_loop_spec (urls : list string) (results : list entry) (w : World E) :
  exists w',
    batch_loop urls results w =
      (inr (results ++ zip_with entry_of urls (batch_outcomes urls w)), w') /\
    jobs w' = jobs w /\
    background_tasks w' = background_tasks w /\
    trace w' = (trace w ++ sequential_trace urls)%list.
Proof.
  revert results w. induction urls as [| url rest IH]; intros results w.
  - exists w. cbn. rewrite !app_nil_r. repeat split.
  - rewrite batch_loop_cons. cbn [batch_outcomes].
    pose proof (in_flight_analyze_url url w) as Hf.
    destruct (in_flight url (analyze_url url) w) as [r w1].
    destruct Hf as (Hj & Hb & Ht & _).
    destruct r as [e | result].
    + destruct (IH (results ++ [ErrorRecord url (str_exn e)])
                  (add_log (error_processing url e) w1))
        as (w' & -> & Hj' & Hb' & Ht').
      exists w'. cbn [zip_with entry_of]. rewrite <- app_assoc.
      cbn [jobs background_tasks trace add_log] in *.
      repeat split; try congruence.
      rewrite Ht', Ht, <- app_assoc. reflexivity.
    + destruct (IH (results ++ [Verdict result]) w1)
        as (w' & -> & Hj' & Hb' & Ht').
      exists w'. cbn [zip_with entry_of]. rewrite <- app_assoc.
      repeat split; try congruence.
      rewrite Ht', Ht, <- app_assoc. reflexivity.
Qed.

(** Each element of the result is about the URL at its position. *)
Lemma batch_entries_urls (urls : list string) (w : World E) :
  map entry_url (zip_with entry_of urls (batch_outcomes urls w)) = urls.
Proof.
  revert w. induction urls as [| url rest IH]; intros w; cbn [batch_outcomes].
  - reflexivity.
  - pose proof (in_flight_analyze_url url w) as Hf.
    destruct (in_flight url (analyze_url url) w) as [r w1].
    destruct Hf as (_ & _ & _ & Hr).
    cbn [zip_with map]. rewrite IH. f_equal.
    destruct r as [e | result]; [reflexivity | exact Hr].
Qed.

(** Processing [done ++ todo] is processing [done], then [todo] from where
    that left off. *)
Lemma batch_loop_app (done todo : list string) (results : list entry)
    (w : World E) :
  batch_loop (done ++ todo) results w =
  bind (batch_loop done results) (batch_loop todo) w.
Proof.
  revert results w. induction done as [| url rest IH]; intros results w.
  - reflexivity.
  - cbn [app]. rewrite batch_loop_cons. unfold bind at 1.
    rewrite batch_loop_cons.
    destruct (in_flight url (analyze_url url) w) as [[e | result] w1];
      rewrite IH; reflexivity.
Qed.

(** ** Single-URL analysis *)

(** What [store_analysis_results] does, call by call. *)
Lemma store_analysis_results_run (url : string) (features : Features)
    (analysis : ThreatAnalysis) (w : World E) :
  store_analysis_results url features analysis w =
    match conn_cursor (env w) with
    | (inl cause, e3) => (inl cause, set_env e3 w)
    | (inr _, e3) =>
        let '(body, e4) :=
          match json_dumps_features features with
          | inl cause => (inl cause, e3)
          | inr features_json =>
              match json_dumps_analysis analysis with
              | inl cause => (inl cause, e3)
              | inr analysis_json =>
                  cursor_execute
                    {| row_url := url; row_features := features_json;
                       row_analysis := analysis_json;
                       row_timestamp := fst (utcnow e3) |} (snd (utcnow e3))
              end
          end in
        let '(closed, e5) := cursor_close e4 in
        (match closed with
         | inl cause => inl cause
         | inr _ => body
         end, set_env e5 w)
    end.
Proof.
  unfold store_analysis_results, bind, lift, ret, raise, try_finally, call.
  destruct (conn_cursor (env w)) as [[c | []] e3]; [reflexivity |].
  cbn [env set_env].
  destruct (json_dumps_features features) as [c1 | features_json].
  { cbn [env set_env]. destruct (cursor_close e3) as [[c | []] e5]; reflexivity. }
  destruct (json_dumps_analysis analysis) as [c2 | analysis_json].
  { cbn [env set_env]. destruct (cursor_close e3) as [[c | []] e5]; reflexivity. }
  cbn beta iota zeta delta [env set_env].
  destruct (utcnow e3) as [now e3']. cbn beta iota zeta delta [env set_env fst snd].
  destruct (cursor_execute _ e3') as [body e4].
  cbn beta iota zeta delta [env set_env].
  destruct (cursor_close e4) as [[c | []] e5]; destruct body as [c' | []];
    reflexivity.
Qed.

(** [analyze_url] once the page is fetched, its features are extracted
    and the detectors have answered: the outcome of the persistence step
    decides. *)
Lemma analyze_url_run (url : string) (w : World E)
    (response : CrawlResponse) (features : Features)
    (sig : SignalSet float64) (e1 e2 : E) :
  crawl_single_url url (env w) = (inr response, e1) ->
  extract_features (text response) url e1 = (inr features, e2) ->
  detectors features = inr sig ->
  analyze_url url w =
    match store_analysis_results url features (predict_threat weights sig)
            (set_env e2 w) with
    | (inl cause, w1) =>
        (inl (HTTPException 500 (str_exn cause)),
         add_log (error_analyzing url cause) w1)
    | (inr _, w1) =>
        (inr {| resp_url := url;
                resp_timestamp := fst (utcnow (env w1));
                resp_threat_score := threat_score (predict_threat weights sig);
                resp_threat_level := threat_level (predict_threat weights sig);
                resp_confidence := confidence (predict_threat weights sig);
                resp_details := component_scores (predict_threat weights sig) |},
         set_env (snd (utcnow (env w1))) w1)
    end.
Proof.
  intros Hcrawl Hextract Hdetect.
  unfold analyze_url, threat_detector_predict_threat.
  unfold bind, ret, raise, try_except, call, logging_error.
  rewrite Hcrawl. cbn [env set_env]. rewrite Hextract. cbn [env set_env].
  rewrite Hdetect.
  change (set_env e2 (set_env e1 w)) with (set_env e2 w).
  destruct (store_analysis_results url features (predict_threat weights sig)
              (set_env e2 w)) as [[cause | []] w1]; [reflexivity |].
  cbn beta iota zeta delta [env set_env].
  destruct (utcnow (env w1)) as [later e]. reflexivity.
Qed.

(** C3, amended.  When the page is fetched, its features are extracted
    and the detectors answer, a failure of the persistence step makes
    [analyze_url] fail, whichever call of [store_analysis_results] raises:
    opening the cursor, [json.dumps] on the features or on the analysis,
    the INSERT, or closing the cursor.  The error is logged and then
    propagated to the caller as an [HTTPException] of status 500 whose
    detail is the text of the error; no verdict is returned.  A cursor that
    could not be opened is not closed; one that was opened is closed
    whatever the [try] block did, and an error of [close()] replaces the
    error of the [try] block, if any.  Only when every call of the
    persistence step succeeds does the analysis return a verdict. *)
Theorem analyze_url_store_failure_propagates
    (url : string) (w : World E)
    (response : CrawlResponse) (features : Features)
    (sig : SignalSet float64) (e1 e2 : E) :
  crawl_single_url url (env w) = (inr response, e1) ->
  extract_features (text response) url e1 = (inr features, e2) ->
  detectors features = inr sig ->
  let analysis := predict_threat weights sig in
  let fails (cause : exn) (e : E) :=
    analyze_url url w =
      (inl (HTTPException 500 (str_exn cause)),
       add_log (error_analyzing url cause) (set_env e w)) in
  (forall cause e3, conn_cursor e2 = (inl cause, e3) -> fails cause e3) /\
  (forall e3 body e4 closed e5,
     conn_cursor e2 = (inr tt, e3) ->
     match json_dumps_features features with
     | inl cause => body = inl cause /\ e4 = e3
     | inr features_json =>
         match json_dumps_analysis analysis with
         | inl cause => body = inl cause /\ e4 = e3
         | inr analysis_json =>
             cursor_execute
               {| row_url := url; row_features := features_json;
                  row_analysis := analysis_json;
                  row_timestamp := fst (utcnow e3) |} (snd (utcnow e3))
             = (body, e4)
         end
     end ->
     cursor_close e4 = (closed, e5) ->
     match closed, body with
     | inl cause, _ => fails cause e5
     | inr _, inl cause => fails cause e5
     | inr _, inr _ =>
         exists verdict,
           fst (analyze_url url w) = inr verdict /\
           log (snd (analyze_url url w)) = log w
     end).
Proof.
  intros Hcrawl Hextract Hdetect analysis fails. subst fails. cbv beta.
  rewrite (analyze_url_run url w response features sig e1 e2 Hcrawl Hextract Hdetect).
  fold analysis. rewrite store_analysis_results_run. cbn [env set_env].
  split.
  - intros cause e3 Hopen. rewrite Hopen. reflexivity.
  - intros e3 body e4 closed e5 Hopen Hbody Hclose. rewrite Hopen.
    assert (Hrun :
      match json_dumps_features features with
      | inl cause => (inl cause, e3)
      | inr features_json =>
          match json_dumps_analysis analysis with
          | inl cause => (inl cause, e3)
          | inr analysis_json =>
              cursor_execute
                {| row_url := url; row_features := features_json;
                   row_analysis := analysis_json;
                   row_timestamp := fst (utcnow e3) |} (snd (utcnow e3))
          end
      end = (body, e4)).
    { destruct (json_dumps_features features) as [c1 | features_json];
        [destruct Hbody as [-> ->]; reflexivity |].
      destruct (json_dumps_analysis analysis) as [c2 | analysis_json];
        [destruct Hbody as [-> ->]; reflexivity | exact Hbody]. }
    rewrite Hrun, Hclose.
    destruct closed as [c | []]; [reflexivity |].
    destruct body as [c | []]; [reflexivity |].
    eexists. split; reflexivity.
Qed.

(** ** Batch jobs *)

Lemma process_url_batch_unfold (urls : list string) (job_id : string)
    (callback_url : option string) (w : World E) :
  exists w1,
    batch_loop urls [] w =
      (inr (zip_with entry_of urls (batch_outcomes urls w)), w1) /\
    jobs w1 = jobs w /\
    trace w1 = (trace w ++ sequential_trace urls)%list /\
    process_url_batch urls job_id callback_url w =
      match callback_url with
      | Some cb =>
          send_callback cb job_id
            (zip_with entry_of urls (batch_outcomes urls w))
      | None => ret tt
      end (put_job job_id (zip_with entry_of urls (batch_outcomes urls w)) w1).
Proof.
  destruct (batch_loop_spec urls [] w) as (w1 & Hloop & Hj & _ & Ht).
  cbn [app] in Hloop.
  exists w1. repeat split; try assumption.
  unfold process_url_batch, bind at 1. rewrite Hloop.
  unfold bind, store_batch_results. reflexivity.
Qed.

(** After [process_url_batch] the job store holds the results under the
    job id. *)
Lemma process_url_batch_stores (urls : list string) (job_id : string)
    (callback_url : option string) (w : World E) :
  exists w',
    process_url_batch urls job_id callback_url w = (inr tt, w') /\
    jobs w' !! job_id = Some (zip_with entry_of urls (batch_outcomes urls w)) /\
    trace w' = trace w ++ sequential_trace urls.
Proof.
  destruct (process_url_batch_unfold urls job_id callback_url w)
    as (w1 & _ & _ & Ht & ->).
  assert (Hstored :
    jobs (put_job job_id (zip_with entry_of urls (batch_outcomes urls w)) w1)
      !! job_id = Some (zip_with entry_of urls (batch_outcomes urls w)))
    by (cbn [jobs put_job]; apply lookup_insert_eq).
  destruct callback_url as [cb |].
  - destruct (deliver_frame 3 cb job_id
                (zip_with entry_of urls (batch_outcomes urls w))
                (put_job job_id
                   (zip_with entry_of urls (batch_outcomes urls w)) w1))
      as (w' & Hrun & Hj & _ & Ht').
    exists w'. unfold send_callback. rewrite Hj, Ht'.
    repeat split; assumption.
  - eexists. repeat split; [exact Hstored | exact Ht].
Qed.

(** C4.  [process_url_batch] never raises, whatever the analyses do.  The
    results stored under the job id hold, for every submitted URL in
    order, the response of its analysis when that succeeded and the
    record [{url, error}] when it failed; every URL is analysed, once and
    in order, those after a failing one included. *)
Theorem process_url_batch_never_aborts (urls : list string) (job_id : string)
    (callback_url : option string) (w : World E) :
  exists w',
    process_url_batch urls job_id callback_url w = (inr tt, w') /\
    jobs w' !! job_id = Some (zip_with entry_of urls (batch_outcomes urls w)) /\
    trace w' = trace w ++ sequential_trace urls /\
    length (batch_outcomes urls w) = length urls /\
    Forall2
      (fun url e =>
         entry_url e = url /\
         (is_error e = true -> exists error, e = ErrorRecord url error))
      urls (zip_with entry_of urls (batch_outcomes urls w)).
Proof.
  destruct (process_url_batch_stores urls job_id callback_url w)
    as (w' & Hrun & Hjob & Htrace).
  exists w'. repeat apply conj; try assumption.
  - apply batch_outcomes_length.
  - clear. revert w. induction urls as [| url rest IH]; intros w.
    + constructor.
    + cbn [batch_outcomes].
      pose proof (in_flight_analyze_url url w) as Hf.
      destruct (in_flight url (analyze_url url) w) as [r w1].
      destruct Hf as (_ & _ & _ & Hr).
      cbn [zip_with]. constructor; [| apply IH].
      destruct r as [e | result]; cbn [entry_of entry_url is_error].
      * split; [reflexivity | eauto].
      * split; [exact Hr | discriminate].
Qed.

(** C5.  When the loop of [process_url_batch] is over, [results] has
    exactly one element per submitted URL, the element at each position
    being about the URL at that position, and it is this list that is
    stored and handed to the callback.  While the loop runs the list only
    grows: what it holds after some of the URLs is a prefix of what it
    holds after more of them, one element longer for each URL done. *)
Theorem batch_results_one_per_url (urls : list string) (job_id : string)
    (callback_url : option string) (w : World E) :
  (exists results w1,
     batch_loop urls [] w = (inr results, w1) /\
     length results = length urls /\
     map entry_url results = urls /\
     process_url_batch urls job_id callback_url w =
       match callback_url with
       | Some cb => send_callback cb job_id results
       | None => ret tt
       end (put_job job_id results w1)) /\
  (forall (done todo : list string) (acc : list entry) (w0 : World E),
     done ++ todo = urls ->
     exists mid w1 fin w2,
       batch_loop done acc w0 = (inr mid, w1) /\
       batch_loop (done ++ todo) acc w0 = (inr fin, w2) /\
       acc `prefix_of` mid /\ mid `prefix_of` fin /\
       length mid = length acc + length done /\
       length fin = length mid + length todo).
Proof.
  split.
  - destruct (process_url_batch_unfold urls job_id callback_url w)
      as (w1 & Hloop & _ & _ & Hrun).
    exists (zip_with entry_of urls (batch_outcomes urls w)), w1.
    repeat split; try assumption.
    + rewrite length_zip_with, batch_outcomes_length. lia.
    + apply batch_entries_urls.
  - intros done todo acc w0 _.
    destruct (batch_loop_spec done acc w0) as (w1 & Hdone & _).
    destruct (batch_loop_spec todo
                (acc ++ zip_with entry_of done (batch_outcomes done w0)) w1)
      as (w2 & Htodo & _).
    eexists _, w1, _, w2.
    split; [exact Hdone |].
    split; [rewrite batch_loop_app; unfold bind; rewrite Hdone; exact Htodo |].
    split; [eexists; reflexivity |].
    split; [eexists; reflexivity |].
    rewrite !length_app, !length_zip_with, !batch_outcomes_length. lia.
Qed.

(** ** Order of execution *)

Lemma peak_in_flight_sequential (urls : list string) :
  peak_in_flight (sequential_trace urls) 0 =
  match urls with [] => 0 | _ :: _ => 1 end.
Proof.
  induction urls as [| url rest IH].
  - reflexivity.
  - cbn [sequential_trace flat_map app peak_in_flight Nat.pred].
    fold (sequential_trace rest). rewrite IH.
    destruct rest; reflexivity.
Qed.

(** C9, amended.  [process_url_batch] analyses the URLs strictly one at a
    time, in the order submitted: each analysis is finished before the
    next is started, so at most one is in flight at any moment, and there
    is no limit to configure. *)
Theorem process_url_batch_one_at_a_time (urls : list string) (job_id : string)
    (callback_url : option string) (w : World E) :
  trace (snd (process_url_batch urls job_id callback_url w)) =
    trace w ++ sequential_trace urls /\
  peak_in_flight (sequential_trace urls) 0 =
    match urls with [] => 0 | _ :: _ => 1 end.
Proof.
  split; [| apply peak_in_flight_sequential].
  destruct (process_url_batch_stores urls job_id callback_url w)
    as (w' & Hrun & _ & Htrace).
  rewrite Hrun. exact Htrace.
Qed.

(** ** Job lookup *)

(** C10.  [get_batch_results] answers 404 "Job not found" exactly when
    nothing or an empty list is stored under the job id; a non-empty
    stored list is returned as it is.  In particular the job of a batch of
    zero URLs, though processed and stored, is reported as not found,
    while the job of a batch of at least one URL is found. *)
Theorem get_batch_results_not_found_iff (job_id : string) (w : World E) :
  (fst (get_batch_results job_id w) = inl (HTTPException 404 "Job not found")
   <-> jobs w !! job_id = None \/ jobs w !! job_id = Some []) /\
  (forall result results,
     jobs w !! job_id = Some (result :: results) ->
     get_batch_results job_id w = (inr (Some (result :: results)), w)) /\
  (forall callback_url,
     fst (get_batch_results job_id
            (snd (process_url_batch [] job_id callback_url w)))
     = inl (HTTPException 404 "Job not found")) /\
  (forall url rest callback_url,
     exists result results,
       fst (get_batch_results job_id
              (snd (process_url_batch (url :: rest) job_id callback_url w)))
       = inr (Some (result :: results)) /\
       length (result :: results) = length (url :: rest)).
Proof.
  assert (Hget : forall w0 : World E,
    fst (get_batch_results job_id w0) =
    match jobs w0 !! job_id with
    | Some (result :: results) => inr (Some (result :: results))
    | _ => inl (HTTPException 404 "Job not found")
    end).
  { intros w0. unfold get_batch_results, load_batch_results, bind, raise, ret.
    destruct (jobs w0 !! job_id) as [[| result results] |]; reflexivity. }
  repeat apply conj.
  - rewrite Hget.
    destruct (jobs w !! job_id) as [[| result results] |]; intros; auto.
    discriminate.
  - rewrite Hget.
    destruct (jobs w !! job_id) as [[| result results] |];
      intros [? | ?]; try discriminate; reflexivity.
  - intros result results Hjob.
    unfold get_batch_results, load_batch_results, bind, raise, ret.
    rewrite Hjob. reflexivity.
  - intros callback_url.
    destruct (process_url_batch_stores [] job_id callback_url w)
      as (w' & Hrun & Hjob & _).
    rewrite Hrun, Hget. cbn [snd]. rewrite Hjob. reflexivity.
  - intros url rest callback_url.
    destruct (process_url_batch_stores (url :: rest) job_id
                callback_url w) as (w' & Hrun & Hjob & _).
    rewrite Hrun, Hget. cbn [snd]. rewrite Hjob.
    pose proof (batch_outcomes_length (url :: rest) w) as Hlen.
    destruct (batch_outcomes (url :: rest) w) as [| r rs] eqn:Hout;
      [discriminate Hlen |].
    cbn [zip_with]. eexists _, _. split; [reflexivity |].
    cbn [length] in *. rewrite length_zip_with. lia.
Qed.

(** ** Job identifiers *)

(** C8, evaluated on the code.  [generate_job_id] is a function of its two
    clock readings alone.  When two invocations read instants that format
    to the same second and hash to the same value (at the latest when the
    clock gives the same reading four times), they return the same job
    id. *)
Theorem generate_job_id_collision
    (w : World E) (t1 t2 t3 t4 : datetime) (e1 e2 e3 e4 : E) :
  utcnow (env w) = (t1, e1) ->
  utcnow e1 = (t2, e2) ->
  utcnow e2 = (t3, e3) ->
  utcnow e3 = (t4, e4) ->
  strftime_job t1 = strftime_job t3 ->
  hash_datetime t2 = hash_datetime t4 ->
  exists job_id w1 w2,
    generate_job_id w = (inr job_id, w1) /\
    generate_job_id w1 = (inr job_id, w2).
Proof.
  intros H1 H2 H3 H4 Hfmt Hhash.
  exists (strftime_job t1 ++ str_int (hash_datetime t2))%string,
    (set_env e2 w), (set_env e4 w).
  unfold generate_job_id, bind, ret, call. cbn [env set_env].
  rewrite H1. cbn [env set_env]. rewrite H2. cbn [env set_env].
  rewrite H3. cbn [env set_env]. rewrite H4. cbn [env set_env].
  rewrite Hfmt, Hhash. split; reflexivity.
Qed.

End PipelineFacts.

(* ===================================================================== *)
(** * Doubles of any magnitude: validity, sign and order *)
(* ===================================================================== *)

Section Grid.

Import Float64 PyFloat.
Local Open Scope Z_scope.

(** What [binary_round_aux] makes of [m * 2^e], whatever its magnitude.
    [E] is the exponent of the doubles of the binade of [m * 2^e].  When
    [E <= e] the mantissa is kept; otherwise it is shifted right to the
    exponent [E] and rounded to a multiple [m1] of [P = 2^(E - e)]. *)
Lemma binary_round_aux_shape (s : bool) (m : positive) (e : Z) :
  let d := Zpos (digits2_pos m) in
  let E := Z.max (d + e - 53) (-1074) in
  (E <= e ->
   binary_round_aux 53 1024 s (Zpos m) e loc_Exact =
     if e <=? 971 then S754_finite s m e else S754_infinity s) /\
  (e < E ->
   exists m1 : Z,
     0 <= m1 <= 9007199254740992 /\
     (E = d + e - 53 -> 4503599627370496 <= m1) /\
     2 * Z.abs (m1 * 2 ^ (E - e) - Zpos m) <= 2 ^ (E - e) /\
     binary_round_aux 53 1024 s (Zpos m) e loc_Exact =
       if m1 =? 9007199254740992
       then (if E + 1 <=? 971
             then S754_finite s 4503599627370496 (E + 1)
             else S754_infinity s)
       else match m1 with
            | Zpos q => if E <=? 971 then S754_finite s q E else S754_infinity s
            | _ => S754_zero s
            end).
Proof.
  cbv zeta.
  pose proof (digits2_pos_bounds m) as [Hdlo Hdhi].
  set (d := Zpos (digits2_pos m)) in *.
  unfold binary_round_aux, shr_fexp, shr, shr_record_of_loc, fexp, emin.
  cbn [Zdigits2]. fold d.
  change (3 - 1024 - 53) with (-1074).
  change (1024 - 53) with 971.
  set (E := Z.max (d + e - 53) (-1074)).
  split.
  - intros Hle.
    destruct (E - e) as [| p | p] eqn:Hn; try lia;
      cbn [loc_of_shr_record shr_m round_nearest_even Zdigits2]; fold d; fold E;
      rewrite Hn; cbn [shr_m]; reflexivity.
  - intros Hlt.
    destruct (E - e) as [| p | p] eqn:Hn; try lia.
    assert (HE : E = e + Zpos p) by lia.
    assert (HElo : -1074 <= E) by (unfold E; lia).
    assert (Hinv0 : shr_inv (Zpos m) 1 (Build_shr_record (Zpos m) false false)).
    { exists 0. cbn [shr_m shr_r shr_s]. repeat split; try lia; reflexivity. }
    pose proof (iter_pos_shr_inv p (Zpos m) 1 _ ltac:(lia) Hinv0) as Hinv.
    rewrite Z.mul_1_l in Hinv.
    set (P := 2 ^ Zpos p) in *.
    assert (HP : 0 < P) by (apply Z.pow_pos_nonneg; lia).
    pose proof (round_nearest_even_spec _ _ _ HP Hinv) as (Hge & Herr & Hcap & Htie).
    destruct Hinv as (rem & Hm' & Hrem & Hm0 & _).
    set (mrs' := SpecFloat.iter_pos shr_1 p (Build_shr_record (Zpos m) false false)) in *.
    cbv beta iota zeta.
    set (m1 := round_nearest_even (shr_m mrs') (loc_of_shr_record mrs')) in *.
    assert (Hd53 : 2 ^ d <= 9007199254740992 * P).
    { change 9007199254740992 with (2 ^ 53). unfold P.
      rewrite <- Z.pow_add_r by lia. apply Z.pow_le_mono_r; unfold E in *; lia. }
    assert (Hm1hi : m1 <= 9007199254740992) by nia.
    assert (Hm1lo : E = d + e - 53 -> 4503599627370496 <= m1).
    { intros HEd.
      assert (HPd : 4503599627370496 * P = 2 ^ (d - 1)).
      { change 4503599627370496 with (2 ^ 52). unfold P.
        rewrite <- Z.pow_add_r by lia. f_equal. lia. }
      assert (4503599627370496 <= shr_m mrs') by nia.
      lia. }
    rewrite <- HE.
    exists m1. split; [lia |]. split; [exact Hm1lo |]. split; [exact Herr |].
    destruct m1 as [| q | q] eqn:Hm1; [| | lia].
    + cbn [Zdigits2 Z.eqb].
      destruct (Z.max (0 + E - 53) (-1074) - E) eqn:Hn2; try lia;
        cbn [shr_m]; reflexivity.
    + destruct (Z.eq_dec (Zpos q) 9007199254740992) as [Hq | Hq].
      * injection Hq as ->.
        change (Zdigits2 9007199254740992) with 54.
        replace (Z.max (54 + E - 53) (-1074) - E) with 1 by lia.
        cbn [SpecFloat.iter_pos shr_1 shr_m Z.add Pos.add].
        rewrite Z.eqb_refl. reflexivity.
      * pose proof (digits2_pos_le q 53 ltac:(lia)
                      ltac:(change (2 ^ 53) with 9007199254740992; lia)) as Hdq.
        cbn [Zdigits2].
        replace (Zpos q =? 9007199254740992) with false
          by (symmetry; apply Z.eqb_neq; exact Hq).
        destruct (Z.max (Zpos (digits2_pos q) + E - 53) (-1074) - E)
          eqn:Hn2; try lia; cbn [shr_m]; reflexivity.
Qed.


Lemma digits2_pos_ge (q : positive) (k : Z) :
  2 ^ (k - 1) <= Zpos q -> k <= Zpos (digits2_pos q).
Proof.
  intros Hq.
  destruct (Z.le_gt_cases k (Zpos (digits2_pos q))) as [Hle | Hgt]; [exact Hle |].
  pose proof (digits2_pos_bounds q) as [_ Hhi].
  assert (2 ^ Zpos (digits2_pos q) <= 2 ^ (k - 1))
    by (apply Z.pow_le_mono_r; lia).
  lia.
Qed.

Lemma digits2_pos_iter_xO (m d : positive) :
  Zpos (digits2_pos (Pos.iter xO m d)) = Zpos (digits2_pos m) + Zpos d.
Proof.
  induction d as [| d IH] using Pos.peano_ind.
  - cbn [Pos.iter digits2_pos]. lia.
  - rewrite Pos.iter_succ. cbn [digits2_pos]. lia.
Qed.

(** Validity of a finite double, spelled out: the exponent is the one of
    the binade of the mantissa, and it is not above [emax - prec]. *)
Lemma valid_finite (s : bool) (q : positive) (e : Z) :
  valid (S754_finite s q e) <->
  Z.max (Zpos (digits2_pos q) + e - 53) (-1074) = e /\ e <= 971.
Proof.
  unfold valid, prec, emax, valid_binary, bounded, canonical_mantissa, fexp, emin.
  change (3 - 1024 - 53) with (-1074). change (1024 - 53) with 971.
  rewrite andb_true_iff, Z.eqb_eq, Z.leb_le. reflexivity.
Qed.

(** Rounding yields a double as the hardware stores it, provided the
    mantissa given does not need to be shifted left. *)
Lemma binary_round_aux_valid (s : bool) (m : positive) (e : Z) :
  e <= Z.max (Zpos (digits2_pos m) + e - 53) (-1074) ->
  valid (binary_round_aux 53 1024 s (Zpos m) e loc_Exact).
Proof.
  intros He.
  destruct (binary_round_aux_shape s m e) as [Hkeep Hshift].
  set (E := Z.max (Zpos (digits2_pos m) + e - 53) (-1074)) in *.
  destruct (Z.eq_dec E e) as [Heq | Hne].
  - rewrite Hkeep by lia.
    destruct (e <=? 971) eqn:Hb; [| reflexivity].
    apply valid_finite. apply Z.leb_le in Hb. fold E. lia.
  - destruct Hshift as (m1 & Hm1 & Hlo & _ & ->); [lia |].
    destruct (m1 =? 9007199254740992) eqn:Htop.
    + destruct (E + 1 <=? 971) eqn:Hb; [| reflexivity].
      apply valid_finite. apply Z.leb_le in Hb.
      change (Zpos (digits2_pos 4503599627370496)) with 53.
      unfold E in *. lia.
    + apply Z.eqb_neq in Htop.
      destruct m1 as [| q | q]; try reflexivity.
      destruct (E <=? 971) eqn:Hb; [| reflexivity].
      apply valid_finite. apply Z.leb_le in Hb. split; [| exact Hb].
      assert (Hq53 : Zpos (digits2_pos q) <= 53)
        by (apply digits2_pos_le;
            [lia | change (2 ^ 53) with 9007199254740992; lia]).
      destruct (Z.eq_dec E (-1074)) as [Hsub | Hnorm].
      * lia.
      * assert (Hq : Zpos (digits2_pos q) = 53).
        { apply Z.le_antisymm; [exact Hq53 |].
          apply digits2_pos_ge.
          change (2 ^ (53 - 1)) with 4503599627370496.
          apply Hlo. unfold E in *. lia. }
        unfold E in *. lia.
Qed.

(** The sign and the kind of a rounded positive value: never NaN. *)
Lemma binary_round_aux_sign (s : bool) (m : positive) (e : Z) :
  let r := binary_round_aux 53 1024 s (Zpos m) e loc_Exact in
  r = S754_zero s \/ r = S754_infinity s \/ exists q e', r = S754_finite s q e'.
Proof.
  cbv zeta.
  destruct (binary_round_aux_shape s m e) as [Hkeep Hshift].
  set (E := Z.max (Zpos (digits2_pos m) + e - 53) (-1074)) in *.
  destruct (Z.le_gt_cases E e) as [Hle | Hgt].
  - rewrite Hkeep by exact Hle. destruct (e <=? 971); eauto.
  - destruct Hshift as (m1 & _ & _ & _ & ->); [lia |].
    destruct (m1 =? 9007199254740992).
    + destruct (E + 1 <=? 971); eauto.
    + destruct m1; eauto. destruct (E <=? 971); eauto.
Qed.

(** A value at or above the smallest subnormal does not round to zero. *)
Lemma binary_round_aux_positive (s : bool) (m : positive) (e : Z) :
  -1074 <= e ->
  binary_round_aux 53 1024 s (Zpos m) e loc_Exact <> S754_zero s.
Proof.
  intros He.
  destruct (binary_round_aux_shape s m e) as [Hkeep Hshift].
  set (E := Z.max (Zpos (digits2_pos m) + e - 53) (-1074)) in *.
  destruct (Z.le_gt_cases E e) as [Hle | Hgt].
  - rewrite Hkeep by exact Hle. destruct (e <=? 971); discriminate.
  - destruct Hshift as (m1 & _ & Hlo & _ & ->); [lia |].
    destruct (m1 =? 9007199254740992).
    + destruct (E + 1 <=? 971); discriminate.
    + assert (4503599627370496 <= m1) by (apply Hlo; unfold E in *; lia).
      destruct m1; try lia. destruct (E <=? 971); discriminate.
Qed.

(** [binary_round] first brings the mantissa to the exponent of its binade
    when it sits above it; what it returns is always valid. *)
Lemma binary_round_unfold (s : bool) (m : positive) (e : Z) :
  exists (mz : positive) (ez : Z),
    binary_round 53 1024 s m e = binary_round_aux 53 1024 s (Zpos mz) ez loc_Exact /\
    ez <= Z.max (Zpos (digits2_pos mz) + ez - 53) (-1074) /\
    (-1074 <= e -> -1074 <= ez).
Proof.
  unfold binary_round, shl_align, fexp, emin.
  change (3 - 1024 - 53) with (-1074).
  set (E := Z.max (Zpos (digits2_pos m) + e - 53) (-1074)).
  destruct (E - e) as [| d | d] eqn:Hd.
  - exists m, e. repeat split; [fold E; lia | lia].
  - exists m, e. repeat split; [fold E; lia | lia].
  - exists (Pos.iter xO m d), E. split; [reflexivity |].
    rewrite digits2_pos_iter_xO. unfold E. split; lia.
Qed.

Lemma binary_round_valid (s : bool) (m : positive) (e : Z) :
  valid (binary_round 53 1024 s m e).
Proof.
  destruct (binary_round_unfold s m e) as (mz & ez & -> & Hez & _).
  apply binary_round_aux_valid. exact Hez.
Qed.

Lemma of_Z_valid (z : Z) : valid (of_Z z).
Proof.
  unfold of_Z, binary_normalize, prec, emax.
  destruct z; [reflexivity | apply binary_round_valid | apply binary_round_valid].
Qed.

Lemma add_valid (x y : float64) : valid x -> valid y -> valid (add x y).
Proof.
  unfold add, prec, emax.
  destruct x as [sx | sx | | sx mx ex], y as [sy | sy | | sy my ey];
    intros Hx Hy; cbn [SFadd]; try reflexivity; try assumption.
  - destruct sx, sy; reflexivity.
  - destruct sx, sy; reflexivity.
  - unfold binary_normalize.
    destruct (cond_Zopp sx (Zpos (fst (shl_align mx ex (Z.min ex ey))))
              + cond_Zopp sy (Zpos (fst (shl_align my ey (Z.min ex ey)))));
      [reflexivity | apply binary_round_valid | apply binary_round_valid].
Qed.

(** ** Doubles that are at least zero *)

Lemma ge_zero_cases (x : float64) :
  ge_zero x = true <->
  (exists s, x = S754_zero s) \/ x = S754_infinity false \/
  (exists m e, x = S754_finite false m e).
Proof.
  unfold ge_zero, leb, SFleb. change (of_Z 0) with (S754_zero false).
  destruct x as [s | [|] | | [|] m e]; cbn [SFcompare]; split;
    try discriminate; try reflexivity; eauto;
    intros [[? ?] | [? | (? & ? & ?)]]; discriminate.
Qed.

Lemma gt_zero_cases (x : float64) :
  gt_zero x = true <->
  x = S754_infinity false \/ (exists m e, x = S754_finite false m e).
Proof.
  unfold gt_zero, ltb, SFltb. change (of_Z 0) with (S754_zero false).
  destruct x as [s | [|] | | [|] m e]; cbn [SFcompare]; split;
    try discriminate; try reflexivity; eauto;
    intros [? | (? & ? & ?)]; discriminate.
Qed.

Lemma gt_zero_ge_zero (x : float64) : gt_zero x = true -> ge_zero x = true.
Proof.
  rewrite gt_zero_cases, ge_zero_cases. intros [-> | H]; eauto.
Qed.

(** The sum of two aligned positive mantissas, rounded. *)
Lemma add_finite_pos (mx my : positive) (ex ey : Z) :
  exists m : positive,
    add (S754_finite false mx ex) (S754_finite false my ey) =
    binary_round 53 1024 false m (Z.min ex ey).
Proof.
  unfold add, prec, emax. cbn [SFadd cond_Zopp].
  eexists. cbn [Z.add binary_normalize]. reflexivity.
Qed.

Lemma add_ge_zero (x y : float64) :
  ge_zero x = true -> ge_zero y = true -> ge_zero (add x y) = true.
Proof.
  rewrite !ge_zero_cases.
  intros [[sx ->] | [-> | (mx & ex & ->)]] [[sy ->] | [-> | (my & ey & ->)]];
    try (unfold add; cbn [SFadd]; eauto; fail).
  - unfold add; cbn [SFadd]. destruct sx, sy; eauto.
  - destruct (add_finite_pos mx my ex ey) as (m & ->).
    destruct (binary_round_unfold false m (Z.min ex ey)) as (mz & ez & -> & _).
    destruct (binary_round_aux_sign false mz ez) as [-> | [-> | (q & e' & ->)]]; eauto.
Qed.

(** Adding a positive double to one that is at least zero gives a positive
    double: on valid doubles a sum of positive terms does not underflow. *)
Lemma add_gt_zero (x y : float64) :
  valid x -> valid y ->
  ge_zero x = true -> gt_zero y = true -> gt_zero (add x y) = true.
Proof.
  intros Vx Vy. rewrite ge_zero_cases, !gt_zero_cases.
  intros [[sx ->] | [-> | (mx & ex & ->)]] [-> | (my & ey & ->)];
    try (unfold add; cbn [SFadd]; eauto; fail).
  apply valid_finite in Vx, Vy.
  destruct (add_finite_pos mx my ex ey) as (m & ->).
  destruct (binary_round_unfold false m (Z.min ex ey)) as (mz & ez & -> & _ & Hez).
  pose proof (binary_round_aux_positive false mz ez ltac:(lia)) as Hnz.
  destruct (binary_round_aux_sign false mz ez) as [Hr | [-> | (q & e' & ->)]]; eauto.
  contradiction.
Qed.

(** On valid doubles that are at least zero, not being above [1.0] in
    Python's comparison means denoting a rational that is at most 1. *)
Lemma not_above_one_value (x : float64) :
  valid x -> ge_zero x = true -> ltb (of_Z 1) x = false ->
  nonneg x /\ (value x <= 1)%Q.
Proof.
  intros Vx Hx Hcmp. apply ge_zero_cases in Hx.
  destruct Hx as [[s ->] | [-> | (m & e & ->)]].
  - split; [exact I |]. cbn. discriminate.
  - discriminate Hcmp.
  - split; [exact I |].
    apply valid_finite in Vx. destruct Vx as [Hcan _].
    replace (of_Z 1) with (S754_finite false 4503599627370496 (-52)) in Hcmp
      by (vm_compute; reflexivity).
    assert (Hle : e < -52 \/ (e = -52 /\ Zpos m <= 4503599627370496)).
    { destruct (Z.lt_trichotomy e (-52)) as [Hlt | [Heq | Hgt]].
      - left; exact Hlt.
      - right. split; [exact Heq |].
        destruct (Z.le_gt_cases (Zpos m) 4503599627370496) as [Hm | Hm]; [exact Hm |].
        exfalso. apply not_true_iff_false in Hcmp. apply Hcmp.
        apply (proj2 (SFltb_finite_pos 4503599627370496 m (-52) e)). right.
        split; lia.
      - exfalso. apply not_true_iff_false in Hcmp. apply Hcmp.
        apply (proj2 (SFltb_finite_pos 4503599627370496 m (-52) e)). left. lia. }
    cbn [value].
    destruct Hle as [Hlt | [-> Hm]].
    + pose proof (digits2_pos_bounds m) as [_ Hhi].
      assert (Hd : Zpos (digits2_pos m) <= 53) by lia.
      apply Qlt_le_weak.
      apply Qlt_le_trans with (y := (inject_Z (2 ^ 53) * pow2 e)%Q).
      * apply Qmult_lt_compat_r; [apply pow2_pos |].
        rewrite <- Zlt_Qlt.
        eapply Z.lt_le_trans; [exact Hhi |].
        apply Z.pow_le_mono_r; lia.
      * rewrite (pow2_Z 53) by lia. rewrite <- pow2_add.
        change 1%Q with (pow2 0). apply pow2_mono. lia.
    + assert (H1 : (1 == inject_Z 4503599627370496 * pow2 (-52))%Q)
        by (vm_compute; reflexivity).
      rewrite H1. apply scaled_le. lia.
Qed.

End Grid.


(* ===================================================================== *)
(** * Properties of the threat levels, the rule engine and the feature vector *)
(* ===================================================================== *)

Section RuleFacts.

Import Float64 PyFloat ThreatDetection FeatureExtractor ThreatDetectionModel.

(** ** Order of doubles *)

(** Python's [<=] followed by [<] against a positive constant. *)
Lemma SFleb_SFltb_trans (a b : float64) (mc : positive) (ec : Z) :
  SFleb a b = true ->
  SFltb b (S754_finite false mc ec) = true ->
  SFltb a (S754_finite false mc ec) = true.
Proof.
  intros Hab Hbc.
  destruct b as [sb | sb | | sb mb eb].
  - destruct a as [sa | [|] | | [|] ma ea]; try discriminate Hab; reflexivity.
  - destruct sb; [| discriminate Hbc].
    destruct a as [sa | [|] | | [|] ma ea]; try discriminate Hab; reflexivity.
  - discriminate Hbc.
  - destruct sb.
    + destruct a as [sa | [|] | | [|] ma ea]; try discriminate Hab; reflexivity.
    + apply SFltb_finite_pos in Hbc.
      destruct a as [sa | [|] | | [|] ma ea]; try discriminate Hab; try reflexivity.
      apply SFleb_finite_pos in Hab.
      apply SFltb_finite_pos. lia.
Qed.

(** X1.  [get_threat_level] is monotone: when [s1 <= s2] holds in Python
    (so neither score is NaN), the level of [s1] is not more severe than
    the level of [s2]. *)
Theorem get_threat_level_monotone (s1 s2 : float64) :
  leb s1 s2 = true ->
  (level_rank (get_threat_level s1) <= level_rank (get_threat_level s2))%nat.
Proof.
  intros Hle.
  assert (Hlt : forall mc ec,
             SFltb s2 (S754_finite false mc ec) = true ->
             SFltb s1 (S754_finite false mc ec) = true)
    by (intros; eapply SFleb_SFltb_trans; eassumption).
  unfold get_threat_level; cbn [num_ltb num_lit float64_num].
  rewrite lit_2_10, lit_5_10, lit_8_10. unfold ltb.
  pose proof (Hlt 7205759403792794%positive (-55)%Z) as H2.
  pose proof (Hlt 4503599627370496%positive (-53)%Z) as H5.
  pose proof (Hlt 7205759403792794%positive (-53)%Z) as H8.
  destruct (SFltb s2 (S754_finite false 7205759403792794 (-55))).
  - rewrite H2 by reflexivity. cbn. lia.
  - destruct (SFltb s2 (S754_finite false 4503599627370496 (-53))).
    + rewrite H5 by reflexivity.
      destruct (SFltb s1 (S754_finite false 7205759403792794 (-55))); cbn; lia.
    + destruct (SFltb s2 (S754_finite false 7205759403792794 (-53))).
      * rewrite H8 by reflexivity.
        destruct (SFltb s1 (S754_finite false 7205759403792794 (-55))); [cbn; lia |].
        destruct (SFltb s1 (S754_finite false 4503599627370496 (-53))); cbn; lia.
      * destruct (SFltb s1 (S754_finite false 7205759403792794 (-55))); [cbn; lia |].
        destruct (SFltb s1 (S754_finite false 4503599627370496 (-53))); [cbn; lia |].
        destruct (SFltb s1 (S754_finite false 7205759403792794 (-53))); cbn; lia.
Qed.

(** X2.  A NaN coming from any one of the three detectors goes through
    the fusion unnoticed: the fused score is NaN, the confidence is NaN,
    and since every comparison with NaN is false the level reported is
    CRITICAL, whatever the weights and the other two scores. *)
Theorem predict_threat_nan_component
    (cfg : WeightConfig float64) (sig : SignalSet float64) :
  text_score sig = S754_nan \/ anomaly_score sig = S754_nan \/
  rule_based_score sig = S754_nan ->
  threat_score (predict_threat cfg sig) = S754_nan /\
  threat_level (predict_threat cfg sig) = CRITICAL /\
  confidence (predict_threat cfg sig) = S754_nan.
Proof.
  destruct cfg as [wt wa wr], sig as [t a r].
  cbn [text_score anomaly_score rule_based_score].
  assert (Hmul : forall w, mul w S754_nan = S754_nan)
    by (intros [| | |]; reflexivity).
  assert (Haddl : forall y, add S754_nan y = S754_nan) by reflexivity.
  assert (Haddr : forall x, add x S754_nan = S754_nan)
    by (intros [| | |]; reflexivity).
  assert (Hdivl : forall y, div S754_nan y = S754_nan) by reflexivity.
  assert (Hdivr : forall x, div x S754_nan = S754_nan)
    by (intros [| | |]; reflexivity).
  assert (Hsubr : forall x, sub x S754_nan = S754_nan)
    by (intros [| | |]; reflexivity).
  intros Hnan.
  assert (Hscore : final_score {| w_text := wt; w_anomaly := wa; w_rules := wr |}
                     {| text_score := t; anomaly_score := a; rule_based_score := r |}
                   = S754_nan).
  { unfold final_score;
      cbn [num_add num_mul float64_num w_text w_anomaly w_rules
           text_score anomaly_score rule_based_score].
    destruct Hnan as [-> | [-> | ->]];
      rewrite Hmul, ?Haddl, ?Haddr; reflexivity. }
  unfold predict_threat.
  cbn [threat_score threat_level confidence text_score anomaly_score rule_based_score].
  rewrite Hscore. split; [reflexivity |]. split; [reflexivity |].
  unfold calculate_confidence.
  assert (Hmean : np_mean [t; a; r] = S754_nan).
  { unfold np_mean, np_sum. cbn [fold_left].
    destruct Hnan as [-> | [-> | ->]]; rewrite ?Haddl, ?Haddr; apply Hdivl. }
  rewrite Hmean, Hdivr, Hsubr. reflexivity.
Qed.


(** ** The rule engine *)

Lemma lit_valid_positive :
  (valid (lit 1 10) /\ gt_zero (lit 1 10) = true) /\
  (valid (lit 2 10) /\ gt_zero (lit 2 10) = true) /\
  (valid (lit 3 10) /\ gt_zero (lit 3 10) = true) /\
  (valid (lit 15 100) /\ gt_zero (lit 15 100) = true).
Proof. vm_compute. repeat split. Qed.

Lemma rule_inv_ge_zero (fired : bool) (score : float64) :
  rule_inv fired score -> valid score /\ ge_zero score = true.
Proof.
  intros [Hv Hs]. split; [exact Hv |].
  destruct fired; [apply gt_zero_ge_zero; exact Hs | subst score; reflexivity].
Qed.

Lemma rule_inv_step (fired b : bool) (c score : float64) :
  valid c -> gt_zero c = true ->
  rule_inv fired score ->
  rule_inv (fired || b) (if b then add score c else score).
Proof.
  intros Vc Hc Hinv.
  destruct (rule_inv_ge_zero _ _ Hinv) as [Vs Hs].
  destruct b.
  - rewrite orb_true_r. split; [apply add_valid; assumption |].
    apply add_gt_zero; assumption.
  - rewrite orb_false_r. exact Hinv.
Qed.

Lemma rule_inv_images (imgs : list ImageFeature) (fired : bool) (score : float64) :
  rule_inv fired score ->
  rule_inv
    (fired || existsb (fun image => is_suspicious (analysis image)
                                   || has_logo (analysis image)) imgs)
    (fold_left image_rules imgs score).
Proof.
  revert fired score. induction imgs as [| image rest IH]; intros fired score Hinv.
  - cbn. rewrite orb_false_r. exact Hinv.
  - cbn [fold_left existsb]. rewrite orb_assoc.
    apply IH. unfold image_rules. rewrite orb_assoc.
    destruct lit_valid_positive as ((V1 & P1) & _).
    apply rule_inv_step; [assumption | assumption |].
    apply rule_inv_step; assumption.
Qed.

Lemma apply_rules_inv (features : Features) :
  exists score,
    rule_inv (some_rule_fires features) score /\
    apply_rules features = py_min score (of_Z 1).
Proof.
  destruct lit_valid_positive as ((V1 & P1) & (V2 & P2) & (V3 & P3) & _).
  eexists. split; [| reflexivity].
  unfold some_rule_fires.
  apply rule_inv_images.
  apply rule_inv_step; [assumption | assumption |].
  apply rule_inv_step; [assumption | assumption |].
  apply rule_inv_step; [assumption | assumption |].
  apply (rule_inv_step false); [assumption | assumption |].
  split; reflexivity.
Qed.

(** [min(score, 1.0)] of a valid double that is at least zero. *)
Lemma py_min_one_in_unit (score : float64) :
  valid score -> ge_zero score = true ->
  let r := py_min score (of_Z 1) in
  valid r /\ ge_zero r = true /\ leb r (of_Z 1) = true /\
  nonneg r /\ (0 <= value r <= 1)%Q /\
  (gt_zero score = true -> gt_zero r = true) /\
  (score = of_Z 0 -> r = of_Z 0).
Proof.
  intros Vs Hs. cbv zeta. unfold py_min.
  destruct (ltb (of_Z 1) score) eqn:Hcmp.
  - repeat split; try (vm_compute; reflexivity); try (vm_compute; discriminate).
    intros ->. discriminate Hcmp.
  - destruct (not_above_one_value score Vs Hs Hcmp) as [Hn Hv].
    repeat split; try assumption; auto.
    + replace (of_Z 1) with (S754_finite false 4503599627370496 (-52)) in *
        by (vm_compute; reflexivity).
      apply ge_zero_cases in Hs.
      destruct Hs as [[s ->] | [-> | (m & e & ->)]];
        [reflexivity | discriminate Hcmp |].
      apply SFleb_finite_pos.
      destruct (Z.lt_trichotomy e (-52)) as [Hlt | [Heq | Hgt]].
      * left; exact Hlt.
      * right. split; [symmetry; exact Heq |].
        destruct (Pos.leb_spec m 4503599627370496) as [Hm | Hm]; [exact Hm |].
        exfalso. apply not_true_iff_false in Hcmp. apply Hcmp.
        apply (proj2 (SFltb_finite_pos 4503599627370496 m (-52) e)).
        right. split; [symmetry; exact Heq | exact Hm].
      * exfalso. apply not_true_iff_false in Hcmp. apply Hcmp.
        apply (proj2 (SFltb_finite_pos 4503599627370496 m (-52) e)). left. lia.
    + apply value_nonneg. exact Hn.
Qed.

(** X3.  Whatever the features, the score of [apply_rules] is a valid
    double that is neither NaN nor negative and is at most 1.0, both in
    Python's comparisons and as a rational number: summing the increments
    never overflows the cap [min(score, 1.0)], however many images the page
    has. *)
Theorem apply_rules_in_unit (features : Features) :
  let r := apply_rules features in
  ge_zero r = true /\ leb r (of_Z 1) = true /\
  valid r /\ nonneg r /\ (0 <= value r <= 1)%Q.
Proof.
  cbv zeta.
  destruct (apply_rules_inv features) as (score & Hinv & ->).
  destruct (rule_inv_ge_zero _ _ Hinv) as [Vs Hs].
  destruct (py_min_one_in_unit score Vs Hs) as (Hv & Hge & Hle & Hn & Hval & _).
  repeat split; try assumption; apply Hval.
Qed.

(** X4.  [apply_rules] returns exactly [0.0] when none of its rules
    fires, and a strictly positive score as soon as one of them does: no
    sequence of additions brings the score back to zero. *)
Theorem apply_rules_zero_iff (features : Features) :
  (some_rule_fires features = false -> apply_rules features = of_Z 0) /\
  (some_rule_fires features = true -> gt_zero (apply_rules features) = true).
Proof.
  destruct (apply_rules_inv features) as (score & Hinv & ->).
  destruct (rule_inv_ge_zero _ _ Hinv) as [Vs Hs].
  destruct (py_min_one_in_unit score Vs Hs) as (_ & _ & _ & _ & _ & Hpos & Hzero).
  destruct Hinv as [_ Hfired].
  split; intros Hf; rewrite Hf in Hfired; auto.
Qed.

(** X23.  With the rule engine in the loop: when the text and anomaly
    scores lie in [[0,1]] and the weights are valid non-negative doubles of
    total at most 1 (or above 1 by no more than [2^-54]), the score
    [predict_threat] returns lies in [[0,1]] for every feature dictionary,
    the rule-based component being the score of [apply_rules]. *)
Theorem predict_threat_with_rule_engine_in_unit
    (cfg : WeightConfig float64) (t a : float64) (features : Features) :
  nonneg t -> nonneg a -> (value t <= 1)%Q -> (value a <= 1)%Q ->
  nonneg (w_text cfg) -> nonneg (w_anomaly cfg) -> nonneg (w_rules cfg) ->
  valid (w_text cfg) -> valid (w_anomaly cfg) -> valid (w_rules cfg) ->
  (value (w_text cfg) + value (w_anomaly cfg) + value (w_rules cfg)
   <= 1 + (1 # 2) * half_ulp)%Q ->
  let verdict :=
    predict_threat cfg
      {| text_score := t; anomaly_score := a;
         rule_based_score := apply_rules features |} in
  nonneg (threat_score verdict) /\
  (0 <= value (threat_score verdict) <= 1)%Q /\
  rule_based (component_scores verdict) = apply_rules features.
Proof.
  intros Ht Ha Ht1 Ha1 Hwt Hwa Hwr Vwt Vwa Vwr Hsum verdict.
  destruct (apply_rules_inv features) as (score & Hinv & Heq).
  destruct (rule_inv_ge_zero _ _ Hinv) as [Vs Hs].
  destruct (py_min_one_in_unit score Vs Hs) as (_ & _ & _ & Hr & [_ Hr1] & _).
  rewrite <- Heq in Hr, Hr1.
  unfold verdict. rewrite threat_score_unfold.
  cbn [text_score anomaly_score rule_based_score].
  destruct (weighted_sum_in_unit (w_text cfg) (w_anomaly cfg) (w_rules cfg)
              t a (apply_rules features))
    as [Hn Hv]; try assumption.
  repeat split; try assumption; apply Hv.
Qed.

(** ** Images *)

Lemma fold_image_rules_placeholders (image_tags : list string) (score : float64) :
  fold_left image_rules (images (image_features_of image_tags)) score = score.
Proof.
  cbn [images image_features_of].
  revert score. induction image_tags as [| tag rest IH]; intros score.
  - reflexivity.
  - cbn [map fold_left]. rewrite <- (IH score) at 2. reflexivity.
Qed.

(** X5.  The image analysis of the extractor is made of placeholders:
    every image [extract_features] reports has [has_logo] and
    [is_suspicious] false, one per [src] found.  Hence the images of a page
    never change the score of [apply_rules], and the two image counters of
    the feature vector and of the risk score are 0. *)
Theorem extracted_images_do_not_count
    (extract_text_features : string -> TextFeatures)
    (image_tags : string -> list string) (html_content url : string) :
  let features := extract_features extract_text_features image_tags html_content url in
  List.length (images (image_features features)) = List.length (image_tags html_content) /\
  Forall (fun image => has_logo (analysis image) = false
                       /\ is_suspicious (analysis image) = false)
    (images (image_features features)) /\
  apply_rules features =
    apply_rules
      {| text_features := text_features features;
         image_features := {| images := [] |};
         url_features := url_features features;
         combined_risk_score := combined_risk_score features |} /\
  count_suspicious (images (image_features features)) = 0%nat /\
  count_logos (images (image_features features)) = 0%nat.
Proof.
  cbv zeta. unfold extract_features, extract_image_features.
  cbn [text_features image_features url_features combined_risk_score].
  repeat apply conj.
  - cbn [images image_features_of]. apply length_map.
  - cbn [images image_features_of]. apply Forall_map.
    apply Forall_forall. intros tag _. split; reflexivity.
  - unfold apply_rules.
    cbn [text_features image_features url_features combined_risk_score].
    rewrite fold_image_rules_placeholders. reflexivity.
  - unfold count_suspicious. cbn [images image_features_of].
    induction (image_tags html_content) as [| tag rest IH]; [reflexivity | exact IH].
  - unfold count_logos. cbn [images image_features_of].
    induction (image_tags html_content) as [| tag rest IH]; [reflexivity | exact IH].
Qed.


(** ** The feature vector *)



End RuleFacts.


(* ===================================================================== *)
(** * Properties of the URL analysis *)
(* ===================================================================== *)

Section RegexFacts.

Import Re FeatureExtractor.
Local Open Scope string_scope.

Lemma sapp_cons (x : ascii) (a b : string) : String x a ++ b = String x (a ++ b).
Proof. reflexivity. Qed.

Lemma sapp_nil_l (b : string) : "" ++ b = b.
Proof. reflexivity. Qed.

Lemma sapp_assoc (a b c : string) : (a ++ b) ++ c = a ++ (b ++ c).
Proof.
  induction a as [| x a IH]; [reflexivity |].
  rewrite !sapp_cons, IH. reflexivity.
Qed.

Lemma sapp_nil_r (a : string) : a ++ "" = a.
Proof.
  induction a as [| x a IH]; [reflexivity |].
  rewrite sapp_cons, IH. reflexivity.
Qed.

Lemma slength_app (a b : string) :
  String.length (a ++ b) = (String.length a + String.length b)%nat.
Proof.
  induction a as [| x a IH]; [reflexivity |].
  rewrite sapp_cons. cbn [String.length]. rewrite IH. reflexivity.
Qed.

Lemma string_forall_app (p : ascii -> bool) (a b : string) :
  string_forall p (a ++ b) = string_forall p a && string_forall p b.
Proof.
  induction a as [| x a IH]; [reflexivity |].
  rewrite sapp_cons. cbn [string_forall]. rewrite IH, andb_assoc. reflexivity.
Qed.

(** ** Searching *)

Lemma in_tails (s t : string) : In t (tails s) <-> exists pre, s = pre ++ t.
Proof.
  induction s as [| x s IH].
  - cbn. split.
    + intros [<- | []]. exists "". reflexivity.
    + intros [pre Hpre]. left. destruct pre; [exact Hpre | discriminate Hpre].
  - cbn [tails In]. rewrite IH. split.
    + intros [<- | [pre ->]]; [exists ""; reflexivity |].
      exists (String x pre). reflexivity.
    + intros [[| y pre] Hpre]; [left; exact Hpre |].
      right. exists pre. rewrite sapp_cons in Hpre. congruence.
Qed.

Lemma matches_at_iff (ic : bool) (r : regex) (s : string) :
  matches_at ic r s = true <-> exists t, In t (ends ic r s).
Proof.
  unfold matches_at. destruct (ends ic r s) as [| t ts]; split.
  - discriminate.
  - intros [t []].
  - intros _. exists t. left. reflexivity.
  - reflexivity.
Qed.

(** A search succeeds when the pattern matches at the start of some
    suffix. *)
Lemma search_iff (ic : bool) (r : regex) (s : string) :
  search ic r s = true <->
  exists pre mid post, s = pre ++ mid /\ In post (ends ic r mid).
Proof.
  unfold search. rewrite existsb_exists. split.
  - intros (mid & Hin & Hm). apply in_tails in Hin as [pre ->].
    apply matches_at_iff in Hm as [post Hpost]. eauto.
  - intros (pre & mid & post & -> & Hpost).
    exists mid. split; [apply in_tails; eauto | apply matches_at_iff; eauto].
Qed.

(** ** What the pieces of a pattern consume *)

Lemma in_single (p : ascii -> bool) (s t : string) :
  In t (single p s) <-> exists x, s = String x t /\ p x = true.
Proof.
  destruct s as [| x s']; cbn [single].
  - split; [intros [] | intros (x & Hx & _); discriminate].
  - destruct (p x) eqn:Hp; cbn [In]; split.
    + intros [<- | []]. eauto.
    + intros (y & Hy & _). left. congruence.
    + intros [].
    + intros (y & Hy & Hpy). congruence.
Qed.

Lemma in_ends_cat (ic : bool) (r1 r2 : regex) (s t : string) :
  In t (ends ic (Cat r1 r2) s) <->
  exists mid, In mid (ends ic r1 s) /\ In t (ends ic r2 mid).
Proof. cbn [ends]. apply in_flat_map. Qed.

Lemma in_rep_exact (p : ascii -> bool) (n : nat) (s t : string) :
  In t (rep_exact (single p) n s) <->
  exists d, s = d ++ t /\ string_forall p d = true /\ String.length d = n.
Proof.
  revert s. induction n as [| n IH]; intros s; cbn [rep_exact].
  - split.
    + intros [<- | []]. exists "". repeat split.
    + intros ([| x d] & Hs & _ & Hlen); [left; exact Hs | discriminate].
  - rewrite in_flat_map. split.
    + intros (mid & Hmid & Ht).
      apply in_single in Hmid as (x & -> & Hx).
      apply IH in Ht as (d & -> & Hd & Hlen).
      exists (String x d). cbn [string_forall String.length].
      rewrite Hx, Hd, Hlen. repeat split.
    + intros ([| x d] & Hs & Hd & Hlen); [discriminate |].
      rewrite sapp_cons in Hs. cbn [string_forall String.length] in Hd, Hlen.
      apply andb_prop in Hd as [Hx Hd].
      exists (d ++ t). split; [apply in_single; eauto |].
      apply IH. exists d. repeat split; [exact Hd | lia].
Qed.

Lemma in_rep_upto (p : ascii -> bool) (n : nat) (s t : string) :
  In t (rep_upto (single p) n s) <->
  exists d, s = d ++ t /\ string_forall p d = true /\ (String.length d <= n)%nat.
Proof.
  revert s. induction n as [| n IH]; intros s; cbn [rep_upto In].
  - split.
    + intros [<- | []]. exists "". repeat split. cbn. lia.
    + intros ([| x d] & Hs & _ & Hlen); [left; exact Hs | cbn in Hlen; lia].
  - rewrite in_flat_map. split.
    + intros [<- | (mid & Hmid & Ht)].
      * exists "". repeat split. cbn. lia.
      * apply in_single in Hmid as (x & -> & Hx).
        apply IH in Ht as (d & -> & Hd & Hlen).
        exists (String x d). cbn [string_forall String.length].
        rewrite Hx, Hd. repeat split. lia.
    + intros ([| x d] & Hs & Hd & Hlen); [left; exact Hs |].
      rewrite sapp_cons in Hs. cbn [string_forall String.length] in Hd, Hlen.
      apply andb_prop in Hd as [Hx Hd].
      right. exists (d ++ t). split; [apply in_single; eauto |].
      apply IH. exists d. repeat split; [exact Hd | lia].
Qed.

Lemma ssplit (d : string) (lo : nat) :
  (lo <= String.length d)%nat ->
  exists d1 d2, d = d1 ++ d2 /\ String.length d1 = lo.
Proof.
  revert d. induction lo as [| lo IH]; intros d Hlo.
  - exists "", d. split; reflexivity.
  - destruct d as [| x d]; cbn [String.length] in Hlo; [lia |].
    destruct (IH d ltac:(lia)) as (d1 & d2 & -> & Hlen).
    exists (String x d1), d2. cbn [String.length]. rewrite Hlen.
    split; reflexivity.
Qed.

(** A bounded repetition of a one-character pattern. *)
Lemma in_repeat_one (p : ascii -> bool) (lo extra : nat) (s t : string) :
  In t (flat_map (rep_upto (single p) extra) (rep_exact (single p) lo s)) <->
  exists d, s = d ++ t /\ string_forall p d = true /\
            (lo <= String.length d <= lo + extra)%nat.
Proof.
  rewrite in_flat_map. split.
  - intros (mid & Hmid & Ht).
    apply in_rep_exact in Hmid as (d1 & -> & Hd1 & Hlen1).
    apply in_rep_upto in Ht as (d2 & -> & Hd2 & Hlen2).
    exists (d1 ++ d2). rewrite sapp_assoc, string_forall_app, slength_app, Hd1, Hd2.
    repeat split; lia.
  - intros (d & -> & Hd & Hlen).
    destruct (ssplit d lo ltac:(lia)) as (d1 & d2 & -> & Hlen1).
    rewrite string_forall_app in Hd. apply andb_prop in Hd as [Hd1 Hd2].
    rewrite slength_app in Hlen.
    exists (d2 ++ t). split.
    + apply in_rep_exact. exists d1. rewrite sapp_assoc. repeat split; assumption.
    + apply in_rep_upto. exists d2. repeat split; [exact Hd2 | lia].
Qed.

Lemma in_ends_digits_1_3 (s t : string) :
  In t (ends false (Repeat Digit 1 (Some 3)) s) <->
  exists d, s = d ++ t /\ digits_1_3 d = true.
Proof.
  cbn [ends]. change (3 - 1)%nat with 2%nat.
  rewrite in_repeat_one. unfold digits_1_3.
  split; intros (d & -> & H).
  - destruct H as (Hd & Hlo & Hhi). exists d. split; [reflexivity |].
    rewrite Hd. cbn [andb]. apply andb_true_intro.
    split; apply Nat.leb_le; lia.
  - apply andb_prop in H as [H Hhi]. apply andb_prop in H as [Hd Hlo].
    apply Nat.leb_le in Hlo, Hhi.
    exists d. repeat split; try assumption; lia.
Qed.

Lemma in_ends_dot_literal (s t : string) :
  In t (ends false (Chr ".") s) <-> s = "." ++ t.
Proof.
  cbn [ends]. rewrite in_single. unfold chr_eq. split.
  - intros (x & -> & Hx). apply Ascii.eqb_eq in Hx. subst x. reflexivity.
  - intros ->. exists "."%char. split; reflexivity.
Qed.


(** ** The address test of [analyze_url] *)

(** X7.  [contains_ip] is true exactly when the URL contains four groups
    of one to three decimal digits separated by dots.  The groups are not
    range-checked and may sit anywhere in the URL, inside longer runs of
    digits included. *)
Theorem contains_ip_iff (url : string) :
  contains_ip (analyze_url url) = true <->
  exists pre d1 d2 d3 d4 post,
    url = pre ++ d1 ++ "." ++ d2 ++ "." ++ d3 ++ "." ++ d4 ++ post /\
    digits_1_3 d1 = true /\ digits_1_3 d2 = true /\
    digits_1_3 d3 = true /\ digits_1_3 d4 = true.
Proof.
  cbn [contains_ip analyze_url]. rewrite search_iff.
  unfold dotted_quad. cbn [cat]. split.
  - intros (pre & mid & post & -> & Hin).
    apply in_ends_cat in Hin as (s1 & H1 & Hin).
    apply in_ends_cat in Hin as (s2 & H2 & Hin).
    apply in_ends_cat in Hin as (s3 & H3 & Hin).
    apply in_ends_cat in Hin as (s4 & H4 & Hin).
    apply in_ends_cat in Hin as (s5 & H5 & Hin).
    apply in_ends_cat in Hin as (s6 & H6 & H7).
    apply in_ends_digits_1_3 in H1 as (d1 & -> & Hd1).
    apply in_ends_dot_literal in H2 as ->.
    apply in_ends_digits_1_3 in H3 as (d2 & -> & Hd2).
    apply in_ends_dot_literal in H4 as ->.
    apply in_ends_digits_1_3 in H5 as (d3 & -> & Hd3).
    apply in_ends_dot_literal in H6 as ->.
    apply in_ends_digits_1_3 in H7 as (d4 & -> & Hd4).
    exists pre, d1, d2, d3, d4, post. repeat split; assumption.
  - intros (pre & d1 & d2 & d3 & d4 & post & -> & Hd1 & Hd2 & Hd3 & Hd4).
    exists pre, (d1 ++ "." ++ d2 ++ "." ++ d3 ++ "." ++ d4 ++ post), post.
    split; [reflexivity |].
    apply in_ends_cat. eexists. split; [apply in_ends_digits_1_3; eauto |].
    apply in_ends_cat. eexists. split; [apply in_ends_dot_literal; eauto |].
    apply in_ends_cat. eexists. split; [apply in_ends_digits_1_3; eauto |].
    apply in_ends_cat. eexists. split; [apply in_ends_dot_literal; eauto |].
    apply in_ends_cat. eexists. split; [apply in_ends_digits_1_3; eauto |].
    apply in_ends_cat. eexists. split; [apply in_ends_dot_literal; eauto |].
    apply in_ends_digits_1_3; eauto.
Qed.

(** ** The third suspicious-URL pattern *)

Lemma letters_match (c : ascii) :
  is_letter c = true ->
  xorb false (in_set true [("A", "Z"); ("a", "z")]%char c) = true.
Proof.
  unfold is_letter, in_set. cbn [existsb fst snd xorb andb].
  change (is_upper c) with (in_range "A" "Z" c).
  change (is_lower c) with (in_range "a" "z" c).
  repeat match goal with
         | |- context [in_range ?lo ?hi ?x] => destruct (in_range lo hi x)
         end;
    cbn; intros H; try reflexivity; discriminate H.
Qed.

(** From the second character of [http://] or [https://] on, the body of
    the pattern matches up to and including the first two letters after a
    dot. *)
Lemma dotted_name_matches_after_h (secure : bool) (body rest : string) (a b : ascii) :
  string_forall not_newline body = true ->
  is_letter a = true -> is_letter b = true ->
  In rest
    (ends true (pattern_regex dotted_name)
       ((if secure then "ttps://" else "ttp://")
        ++ body ++ "." ++ String a (String b rest))).
Proof.
  intros Hbody Ha Hb.
  set (tail := body ++ "." ++ String a (String b rest)).
  set (mid := (if secure then "ttps://" else "ttp://") ++ tail).
  cbn [pattern_regex dotted_name cat].
  apply in_ends_cat. exists mid. split.
  { unfold mid. destruct secure; cbv; left; reflexivity. }
  apply in_ends_cat. exists ("." ++ String a (String b rest)). split.
  { cbn [ends]. apply (in_repeat_one not_newline 0).
    exists ((if secure then "ttps://" else "ttp://") ++ body).
    split; [unfold mid, tail; rewrite sapp_assoc; reflexivity |].
    split.
    - rewrite string_forall_app, Hbody. destruct secure; reflexivity.
    - unfold mid, tail. rewrite !slength_app. lia. }
  apply in_ends_cat. exists (String a (String b rest)). split.
  { cbn [ends]. apply in_single. exists "."%char. split; reflexivity. }
  cbn [ends]. change (6 - 2)%nat with 4%nat.
  apply (in_repeat_one (fun x => xorb false (in_set true [("A", "Z"); ("a", "z")]%char x)) 2 4).
  exists (String a (String b "")). split; [reflexivity |].
  split; [| cbn; lia].
  cbn [string_forall]. rewrite (letters_match a Ha), (letters_match b Hb). reflexivity.
Qed.

Lemma dotted_name_search (secure : bool) (body rest : string) (a b : ascii) :
  string_forall not_newline body = true ->
  is_letter a = true -> is_letter b = true ->
  search true (pattern_regex dotted_name)
    ((if secure then "https://" else "http://")
     ++ body ++ "." ++ String a (String b rest)) = true.
Proof.
  intros Hbody Ha Hb.
  apply search_iff.
  exists "h", ((if secure then "ttps://" else "ttp://")
               ++ body ++ "." ++ String a (String b rest)), rest.
  split; [destruct secure; reflexivity |].
  apply dotted_name_matches_after_h; assumption.
Qed.

Lemma In_suspicious_patterns (p : pattern) (url : string) :
  In p suspicious_urls -> search true (pattern_regex p) url = true ->
  In (pattern_text p) (suspicious_patterns (analyze_url url)).
Proof.
  intros Hp Hs. cbn [suspicious_patterns analyze_url].
  apply in_map. apply filter_In. split; assumption.
Qed.

(** X8.  The third pattern of ['suspicious_urls'] matches every URL that
    starts with [http://] or [https://] and then has, without a newline in
    between, a dot followed by two letters: the lookahead that excludes a
    scheme only holds at the first character, and the search goes on from
    the second.  Such a URL therefore always has between one and three
    suspicious patterns. *)
Theorem dotted_name_flags_web_urls (secure : bool) (body rest : string) (a b : ascii) :
  string_forall not_newline body = true ->
  is_letter a = true -> is_letter b = true ->
  let url :=
    (if secure then "https://" else "http://")
    ++ body ++ "." ++ String a (String b rest) in
  In (pattern_text dotted_name) (suspicious_patterns (analyze_url url)) /\
  (1 <= List.length (suspicious_patterns (analyze_url url)) <= 3)%nat.
Proof.
  intros Hbody Ha Hb url.
  assert (Hin : In (pattern_text dotted_name) (suspicious_patterns (analyze_url url))).
  { apply In_suspicious_patterns.
    - unfold suspicious_urls. cbn [In]. auto.
    - apply dotted_name_search; assumption. }
  split; [exact Hin |].
  split.
  - destruct (suspicious_patterns (analyze_url url)); [destruct Hin | cbn; lia].
  - cbn [suspicious_patterns analyze_url]. rewrite length_map.
    etransitivity; [apply filter_length_le |]. reflexivity.
Qed.

End RegexFacts.

(* ===================================================================== *)
(** * Properties of the risk score *)
(* ===================================================================== *)

Section RiskFacts.

Import Float64 PyFloat ThreatDetection Re FeatureExtractor ThreatDetectionModel.
Local Open Scope Z_scope.

Lemma digits2_pos_mul (mx my : positive) :
  Zpos (digits2_pos mx) + Zpos (digits2_pos my) - 1 <= Zpos (digits2_pos (mx * my)).
Proof.
  pose proof (digits2_pos_bounds mx) as [Hx _].
  pose proof (digits2_pos_bounds my) as [Hy _].
  apply digits2_pos_ge.
  replace (Zpos (digits2_pos mx) + Zpos (digits2_pos my) - 1 - 1)
    with ((Zpos (digits2_pos mx) - 1) + (Zpos (digits2_pos my) - 1)) by lia.
  rewrite Z.pow_add_r by lia. rewrite Pos2Z.inj_mul.
  apply Z.mul_le_mono_nonneg; try lia; apply Z.pow_nonneg; lia.
Qed.

Lemma mul_valid (x y : float64) : valid x -> valid y -> valid (mul x y).
Proof.
  unfold mul, prec, emax.
  destruct x as [sx | sx | | sx mx ex], y as [sy | sy | | sy my ey];
    intros Hx Hy; cbn [SFmul]; try reflexivity.
  apply valid_finite in Hx, Hy.
  apply binary_round_aux_valid.
  pose proof (digits2_pos_mul mx my). lia.
Qed.

(** A positive integer as a double: at least 1, so its exponent is at
    least -52. *)
Lemma of_Z_pos (p : positive) :
  of_Z (Zpos p) = S754_infinity false \/
  exists m e, of_Z (Zpos p) = S754_finite false m e /\ -52 <= e.
Proof.
  unfold of_Z, prec, emax. cbn [binary_normalize].
  unfold binary_round, shl_align, fexp, emin.
  change (3 - 1024 - 53) with (-1074).
  set (d := Zpos (digits2_pos p)).
  assert (Hd : 1 <= d) by (unfold d; lia).
  destruct (Z.max (d + 0 - 53) (-1074) - 0) as [| k | k] eqn:Hk.
  - destruct (binary_round_aux_shape false p 0) as [Hkeep _].
    rewrite Hkeep by (fold d; lia). cbn. right. eexists _, _. split; [reflexivity | lia].
  - destruct (binary_round_aux_shape false p 0) as [_ Hshift].
    fold d in Hshift.
    destruct Hshift as (m1 & Hm1 & Hlo & _ & ->); [lia |].
    set (E := Z.max (d + 0 - 53) (-1074)) in *.
    destruct (m1 =? 9007199254740992).
    + destruct (E + 1 <=? 971); [right; eexists _, _; split; [reflexivity | lia] | left; reflexivity].
    + assert (4503599627370496 <= m1) by (apply Hlo; unfold E; lia).
      destruct m1; try lia.
      destruct (E <=? 971); [right; eexists _, _; split; [reflexivity | lia] | left; reflexivity].
  - destruct (binary_round_aux_shape false (Pos.iter xO p k) (Z.max (d + 0 - 53) (-1074)))
      as [Hkeep _].
    rewrite digits2_pos_iter_xO in Hkeep. fold d in Hkeep.
    rewrite Hkeep by lia.
    replace (Z.max (d + 0 - 53) (-1074) <=? 971) with true
      by (symmetry; apply Z.leb_le; lia).
    right. eexists _, _. split; [reflexivity | lia].
Qed.

Lemma of_nat_ge_zero (n : nat) : ge_zero (of_Z (Z.of_nat n)) = true.
Proof.
  destruct n as [| n]; [reflexivity |].
  rewrite Nat2Z.inj_succ, <- Z.add_1_r.
  destruct (Z.of_nat n + 1) as [| p | p] eqn:Hp; try lia.
  apply ge_zero_cases.
  destruct (of_Z_pos p) as [-> | (m & e & -> & _)]; eauto.
Qed.

(** [n * c] for a count [n] and a positive constant [c]. *)
Lemma int_times_inv (n : nat) (mc : positive) (ec : Z) :
  valid (S754_finite false mc ec) -> -1022 <= ec ->
  let r := int_times n (S754_finite false mc ec) in
  valid r /\
  match n with
  | O => r = of_Z 0
  | S _ => gt_zero r = true
  end.
Proof.
  intros Vc Hec. cbv zeta. unfold int_times.
  split; [apply mul_valid; [apply of_Z_valid | exact Vc] |].
  destruct n as [| n]; [reflexivity |].
  rewrite Nat2Z.inj_succ, <- Z.add_1_r.
  destruct (Z.of_nat n + 1) as [| p | p] eqn:Hp; try lia.
  apply gt_zero_cases.
  destruct (of_Z_pos p) as [-> | (m & e & -> & He)].
  - left. reflexivity.
  - unfold mul, prec, emax. cbn [SFmul xorb].
    pose proof (binary_round_aux_positive false (m * mc) (e + ec) ltac:(lia)) as Hnz.
    destruct (binary_round_aux_sign false (m * mc) (e + ec))
      as [Hr | [-> | (q & e' & ->)]]; eauto.
    contradiction.
Qed.

Lemma risk_weights :
  lit 1 10 = S754_finite false 7205759403792794 (-56) /\
  lit 2 10 = S754_finite false 7205759403792794 (-55) /\
  lit 15 100 = S754_finite false 5404319552844595 (-55).
Proof. vm_compute. repeat split. Qed.

(** The sum [calculate_risk_score] builds before it is capped: valid, zero
    when the three counts are zero and positive otherwise. *)
Lemma risk_sum_inv (n1 n2 n3 : nat) :
  let risk_score :=
    add (add (add (of_Z 0) (int_times n1 (lit 1 10))) (int_times n2 (lit 2 10)))
        (int_times n3 (lit 15 100)) in
  rule_inv (negb ((n1 =? 0) && (n2 =? 0) && (n3 =? 0))%nat) risk_score.
Proof.
  cbv zeta.
  destruct risk_weights as (-> & -> & ->).
  destruct (int_times_inv n1 7205759403792794 (-56)) as [V1 H1];
    [vm_compute; reflexivity | lia |].
  destruct (int_times_inv n2 7205759403792794 (-55)) as [V2 H2];
    [vm_compute; reflexivity | lia |].
  destruct (int_times_inv n3 5404319552844595 (-55)) as [V3 H3];
    [vm_compute; reflexivity | lia |].
  set (t1 := int_times n1 _) in *. set (t2 := int_times n2 _) in *.
  set (t3 := int_times n3 _) in *.
  assert (Hstep : forall fired n s t,
             rule_inv fired s -> valid t ->
             match n with O => t = of_Z 0 | S _ => gt_zero t = true end ->
             rule_inv (fired || negb (n =? 0)%nat) (add s t)).
  { intros fired n s t Hinv Vt Ht.
    destruct (rule_inv_ge_zero _ _ Hinv) as [Vs Hs].
    destruct n as [| n]; cbn [Nat.eqb negb].
    - rewrite orb_false_r. subst t. destruct Hinv as [_ Hf].
      split; [apply add_valid; [exact Vs | reflexivity] |].
      destruct fired.
      + apply gt_zero_cases in Hf. destruct Hf as [-> | (m & e & ->)]; reflexivity.
      + subst s. reflexivity.
    - rewrite orb_true_r. split; [apply add_valid; assumption |].
      apply add_gt_zero; assumption. }
  assert (H0 : rule_inv false (of_Z 0)) by (split; reflexivity).
  pose proof (Hstep _ n1 _ t1 H0 V1 H1) as Ha.
  pose proof (Hstep _ n2 _ t2 Ha V2 H2) as Hb.
  pose proof (Hstep _ n3 _ t3 Hb V3 H3) as Hc.
  replace (negb ((n1 =? 0)%nat && (n2 =? 0)%nat && (n3 =? 0)%nat))
    with (false || negb (n1 =? 0)%nat || negb (n2 =? 0)%nat || negb (n3 =? 0)%nat)
    by (destruct (n1 =? 0)%nat, (n2 =? 0)%nat, (n3 =? 0)%nat; reflexivity).
  exact Hc.
Qed.


Local Close Scope Z_scope.

(** X9.  [calculate_risk_score] always returns a valid double between
    [0.0] and [1.0], never NaN; it is exactly [0.0] when the text has no
    suspicious match, the URL matches no suspicious pattern and no image is
    suspicious, and strictly positive otherwise. *)
Theorem calculate_risk_score_in_unit
    (tf : TextFeatures) (imf : ImageFeatures) (uf : UrlFeatures) :
  let r := calculate_risk_score tf imf uf in
  let quiet :=
    ((List.length (suspicious_patterns_found tf) =? 0)
     && (List.length (suspicious_patterns uf) =? 0)
     && (count_suspicious (images imf) =? 0))%nat in
  (ge_zero r = true /\ leb r (of_Z 1) = true) /\
  (valid r /\ nonneg r /\ (0 <= value r <= 1)%Q) /\
  (quiet = true -> r = of_Z 0) /\
  (quiet = false -> gt_zero r = true).
Proof.
  cbv zeta. unfold calculate_risk_score.
  pose proof (risk_sum_inv (List.length (suspicious_patterns_found tf))
                (List.length (suspicious_patterns uf))
                (count_suspicious (images imf))) as Hinv.
  cbv zeta in Hinv.
  set (risk_score := add _ _) in *.
  destruct (rule_inv_ge_zero _ _ Hinv) as [Vs Hs].
  destruct (py_min_one_in_unit risk_score Vs Hs)
    as (Hv & Hge & Hle & Hn & Hval & Hpos & Hzero).
  destruct Hinv as [_ Hfired].
  repeat split; try assumption; try apply Hval.
  - intros Hq. rewrite Hq in Hfired. auto.
  - intros Hq. rewrite Hq in Hfired. auto.
Qed.

Lemma nonempty_In {A} (x : A) (l : list A) : In x l -> nonempty l = true.
Proof. destruct l; [intros [] | reflexivity]. Qed.

(** X10.  For every URL of the form of X8, whatever the page holds, the
    features [extract_features] returns make [apply_rules] strictly
    positive and carry a strictly positive ['combined_risk_score']. *)
Theorem web_urls_always_score
    (extract_text_features : string -> TextFeatures)
    (image_tags : string -> list string) (html_content : string)
    (secure : bool) (body rest : string) (a b : ascii) :
  string_forall not_newline body = true ->
  is_letter a = true -> is_letter b = true ->
  let url :=
    ((if secure then "https://" else "http://")
     ++ body ++ "." ++ String a (String b rest))%string in
  let features :=
    extract_features extract_text_features image_tags html_content url in
  gt_zero (apply_rules features) = true /\
  gt_zero (combined_risk_score features) = true.
Proof.
  intros Hbody Ha Hb url features.
  assert (Hin : In (pattern_text dotted_name) (suspicious_patterns (analyze_url url))).
  { apply In_suspicious_patterns.
    - unfold suspicious_urls. cbn [In]. auto.
    - apply dotted_name_search; assumption. }
  split.
  - destruct (apply_rules_inv features) as (score & Hinv & ->).
    destruct (rule_inv_ge_zero _ _ Hinv) as [Vs Hs].
    destruct (py_min_one_in_unit score Vs Hs) as (_ & _ & _ & _ & _ & Hpos & _).
    apply Hpos. destruct Hinv as [_ Hfired].
    replace (some_rule_fires features) with true in Hfired; [exact Hfired |].
    unfold some_rule_fires, features, extract_features.
    cbn [text_features url_features image_features].
    rewrite (nonempty_In _ _ Hin). rewrite !orb_true_r. reflexivity.
  - unfold features, extract_features. cbn [combined_risk_score].
    unfold calculate_risk_score.
    pose proof (risk_sum_inv
                  (List.length (suspicious_patterns_found
                                  (extract_text_features html_content)))
                  (List.length (suspicious_patterns (analyze_url url)))
                  (count_suspicious
                     (images (extract_image_features image_tags html_content))))
      as Hinv.
    cbv zeta in Hinv.
    set (risk_score := add _ _) in *.
    destruct (rule_inv_ge_zero _ _ Hinv) as [Vs Hs].
    destruct (py_min_one_in_unit risk_score Vs Hs) as (_ & _ & _ & _ & _ & Hpos & _).
    apply Hpos. destruct Hinv as [_ Hfired].
    destruct (suspicious_patterns (analyze_url url)); [destruct Hin |].
    cbn [List.length Nat.eqb] in Hfired.
    rewrite andb_false_r in Hfired. exact Hfired.
Qed.

End RiskFacts.

(* ===================================================================== *)
(** * Rounding is monotone *)
(* ===================================================================== *)

Section Monotone.

Import Float64 PyFloat ThreatDetection FeatureExtractor ThreatDetectionModel.
Local Open Scope Z_scope.

(** What [m * 2^e] is rounded to, as a point [q * 2^F] of the grid of
    doubles: [F] is the exponent [E] of the binade of [m * 2^e], or the
    next one when the mantissa is rounded up to [2^53]; the point is within
    half a step [2^E] of [m * 2^e]. *)
Lemma binary_round_aux_grid (m : positive) (e : Z) :
  let E := binade_exponent m e in
  e <= E ->
  exists q F : Z,
    binary_round_aux 53 1024 false (Zpos m) e loc_Exact =
      (if F <=? 971 then mk_float false q F else S754_infinity false) /\
    0 <= q < 9007199254740992 /\
    (F = E \/ (F = E + 1 /\ q = 4503599627370496)) /\
    (-1074 < E -> 4503599627370496 <= q) /\
    (inject_Z q * pow2 F - pow2 (E - 1) <= inject_Z (Zpos m) * pow2 e
     <= inject_Z q * pow2 F + pow2 (E - 1))%Q.
Proof.
  cbv zeta. unfold binade_exponent. intros HeE.
  pose proof (digits2_pos_bounds m) as [Hdlo Hdhi].
  destruct (binary_round_aux_shape false m e) as [Hkeep Hshift].
  set (d := Zpos (digits2_pos m)) in *.
  set (E := Z.max (d + e - 53) (-1074)) in *.
  pose proof (pow2_pos (E - 1)) as Hh.
  destruct (Z.le_gt_cases E e) as [HEe | HEe].
  - assert (HE : E = e) by lia.
    exists (Zpos m), e. rewrite (Hkeep HEe). cbn [mk_float].
    split; [reflexivity |].
    assert (Hd53 : d <= 53) by lia.
    split.
    { split; [lia |]. change 9007199254740992 with (2 ^ 53).
      eapply Z.lt_le_trans; [exact Hdhi | apply Z.pow_le_mono_r; lia]. }
    split; [left; symmetry; exact HE |].
    split.
    { intros Hn. assert (d = 53) by lia.
      change 4503599627370496 with (2 ^ (53 - 1)).
      replace (53 - 1) with (d - 1) by lia. exact Hdlo. }
    split; lra.
  - destruct (Hshift HEe) as (m1 & Hr & Hlo & Herr & ->).
    set (P := 2 ^ (E - e)) in *.
    assert (HP : 0 < P) by (apply Z.pow_pos_nonneg; lia).
    assert (HPq : (inject_Z P * pow2 e == pow2 (E - 1) + pow2 (E - 1))%Q).
    { unfold P. rewrite pow2_Z by lia. rewrite <- pow2_add.
      replace (E - e + e) with (1 + (E - 1)) by lia.
      rewrite pow2_add. change (pow2 1) with 2%Q. ring. }
    assert (Hq : (inject_Z (m1 * P) * pow2 e == inject_Z m1 * pow2 E)%Q).
    { rewrite inject_Z_mult. unfold P. rewrite pow2_Z by lia.
      rewrite <- Qmult_assoc, <- pow2_add.
      replace (E - e + e) with E by lia. reflexivity. }
    assert (Hbnd : (inject_Z m1 * pow2 E - pow2 (E - 1) <= inject_Z (Zpos m) * pow2 e
                    <= inject_Z m1 * pow2 E + pow2 (E - 1))%Q).
    { rewrite <- Hq.
      set (MP := m1 * P) in *.
      assert (H1 : MP + MP <= Zpos m + Zpos m + P) by lia.
      assert (H2 : Zpos m + Zpos m <= MP + MP + P) by lia.
      apply (proj2 (scaled_le _ _ e)) in H1, H2.
      rewrite !inject_Z_plus in H1, H2.
      split; lra. }
    destruct (m1 =? 9007199254740992) eqn:Htop.
    + apply Z.eqb_eq in Htop.
      exists 4503599627370496, (E + 1). cbn [mk_float].
      split; [reflexivity |]. split; [lia |].
      split; [right; split; reflexivity |]. split; [lia |].
      assert (Hsame : (inject_Z 4503599627370496 * pow2 (E + 1)
                       == inject_Z m1 * pow2 E)%Q).
      { rewrite Htop, Z.add_comm, pow2_add. change (pow2 1) with 2%Q.
        change (inject_Z 9007199254740992) with (inject_Z 4503599627370496 * 2)%Q.
        ring. }
      rewrite Hsame. exact Hbnd.
    + apply Z.eqb_neq in Htop.
      exists m1, E.
      split.
      { destruct m1 as [| q | q]; cbn [mk_float]; try lia.
        - assert (E = -1074) by lia. subst E. rewrite H. reflexivity.
        - reflexivity. }
      split; [lia |]. split; [left; reflexivity |].
      split; [intros Hn; apply Hlo; lia | exact Hbnd].
Qed.

(** A smaller value is rounded to a double that is not larger. *)
Lemma binary_round_aux_monotone (m m' : positive) (e e' : Z) :
  e <= binade_exponent m e -> e' <= binade_exponent m' e' ->
  (inject_Z (Zpos m) * pow2 e < inject_Z (Zpos m') * pow2 e')%Q ->
  SFleb (binary_round_aux 53 1024 false (Zpos m) e loc_Exact)
        (binary_round_aux 53 1024 false (Zpos m') e' loc_Exact) = true.
Proof.
  intros He He' Hlt.
  destruct (binary_round_aux_grid m e He) as (q & F & -> & Hq & HF & Hn & Hb).
  destruct (binary_round_aux_grid m' e' He') as (q' & F' & -> & Hq' & HF' & Hn' & Hb').
  destruct (binade_bounds m e) as [Hlo _].
  destruct (binade_bounds m' e') as [_ Hhi'].
  assert (HD : Zpos (digits2_pos m) + e <= Zpos (digits2_pos m') + e').
  { assert (Hp : (pow2 (Zpos (digits2_pos m) + e - 1)
                  < pow2 (Zpos (digits2_pos m') + e'))%Q) by lra.
    apply pow2_lt_inv in Hp. lia. }
  unfold binade_exponent in *.
  set (E := Z.max (Zpos (digits2_pos m) + e - 53) (-1074)) in *.
  set (E' := Z.max (Zpos (digits2_pos m') + e' - 53) (-1074)) in *.
  assert (HEE : E <= E') by (unfold E, E'; lia).
  assert (Hlex : (F < F' /\ 0 < q') \/ (F = F' /\ q <= q')).
  { destruct (Z.eq_dec E E') as [Heq | Hne].
    - rewrite <- Heq in *.
      pose proof (pow2_pos E) as HPE.
      assert (Hstep : (pow2 E == pow2 (E - 1) + pow2 (E - 1))%Q).
      { replace E with (1 + (E - 1)) at 1 by lia.
        rewrite pow2_add. change (pow2 1) with 2%Q. ring. }
      assert (Hnext : (pow2 (E + 1) == 2 * pow2 E)%Q).
      { rewrite Z.add_comm, pow2_add. reflexivity. }
      assert (Hint : forall a b : Z,
                 (inject_Z a * pow2 E < (inject_Z b + 1) * pow2 E)%Q -> a <= b).
      { intros a b Hab. apply Qmult_lt_r in Hab; [| exact HPE].
        change 1%Q with (inject_Z 1) in Hab.
        rewrite <- inject_Z_plus, <- Zlt_Qlt in Hab. lia. }
      destruct HF as [-> | [-> ->]], HF' as [-> | [-> ->]].
      + right. split; [reflexivity |]. apply Hint. lra.
      + left. lia.
      + exfalso.
        assert (9007199254740992 <= q'); [| lia].
        apply Hint. rewrite Hnext in Hb.
        change (inject_Z 9007199254740992) with (inject_Z 4503599627370496 * 2)%Q.
        lra.
      + right. split; [reflexivity | lia].
    - assert (Hq52 : 4503599627370496 <= q') by (apply Hn'; lia).
      destruct HF as [-> | [-> ->]], HF' as [-> | [-> ->]]; try (left; lia).
      destruct (Z.eq_dec (E + 1) E') as [<- | Hne2]; [right | left]; lia. }
  destruct (F' <=? 971) eqn:HF971.
  - apply Z.leb_le in HF971.
    replace (F <=? 971) with true by (symmetry; apply Z.leb_le; lia).
    destruct q as [| q | q]; [| | lia]; cbn [mk_float].
    + destruct q' as [| q' | q']; [| | lia]; reflexivity.
    + destruct q' as [| q' | q']; [lia | | lia]. cbn [mk_float].
      apply SFleb_finite_pos.
      destruct Hlex as [[Hlt' _] | [-> Hle]]; [left; exact Hlt' |].
      right. split; [reflexivity | exact Hle].
  - destruct (F <=? 971); [| reflexivity].
    destruct q as [| q | q]; reflexivity.
Qed.

(** A valid double is what its own value is rounded to. *)
Lemma binary_round_aux_id (m : positive) (e : Z) :
  valid (S754_finite false m e) ->
  e <= binade_exponent m e /\
  binary_round_aux 53 1024 false (Zpos m) e loc_Exact = S754_finite false m e.
Proof.
  intros Hv. apply valid_finite in Hv as [Hcan Hmax].
  unfold binade_exponent. split; [lia |].
  destruct (binary_round_aux_shape false m e) as [Hkeep _].
  rewrite Hkeep by lia.
  replace (e <=? 971) with true by (symmetry; apply Z.leb_le; exact Hmax).
  reflexivity.
Qed.

(** [binary_round] first shifts the mantissa left to the exponent of its
    binade, when that is below the exponent given; the value is kept. *)
Lemma binary_round_unfold_value (m : positive) (e : Z) :
  exists (mz : positive) (ez : Z),
    binary_round 53 1024 false m e
      = binary_round_aux 53 1024 false (Zpos mz) ez loc_Exact /\
    ez <= binade_exponent mz ez /\
    (inject_Z (Zpos mz) * pow2 ez == inject_Z (Zpos m) * pow2 e)%Q.
Proof.
  unfold binary_round, binade_exponent.
  set (ea := fexp 53 1024 (Zpos (digits2_pos m) + e)).
  assert (Hea : ea = Z.max (Zpos (digits2_pos m) + e - 53) (-1074)) by reflexivity.
  destruct (shl_align_value m e ea) as [Hv Hsnd].
  unfold shl_align in *.
  destruct (ea - e) as [| d | d] eqn:Hd; cbn [fst snd] in *.
  - exists m, e. split; [reflexivity |]. split; [lia | reflexivity].
  - exists m, e. split; [reflexivity |]. split; [lia | reflexivity].
  - exists (Pos.iter xO m d), ea. split; [reflexivity |].
    split; [rewrite digits2_pos_iter_xO; lia | exact Hv].
Qed.

(** ** Python's [<=] on doubles that are at least zero *)

Lemma leb_refl_ge_zero (x : float64) : ge_zero x = true -> leb x x = true.
Proof.
  intros Hx. apply ge_zero_cases in Hx.
  destruct Hx as [[s ->] | [-> | (m & e & ->)]]; try reflexivity.
  apply SFleb_finite_pos. right. split; [reflexivity | lia].
Qed.

Lemma leb_zero_ge_zero (s : bool) (x : float64) :
  ge_zero x = true -> leb (S754_zero s) x = true.
Proof.
  intros Hx. apply ge_zero_cases in Hx.
  destruct Hx as [[s' ->] | [-> | (m & e & ->)]]; reflexivity.
Qed.

Lemma leb_ge_zero_inf (x : float64) :
  ge_zero x = true -> leb x (S754_infinity false) = true.
Proof.
  intros Hx. apply ge_zero_cases in Hx.
  destruct Hx as [[s' ->] | [-> | (m & e & ->)]]; reflexivity.
Qed.

Lemma leb_trans_ge_zero (a b c : float64) :
  ge_zero a = true -> ge_zero b = true -> ge_zero c = true ->
  leb a b = true -> leb b c = true -> leb a c = true.
Proof.
  intros Ha Hb Hc Hab Hbc.
  apply ge_zero_cases in Ha, Hb, Hc.
  destruct Ha as [[sa ->] | [-> | (ma & ea & ->)]];
    destruct Hc as [[sc ->] | [-> | (mc & ec & ->)]];
    try reflexivity;
    destruct Hb as [[sb ->] | [-> | (mb & eb & ->)]];
    try discriminate Hab; try discriminate Hbc; try reflexivity.
  unfold leb in *.
  apply SFleb_finite_pos in Hab, Hbc. apply SFleb_finite_pos. lia.
Qed.

(** Of two valid finite doubles in Python's [<=], the first denotes a
    smaller rational, or they are the same double, or both are zero. *)
Lemma leb_value_cases (x x' : float64) :
  valid x -> valid x' -> nonneg x -> nonneg x' -> leb x x' = true ->
  (value x < value x')%Q \/ x = x' \/ (is_zero x = true /\ is_zero x' = true).
Proof.
  intros Vx Vx' Nx Nx' Hle.
  destruct x as [s | s | | [|] m e]; try contradiction;
    destruct x' as [s' | s' | | [|] m' e']; try contradiction.
  - right. right. split; reflexivity.
  - left. cbn [value].
    apply Qmult_lt_0_compat; [| apply pow2_pos].
    change 0%Q with (inject_Z 0). rewrite <- Zlt_Qlt. lia.
  - discriminate Hle.
  - apply SFleb_finite_pos in Hle. cbn [value].
    destruct Hle as [Hlt | [-> Hm]].
    + left.
      apply valid_finite in Vx as [Hc _], Vx' as [Hc' _].
      destruct (binade_bounds m e) as [_ Hhi].
      destruct (binade_bounds m' e') as [Hlo' _].
      assert (Hp : (pow2 (Zpos (digits2_pos m) + e)
                    <= pow2 (Zpos (digits2_pos m') + e' - 1))%Q)
        by (apply pow2_mono; lia).
      lra.
    + destruct (Pos.eq_dec m m') as [-> | Hne]; [right; left; reflexivity | left].
      apply Qmult_lt_compat_r; [apply pow2_pos |].
      rewrite <- Zlt_Qlt. lia.
Qed.

(** ** Sums *)

(** The sum of two valid finite doubles that are at least zero: zero when
    both are, and otherwise their exact sum, rounded. *)
Lemma add_nonneg_cases (x y : float64) :
  valid x -> valid y -> nonneg x -> nonneg y ->
  (is_zero x = true /\ is_zero y = true /\ is_zero (add x y) = true) \/
  (exists (m : positive) (e : Z),
     e <= binade_exponent m e /\
     add x y = binary_round_aux 53 1024 false (Zpos m) e loc_Exact /\
     (inject_Z (Zpos m) * pow2 e == value x + value y)%Q).
Proof.
  intros Vx Vy Nx Ny.
  destruct x as [sx | sx | | [|] mx ex]; try contradiction;
    destruct y as [sy | sy | | [|] my ey]; try contradiction.
  - left. unfold add. cbn [SFadd]. destruct sx, sy; repeat split.
  - right. exists my, ey.
    destruct (binary_round_aux_id my ey Vy) as [Hc ->].
    split; [exact Hc |]. split; [reflexivity |]. cbn [value]. ring.
  - right. exists mx, ex.
    destruct (binary_round_aux_id mx ex Vx) as [Hc ->].
    split; [exact Hc |]. split; [reflexivity |]. cbn [value]. ring.
  - right. unfold add, prec, emax. cbn [SFadd cond_Zopp value].
    set (ez := Z.min ex ey).
    destruct (shl_align_value mx ex ez) as [Hvx _].
    destruct (shl_align_value my ey ez) as [Hvy _].
    pose proof (proj2 (shl_align_value mx ex ez) ltac:(lia)) as Hex.
    pose proof (proj2 (shl_align_value my ey ez) ltac:(lia)) as Hey.
    rewrite Hex in Hvx. rewrite Hey in Hvy.
    set (ax := fst (shl_align mx ex ez)) in *.
    set (ay := fst (shl_align my ey ez)) in *.
    change (Zpos ax + Zpos ay)%Z with (Zpos (ax + ay)).
    cbn [binary_normalize].
    destruct (binary_round_unfold_value (ax + ay) ez) as (mz & ez' & -> & Hc & Hv).
    exists mz, ez'. split; [exact Hc |]. split; [reflexivity |].
    rewrite Hv, <- Hvx, <- Hvy, Pos2Z.inj_add, inject_Z_plus. ring.
Qed.

Lemma ge_zero_finite_cases (x : float64) :
  ge_zero x = true -> x = S754_infinity false \/ nonneg x.
Proof.
  intros Hx. apply ge_zero_cases in Hx.
  destruct Hx as [[s ->] | [-> | (m & e & ->)]];
    [right; exact I | left; reflexivity | right; exact I].
Qed.

(** Addition is monotone in both arguments. *)
Lemma add_monotone (x x' y y' : float64) :
  valid x -> valid x' -> valid y -> valid y' ->
  ge_zero x = true -> ge_zero x' = true -> ge_zero y = true -> ge_zero y' = true ->
  leb x x' = true -> leb y y' = true ->
  leb (add x y) (add x' y') = true.
Proof.
  intros Vx Vx' Vy Vy' Gx Gx' Gy Gy' Hx Hy.
  pose proof (add_ge_zero x y Gx Gy) as Gs.
  pose proof (add_ge_zero x' y' Gx' Gy') as Gs'.
  destruct (ge_zero_finite_cases x' Gx') as [-> | Nx'].
  { replace (add (S754_infinity false) y') with (S754_infinity false).
    - apply leb_ge_zero_inf. exact Gs.
    - apply ge_zero_cases in Gy'.
      destruct Gy' as [[s ->] | [-> | (m & e & ->)]]; reflexivity. }
  destruct (ge_zero_finite_cases y' Gy') as [-> | Ny'].
  { replace (add x' (S754_infinity false)) with (S754_infinity false).
    - apply leb_ge_zero_inf. exact Gs.
    - destruct x' as [s | s | | [|] m e]; try contradiction; reflexivity. }
  destruct (ge_zero_finite_cases x Gx) as [-> | Nx].
  { destruct x' as [s | s | | [|] m e]; try contradiction; discriminate Hx. }
  destruct (ge_zero_finite_cases y Gy) as [-> | Ny].
  { destruct y' as [s | s | | [|] m e]; try contradiction; discriminate Hy. }
  destruct (add_nonneg_cases x y Vx Vy Nx Ny)
    as [(_ & _ & Hz) | (m & e & Hc & Hr & Hv)].
  { destruct (add x y) as [s | | |]; try discriminate Hz.
    apply leb_zero_ge_zero. exact Gs'. }
  destruct (leb_value_cases x x' Vx Vx' Nx Nx' Hx) as [Hxlt | Hxeq];
    destruct (leb_value_cases y y' Vy Vy' Ny Ny' Hy) as [Hylt | Hyeq].
  1-3: assert (Hlt : (value x + value y < value x' + value y')%Q).
  1, 3, 5: try (destruct Hxeq as [<- | [Zx Zx']]);
           try (destruct Hyeq as [<- | [Zy Zy']]);
           try (destruct x as [? | ? | | ? ? ?]; try discriminate Zx;
                destruct x' as [? | ? | | ? ? ?]; try discriminate Zx');
           try (destruct y as [? | ? | | ? ? ?]; try discriminate Zy;
                destruct y' as [? | ? | | ? ? ?]; try discriminate Zy');
           cbn [value] in *; lra.
  1-3: destruct (add_nonneg_cases x' y' Vx' Vy' Nx' Ny')
         as [(Zx' & Zy' & _) | (m' & e' & Hc' & Hr' & Hv')];
       [ exfalso;
         destruct x' as [? | ? | | ? ? ?]; try discriminate Zx';
         destruct y' as [? | ? | | ? ? ?]; try discriminate Zy';
         pose proof (value_nonneg x Nx); pose proof (value_nonneg y Ny);
         cbn [value] in *; lra
       | unfold leb; rewrite Hr, Hr';
         apply binary_round_aux_monotone; [exact Hc | exact Hc' |];
         rewrite Hv, Hv'; exact Hlt ].
  destruct Hxeq as [<- | [Zx Zx']], Hyeq as [<- | [Zy Zy']].
  - apply leb_refl_ge_zero. exact Gs.
  - destruct y as [sy | | |]; try discriminate Zy.
    destruct y' as [sy' | | |]; try discriminate Zy'.
    destruct x as [sx | sx | | [|] mx ex]; try contradiction.
    + unfold add. cbn [SFadd]. destruct sx, sy, sy'; reflexivity.
    + unfold add. cbn [SFadd]. apply SFleb_finite_pos. right. split; [reflexivity | lia].
  - destruct x as [sx | | |]; try discriminate Zx.
    destruct x' as [sx' | | |]; try discriminate Zx'.
    destruct y as [sy | sy | | [|] my ey]; try contradiction.
    + unfold add. cbn [SFadd]. destruct sx, sx', sy; reflexivity.
    + unfold add. cbn [SFadd]. apply SFleb_finite_pos. right. split; [reflexivity | lia].
  - destruct x as [sx | | |]; try discriminate Zx.
    destruct x' as [sx' | | |]; try discriminate Zx'.
    destruct y as [sy | | |]; try discriminate Zy.
    destruct y' as [sy' | | |]; try discriminate Zy'.
    unfold add. cbn [SFadd]. destruct sx, sx', sy, sy'; reflexivity.
Qed.

Lemma add_zero_r (x : float64) :
  gt_zero x = true -> add x (S754_zero false) = x.
Proof.
  intros Hx. apply gt_zero_cases in Hx.
  destruct Hx as [-> | (m & e & ->)]; reflexivity.
Qed.

(** Adding a double that is at least zero does not lower a sum. *)
Lemma add_ge_left (x y : float64) :
  valid x -> valid y -> ge_zero x = true -> ge_zero y = true ->
  leb x (add x y) = true.
Proof.
  intros Vx Vy Gx Gy.
  destruct (gt_zero x) eqn:Hpos.
  - rewrite <- (add_zero_r x Hpos) at 1.
    apply add_monotone; try assumption; try reflexivity.
    apply leb_refl_ge_zero. exact Gx.
  - pose proof (add_ge_zero x y Gx Gy) as Gs.
    apply ge_zero_cases in Gx.
    destruct Gx as [[s ->] | [-> | (m & e & ->)]]; try discriminate Hpos.
    apply leb_zero_ge_zero. exact Gs.
Qed.

(** ** Products *)

Lemma mul_ge_zero (x : float64) (mc : positive) (ec : Z) :
  ge_zero x = true -> ge_zero (mul x (S754_finite false mc ec)) = true.
Proof.
  rewrite ge_zero_cases.
  intros [[sx ->] | [-> | (mx & ex & ->)]];
    apply ge_zero_cases; unfold mul, prec, emax; cbn [SFmul xorb]; eauto.
  destruct (binary_round_aux_sign false (mx * mc) (ex + ec))
    as [-> | [-> | (q & e' & ->)]]; eauto.
Qed.

(** Multiplying by a positive finite double is monotone. *)
Lemma mul_monotone (x x' : float64) (mc : positive) (ec : Z) :
  valid x -> valid x' -> valid (S754_finite false mc ec) ->
  ge_zero x = true -> ge_zero x' = true ->
  leb x x' = true ->
  leb (mul x (S754_finite false mc ec)) (mul x' (S754_finite false mc ec)) = true.
Proof.
  intros Vx Vx' Vc Gx Gx' Hx.
  set (c := S754_finite false mc ec) in *.
  pose proof (mul_ge_zero x mc ec Gx) as Gp.
  pose proof (mul_ge_zero x' mc ec Gx') as Gp'.
  fold c in Gp, Gp'.
  destruct (ge_zero_finite_cases x' Gx') as [-> | Nx'].
  { apply leb_ge_zero_inf. exact Gp. }
  destruct (ge_zero_finite_cases x Gx) as [-> | Nx].
  { destruct x' as [s | s | | [|] m e]; try contradiction; discriminate Hx. }
  destruct x as [sx | sx | | [|] mx ex]; try contradiction.
  { unfold mul, c. cbn [SFmul]. apply leb_zero_ge_zero. exact Gp'. }
  destruct x' as [sx' | sx' | | [|] mx' ex']; try contradiction.
  { discriminate Hx. }
  destruct (leb_value_cases _ _ Vx Vx' I I Hx) as [Hlt | [Heq | [Hz _]]];
    [| rewrite <- Heq; apply leb_refl_ge_zero; exact Gp | discriminate Hz].
  unfold leb, mul, c, prec, emax. cbn [SFmul xorb].
  apply valid_finite in Vx as [Hcx _], Vx' as [Hcx' _], Vc as [Hcc _].
  pose proof (digits2_pos_mul mx mc). pose proof (digits2_pos_mul mx' mc).
  apply binary_round_aux_monotone; unfold binade_exponent; try lia.
  cbn [value] in Hlt.
  rewrite !Pos2Z.inj_mul, !inject_Z_mult, pow2_add, pow2_add.
  pose proof (pow2_pos ec) as Hpc.
  assert (Hmc : (0 < inject_Z (Zpos mc) * pow2 ec)%Q).
  { apply Qmult_lt_0_compat; [| exact Hpc].
    change 0%Q with (inject_Z 0). rewrite <- Zlt_Qlt. lia. }
  apply (Qmult_lt_compat_r _ _ _ Hmc) in Hlt.
  eapply Qle_lt_trans; [| eapply Qlt_le_trans; [exact Hlt |]];
    apply Qle_lteq; right; ring.
Qed.

(** A larger count is a double that is not smaller. *)
Lemma of_nat_monotone (n n' : nat) :
  (n <= n')%nat -> leb (of_Z (Z.of_nat n)) (of_Z (Z.of_nat n')) = true.
Proof.
  intros Hn.
  destruct (Nat.eq_dec n n') as [<- | Hne].
  { apply leb_refl_ge_zero, of_nat_ge_zero. }
  pose proof (of_nat_ge_zero n') as G'.
  destruct (Z.of_nat n) as [| p | p] eqn:Hp; try lia.
  { apply leb_zero_ge_zero. exact G'. }
  destruct (Z.of_nat n') as [| p' | p'] eqn:Hp'; try lia.
  unfold leb, of_Z, prec, emax. cbn [binary_normalize].
  destruct (binary_round_unfold_value p 0) as (mz & ez & -> & Hc & Hv).
  destruct (binary_round_unfold_value p' 0) as (mz' & ez' & -> & Hc' & Hv').
  apply binary_round_aux_monotone; [exact Hc | exact Hc' |].
  rewrite Hv, Hv'.
  apply Qmult_lt_compat_r; [apply pow2_pos |].
  rewrite <- Zlt_Qlt. lia.
Qed.

Lemma int_times_monotone (n n' : nat) (mc : positive) (ec : Z) :
  valid (S754_finite false mc ec) -> (n <= n')%nat ->
  leb (int_times n (S754_finite false mc ec))
      (int_times n' (S754_finite false mc ec)) = true.
Proof.
  intros Vc Hn. unfold int_times.
  apply mul_monotone; try exact Vc; try apply of_Z_valid; try apply of_nat_ge_zero.
  apply of_nat_monotone. exact Hn.
Qed.

(** ** The cap *)

(** [min(score, 1.0)] is monotone in [score]. *)
Lemma py_min_one_monotone (s s' : float64) :
  valid s -> valid s' -> ge_zero s = true -> ge_zero s' = true ->
  leb s s' = true ->
  leb (py_min s (of_Z 1)) (py_min s' (of_Z 1)) = true.
Proof.
  intros Vs Vs' Gs Gs' Hle.
  destruct (py_min_one_in_unit s Vs Gs) as (_ & _ & Hcap & _).
  cbv zeta in Hcap. unfold py_min in *.
  destruct (ltb (of_Z 1) s') eqn:H1'; [exact Hcap |].
  destruct (ltb (of_Z 1) s) eqn:H1; [| exact Hle].
  exfalso. apply not_true_iff_false in H1'. apply H1'.
  replace (of_Z 1) with (S754_finite false 4503599627370496 (-52)) in *
    by (vm_compute; reflexivity).
  apply ge_zero_cases in Gs, Gs'.
  destruct Gs as [[a ->] | [-> | (m & e & ->)]]; try discriminate H1;
    destruct Gs' as [[a' ->] | [-> | (m' & e' & ->)]]; try discriminate Hle;
    try reflexivity.
  unfold ltb, leb in *.
  apply SFltb_finite_pos in H1. apply SFleb_finite_pos in Hle.
  apply SFltb_finite_pos. lia.
Qed.

(** ** The loops of the rule engine *)

(** The loop over the images adds [0.1] once per flag raised, whatever the
    images that raise them. *)
Lemma fold_image_rules_iter (imgs : list ImageFeature) (score : float64) :
  fold_left image_rules imgs score =
  Nat.iter (count_suspicious imgs + count_logos imgs)
           (fun s => add s (lit 1 10)) score.
Proof.
  revert score. induction imgs as [| image rest IH]; intros score; [reflexivity |].
  cbn [fold_left]. rewrite IH.
  unfold count_suspicious, count_logos, image_rules. cbn [List.filter].
  destruct (is_suspicious (analysis image)), (has_logo (analysis image));
    cbn [List.length];
    rewrite ?Nat.add_succ_r, ?Nat.add_succ_l, ?Nat.iter_succ_r; reflexivity.
Qed.

Lemma iter_add_inv (k : nat) (c s : float64) :
  valid c -> ge_zero c = true -> valid s -> ge_zero s = true ->
  valid (Nat.iter k (fun s => add s c) s) /\
  ge_zero (Nat.iter k (fun s => add s c) s) = true.
Proof.
  intros Vc Gc Vs Gs. induction k as [| k [IHv IHg]]; [split; assumption |].
  cbn [Nat.iter]. split; [apply add_valid | apply add_ge_zero]; assumption.
Qed.

(** More additions of the same increment to a score that is not smaller
    give a score that is not smaller. *)
Lemma iter_add_monotone (k k' : nat) (c s s' : float64) :
  valid c -> ge_zero c = true ->
  valid s -> valid s' -> ge_zero s = true -> ge_zero s' = true ->
  leb s s' = true -> (k <= k')%nat ->
  leb (Nat.iter k (fun s => add s c) s) (Nat.iter k' (fun s => add s c) s') = true.
Proof.
  intros Vc Gc Vs Vs' Gs Gs' Hle.
  revert k. induction k' as [| k' IH]; intros k Hk.
  - replace k with 0%nat by lia. exact Hle.
  - destruct (iter_add_inv k' c s' Vc Gc Vs' Gs') as [Vi' Gi'].
    destruct k as [| k]; cbn [Nat.iter].
    + apply leb_trans_ge_zero with (b := Nat.iter k' (fun s => add s c) s');
        [exact Gs | exact Gi' | apply add_ge_zero; assumption
        | apply (IH 0%nat); lia | apply add_ge_left; assumption].
    + destruct (iter_add_inv k c s Vc Gc Vs Gs) as [Vi Gi].
      apply add_monotone; try assumption;
        [apply IH; lia | apply leb_refl_ge_zero; exact Gc].
Qed.

(** One conditional increment of [apply_rules], on two scores. *)
Lemma rule_step_monotone (b b' : bool) (c s s' : float64) :
  valid c -> ge_zero c = true ->
  (b = true -> b' = true) ->
  (valid s /\ valid s' /\ ge_zero s = true /\ ge_zero s' = true /\ leb s s' = true) ->
  let r := if b then add s c else s in
  let r' := if b' then add s' c else s' in
  valid r /\ valid r' /\ ge_zero r = true /\ ge_zero r' = true /\ leb r r' = true.
Proof.
  intros Vc Gc Hb (Vs & Vs' & Gs & Gs' & Hle). cbv zeta.
  destruct b; [rewrite (Hb eq_refl) |].
  - repeat split; try (apply add_valid; assumption);
      try (apply add_ge_zero; assumption).
    apply add_monotone; try assumption. apply leb_refl_ge_zero. exact Gc.
  - destruct b'.
    + repeat split; try assumption; try (apply add_valid; assumption);
        try (apply add_ge_zero; assumption).
      apply leb_trans_ge_zero with (b := s');
        [exact Gs | exact Gs' | apply add_ge_zero; assumption | exact Hle
        | apply add_ge_left; assumption].
    + repeat split; assumption.
Qed.

Lemma nonempty_length_le {A} (l l' : list A) :
  (List.length l <= List.length l')%nat -> nonempty l = true -> nonempty l' = true.
Proof.
  destruct l as [| x l], l' as [| x' l']; cbn; intros Hl H; try reflexivity;
    try discriminate H; lia.
Qed.

(** X25.  More evidence never lowers the rule-based score.  When every
    condition that [apply_rules] tests on one set of features also holds on
    another (at least as many suspicious matches in the text and in the
    URL, an IP address if the first has one, at least as many dots) and
    the images of the second raise at least as many flags (suspicious or
    logo) in total, the score of the first is [<=] the score of the second
    in Python: the rounding of the additions and the cap at 1.0 never
    invert the order. *)
Theorem apply_rules_monotone (f f' : Features) :
  (List.length (suspicious_patterns_found (text_features f))
   <= List.length (suspicious_patterns_found (text_features f')))%nat ->
  (contains_ip (url_features f) = true -> contains_ip (url_features f') = true) ->
  (List.length (suspicious_patterns (url_features f))
   <= List.length (suspicious_patterns (url_features f')))%nat ->
  subdomain_count (url_features f) <= subdomain_count (url_features f') ->
  (count_suspicious (images (image_features f))
   + count_logos (images (image_features f))
   <= count_suspicious (images (image_features f'))
      + count_logos (images (image_features f')))%nat ->
  leb (apply_rules f) (apply_rules f') = true.
Proof.
  intros Htext Hip Hurl Hdots Himgs.
  destruct lit_valid_positive as ((V1 & P1) & (V2 & P2) & (V3 & P3) & _).
  pose proof (gt_zero_ge_zero _ P1) as G1.
  pose proof (gt_zero_ge_zero _ P2) as G2.
  pose proof (gt_zero_ge_zero _ P3) as G3.
  unfold apply_rules. cbv zeta. rewrite !fold_image_rules_iter.
  assert (H0 : valid (of_Z 0) /\ valid (of_Z 0) /\ ge_zero (of_Z 0) = true /\
               ge_zero (of_Z 0) = true /\ leb (of_Z 0) (of_Z 0) = true)
    by (repeat split; reflexivity).
  pose proof (rule_step_monotone _ _ (lit 3 10) _ _ V3 G3
                (nonempty_length_le _ _ Htext) H0) as Ha.
  pose proof (rule_step_monotone _ _ (lit 2 10) _ _ V2 G2 Hip Ha) as Hb.
  pose proof (rule_step_monotone _ _ (lit 2 10) _ _ V2 G2
                (nonempty_length_le _ _ Hurl) Hb) as Hc.
  assert (Hsub : (2 <? subdomain_count (url_features f)) = true ->
                 (2 <? subdomain_count (url_features f')) = true).
  { rewrite !Z.ltb_lt. lia. }
  pose proof (rule_step_monotone _ _ (lit 1 10) _ _ V1 G1 Hsub Hc) as Hd.
  cbv zeta in Ha, Hb, Hc, Hd.
  destruct Hd as (Vs & Vs' & Gs & Gs' & Hle).
  match goal with
  | |- leb (py_min (Nat.iter ?k _ ?s) _) (py_min (Nat.iter ?k' _ ?s') _) = true =>
      destruct (iter_add_inv k (lit 1 10) s V1 G1 Vs Gs) as [Vi Gi];
      destruct (iter_add_inv k' (lit 1 10) s' V1 G1 Vs' Gs') as [Vi' Gi']
  end.
  apply py_min_one_monotone; try assumption.
  apply iter_add_monotone; assumption.
Qed.

(** The sum [calculate_risk_score] builds before it is capped is monotone
    in the three counts. *)
Lemma risk_sum_monotone (n1 n2 n3 n1' n2' n3' : nat) :
  (n1 <= n1')%nat -> (n2 <= n2')%nat -> (n3 <= n3')%nat ->
  leb (add (add (add (of_Z 0) (int_times n1 (lit 1 10))) (int_times n2 (lit 2 10)))
           (int_times n3 (lit 15 100)))
      (add (add (add (of_Z 0) (int_times n1' (lit 1 10))) (int_times n2' (lit 2 10)))
           (int_times n3' (lit 15 100))) = true.
Proof.
  intros H1 H2 H3.
  destruct risk_weights as (E1 & E2 & E3).
  assert (Hterm : forall (n : nat) (mc : positive) (ec : Z),
             valid (S754_finite false mc ec) ->
             valid (int_times n (S754_finite false mc ec)) /\
             ge_zero (int_times n (S754_finite false mc ec)) = true).
  { intros n mc ec Vc. unfold int_times.
    split; [apply mul_valid; [apply of_Z_valid | exact Vc] |].
    apply mul_ge_zero, of_nat_ge_zero. }
  assert (V1 : valid (S754_finite false 7205759403792794 (-56)))
    by (vm_compute; reflexivity).
  assert (V2 : valid (S754_finite false 7205759403792794 (-55)))
    by (vm_compute; reflexivity).
  assert (V3 : valid (S754_finite false 5404319552844595 (-55)))
    by (vm_compute; reflexivity).
  rewrite E1, E2, E3.
  destruct (Hterm n1 _ _ V1) as [Va Ga]. destruct (Hterm n1' _ _ V1) as [Va' Ga'].
  destruct (Hterm n2 _ _ V2) as [Vb Gb]. destruct (Hterm n2' _ _ V2) as [Vb' Gb'].
  destruct (Hterm n3 _ _ V3) as [Vc Gc]. destruct (Hterm n3' _ _ V3) as [Vc' Gc'].
  assert (Vz : valid (of_Z 0)) by reflexivity.
  assert (Gz : ge_zero (of_Z 0) = true) by reflexivity.
  assert (Lz : leb (of_Z 0) (of_Z 0) = true) by reflexivity.
  apply add_monotone;
    repeat first [ assumption
                 | apply add_valid | apply add_ge_zero
                 | apply int_times_monotone ].
  apply add_monotone;
    repeat first [ assumption
                 | apply add_valid | apply add_ge_zero
                 | apply int_times_monotone ].
  apply add_monotone;
    repeat first [ assumption | apply int_times_monotone ].
Qed.

(** X26.  More findings never lower the combined risk score.  With at
    least as many suspicious matches in the text, at least as many
    suspicious URL patterns and at least as many suspicious images,
    [calculate_risk_score] returns a score that is [>=] in Python, whatever
    the counts: neither the conversion of the counts to doubles, nor the
    products, the sums or the cap invert the order. *)
Theorem calculate_risk_score_monotone
    (tf tf' : TextFeatures) (imf imf' : ImageFeatures) (uf uf' : UrlFeatures) :
  (List.length (suspicious_patterns_found tf)
   <= List.length (suspicious_patterns_found tf'))%nat ->
  (List.length (suspicious_patterns uf) <= List.length (suspicious_patterns uf'))%nat ->
  (count_suspicious (images imf) <= count_suspicious (images imf'))%nat ->
  leb (calculate_risk_score tf imf uf) (calculate_risk_score tf' imf' uf') = true.
Proof.
  intros H1 H2 H3. unfold calculate_risk_score. cbv zeta.
  set (n1 := List.length (suspicious_patterns_found tf)) in *.
  set (n1' := List.length (suspicious_patterns_found tf')) in *.
  set (n2 := List.length (suspicious_patterns uf)) in *.
  set (n2' := List.length (suspicious_patterns uf')) in *.
  set (n3 := count_suspicious (images imf)) in *.
  set (n3' := count_suspicious (images imf')) in *.
  destruct (rule_inv_ge_zero _ _ (risk_sum_inv n1 n2 n3)) as [Vs Gs].
  destruct (rule_inv_ge_zero _ _ (risk_sum_inv n1' n2' n3')) as [Vs' Gs'].
  apply py_min_one_monotone; try assumption.
  apply risk_sum_monotone; assumption.
Qed.

(** X27.  Ten suspicious matches in the text saturate the combined risk
    score: with ten or more of them [calculate_risk_score] returns exactly
    [1.0], whatever the URL and the images. *)
Theorem calculate_risk_score_saturates
    (tf : TextFeatures) (imf : ImageFeatures) (uf : UrlFeatures) :
  (10 <= List.length (suspicious_patterns_found tf))%nat ->
  calculate_risk_score tf imf uf = of_Z 1.
Proof.
  intros Hten. unfold calculate_risk_score. cbv zeta.
  set (n1 := List.length (suspicious_patterns_found tf)) in *.
  set (n2 := List.length (suspicious_patterns uf)).
  set (n3 := count_suspicious (images imf)).
  pose proof (risk_sum_monotone 10 0 0 n1 n2 n3 Hten (Nat.le_0_l _) (Nat.le_0_l _))
    as Hle.
  destruct (rule_inv_ge_zero _ _ (risk_sum_inv n1 n2 n3)) as [_ Gs].
  set (sum := add (add (add (of_Z 0) (int_times n1 (lit 1 10)))
                       (int_times n2 (lit 2 10))) (int_times n3 (lit 15 100))) in *.
  replace (add (add (add (of_Z 0) (int_times 10 (lit 1 10))) (int_times 0 (lit 2 10)))
               (int_times 0 (lit 15 100)))
    with (S754_finite false 4503599627370496 (-52)) in Hle
    by (vm_compute; reflexivity).
  unfold py_min.
  replace (of_Z 1) with (S754_finite false 4503599627370496 (-52))
    by (vm_compute; reflexivity).
  destruct (ltb (S754_finite false 4503599627370496 (-52)) sum) eqn:Hcmp;
    [reflexivity |].
  apply ge_zero_cases in Gs.
  destruct Gs as [[s Hs] | [Hs | (m & e & Hs)]]; rewrite Hs in *;
    try discriminate Hle; try discriminate Hcmp.
  unfold leb, ltb in *.
  apply SFleb_finite_pos in Hle.
  apply not_true_iff_false in Hcmp.
  rewrite SFltb_finite_pos in Hcmp.
  assert (He : e = -52) by lia. subst e.
  assert (Hm : m = 4503599627370496%positive) by lia.
  subst m. reflexivity.
Qed.

End Monotone.


(* ===================================================================== *)
(** * More properties of the request handlers *)
(* ===================================================================== *)

Section PipelineMore.

Import Float64 ThreatDetection ApiBackend Clock.
Local Open Scope py_scope.

Context {E Features : Type} `{Collaborators E Features}.

(** ** Single-URL analysis: the paths through [analyze_url] *)


(** X12.  When the crawler, the feature extractor or the detectors
    raise, [analyze_url] stops there: the outside world is left as the
    failing step left it (the clock is not read, no INSERT is attempted),
    one line is logged, and the caller gets an [HTTPException] of status
    500 whose detail is the text of the error. *)
Theorem analyze_url_failure_before_store (url : string) (w : World E) :
  (forall cause e1,
     crawl_single_url url (env w) = (inl cause, e1) ->
     analyze_url url w =
       (inl (HTTPException 500 (str_exn cause)),
        add_log (error_analyzing url cause) (set_env e1 w))) /\
  (forall response e1 cause e2,
     crawl_single_url url (env w) = (inr response, e1) ->
     extract_features (text response) url e1 = (inl cause, e2) ->
     analyze_url url w =
       (inl (HTTPException 500 (str_exn cause)),
        add_log (error_analyzing url cause) (set_env e2 w))) /\
  (forall response e1 features e2 cause,
     crawl_single_url url (env w) = (inr response, e1) ->
     extract_features (text response) url e1 = (inr features, e2) ->
     detectors features = inl cause ->
     analyze_url url w =
       (inl (HTTPException 500 (str_exn cause)),
        add_log (error_analyzing url cause) (set_env e2 w))).
Proof.
  repeat apply conj.
  - intros cause e1 Hcrawl.
    unfold analyze_url, bind, ret, raise, try_except, call, logging_error.
    rewrite Hcrawl. reflexivity.
  - intros response e1 cause e2 Hcrawl Hextract.
    unfold analyze_url, bind, ret, raise, try_except, call, logging_error.
    rewrite Hcrawl. cbn [env set_env]. rewrite Hextract. reflexivity.
  - intros response e1 features e2 cause Hcrawl Hextract Hdetect.
    unfold analyze_url, threat_detector_predict_threat.
    unfold bind, ret, raise, try_except, call, logging_error.
    rewrite Hcrawl. cbn [env set_env]. rewrite Hextract. cbn [env set_env].
    rewrite Hdetect. reflexivity.
Qed.

(** ** Submitting a batch *)

Lemma generate_job_id_runs (w : World E) :
  exists job_id e',
    generate_job_id w = (inr job_id, set_env e' w).
Proof.
  unfold generate_job_id, bind, ret, call.
  destruct (utcnow (env w)) as [t1 e1]. cbn [env set_env].
  destruct (utcnow e1) as [t2 e2]. cbn [env set_env].
  eexists _, _. reflexivity.
Qed.

Lemma get_batch_results_lookup (job_id : string) (w : World E) :
  fst (get_batch_results job_id w) =
  match jobs w !! job_id with
  | Some (result :: results) => inr (Some (result :: results))
  | _ => inl (HTTPException 404 "Job not found")
  end.
Proof.
  unfold get_batch_results, load_batch_results, bind, raise, ret.
  destruct (jobs w !! job_id) as [[| result results] |]; reflexivity.
Qed.

(** X13.  [analyze_urls_batch] analyses nothing itself: it returns the
    job id with the status ["processing"], appends exactly one task with
    the URLs and the callback to the queue, and leaves the job store, the
    log and the trace as they were.  Until the task has run, asking for the
    results of a job id not used before answers 404. *)
Theorem analyze_urls_batch_only_enqueues
    (urls : list string) (callback_url : option string) (w : World E) :
  exists job_id w',
    analyze_urls_batch urls callback_url w = (inr (job_id, "processing"%string), w') /\
    background_tasks w' =
      background_tasks w ++
      [{| task_urls := urls; task_job_id := job_id;
          task_callback_url := callback_url |}] /\
    jobs w' = jobs w /\ log w' = log w /\ trace w' = trace w /\
    (jobs w !! job_id = None ->
     fst (get_batch_results job_id w') = inl (HTTPException 404 "Job not found")).
Proof.
  destruct (generate_job_id_runs w) as (job_id & e' & Hid).
  unfold analyze_urls_batch, bind at 1. rewrite Hid.
  unfold bind, ret. cbn [background_tasks set_env].
  eexists _, _. split; [reflexivity |].
  cbn [background_tasks jobs log trace set_tasks set_env].
  repeat split.
  intros Hnone. rewrite get_batch_results_lookup.
  cbn [jobs set_tasks set_env]. rewrite Hnone. reflexivity.
Qed.

(** X14.  Submitting a batch of at least one URL to an idle server,
    letting the background tasks run, and then asking for the job id that
    was returned yields the results: one entry per submitted URL, in order.
    The tasks never fail and the queue is empty afterwards. *)
Theorem submitted_batch_is_retrievable
    (url : string) (rest : list string) (callback_url : option string)
    (w : World E) :
  background_tasks w = [] ->
  exists job_id w1 w2 results,
    analyze_urls_batch (url :: rest) callback_url w
      = (inr (job_id, "processing"%string), w1) /\
    run_background_tasks w1 = (inr tt, w2) /\
    background_tasks w2 = [] /\
    fst (get_batch_results job_id w2) = inr (Some results) /\
    map entry_url results = url :: rest.
Proof.
  intros Hempty.
  destruct (generate_job_id_runs w) as (job_id & e' & Hid).
  set (task := {| task_urls := url :: rest; task_job_id := job_id;
                  task_callback_url := callback_url |}).
  set (w1 := set_tasks [task] (set_env e' w)).
  assert (Hsubmit : analyze_urls_batch (url :: rest) callback_url w
                    = (inr (job_id, "processing"%string), w1)).
  { unfold analyze_urls_batch, bind at 1. rewrite Hid.
    unfold bind, ret. cbn [background_tasks set_env]. rewrite Hempty. reflexivity. }
  set (w0 := set_tasks [] w1).
  destruct (process_url_batch_unfold (url :: rest) job_id callback_url w0)
    as (wl & Hloop & Hjl & _ & Hrun).
  destruct (batch_loop_spec (url :: rest) [] w0) as (wl' & Hloop' & _ & Hbl & _).
  rewrite Hloop in Hloop'. injection Hloop' as <-.
  set (results := zip_with entry_of (url :: rest)
                    (batch_outcomes (url :: rest) w0)) in *.
  assert (Hfin : exists w2,
             process_url_batch (url :: rest) job_id callback_url w0 = (inr tt, w2) /\
             jobs w2 !! job_id = Some results /\ background_tasks w2 = []).
  { destruct callback_url as [cb |].
    - destruct (deliver_frame 3 cb job_id results (put_job job_id results wl))
        as (w2 & Hd & Hj & Hb & _).
      exists w2. rewrite Hrun. unfold send_callback. split; [exact Hd |].
      rewrite Hj, Hb. cbn [jobs background_tasks put_job].
      split; [apply lookup_insert_eq | rewrite Hbl; reflexivity].
    - eexists. rewrite Hrun. split; [reflexivity |].
      cbn [jobs background_tasks put_job].
      split; [apply lookup_insert_eq | rewrite Hbl; reflexivity]. }
  destruct Hfin as (w2 & Hp & Hj2 & Hb2).
  exists job_id, w1, w2, results.
  split; [exact Hsubmit |].
  split.
  { unfold run_background_tasks.
    change (background_tasks w1) with [task]. fold w0.
    cbn [run_tasks]. unfold bind.
    change (task_urls task) with (url :: rest).
    change (task_job_id task) with job_id.
    change (task_callback_url task) with callback_url.
    rewrite Hp. reflexivity. }
  split; [exact Hb2 |].
  split.
  - rewrite get_batch_results_lookup, Hj2.
    pose proof (batch_outcomes_length (url :: rest) w0) as Hlen.
    unfold results.
    destruct (batch_outcomes (url :: rest) w0) as [| r rs];
      [discriminate Hlen | reflexivity].
  - apply batch_entries_urls.
Qed.


(** ** What a batch writes to the log *)

(** One round of the loop: a success logs nothing, a failure logs twice
    (once in [analyze_url], once in the loop) and leaves the rendering of
    the [HTTPException] in the error record. *)
Lemma in_flight_analyze_url_log (url : string) (w : World E) :
  match in_flight url (analyze_url url) w with
  | (inr _, w1) => log w1 = log w
  | (inl e, w1) =>
      exists cause,
        e = HTTPException 500 (str_exn cause) /\
        log w1 = log w ++ [error_analyzing url cause]
  end.
Proof.
  unfold in_flight, bind, emit, try_finally.
  pose proof (analyze_url_frame url (add_event (Started url) w)) as Hf.
  destruct (analyze_url url (add_event (Started url) w)) as [[e | result] w1];
    destruct Hf as (_ & _ & _ & Hr); cbn [log add_event] in *.
  - destruct Hr as (cause & -> & Hlog). eauto.
  - apply Hr.
Qed.

Lemma batch_loop_log (urls : list string) (acc : list entry) (w : World E) :
  exists new w',
    batch_loop urls acc w = (inr (acc ++ new), w') /\
    length (log w') = length (log w) + 2 * length (List.filter is_error new) /\
    Forall (fun e => is_error e = true ->
                     exists cause,
                       e = ErrorRecord (entry_url e)
                             (http_exception_str 500 (str_exn cause))) new.
Proof.
  revert acc w. induction urls as [| url rest IH]; intros acc w.
  - exists [], w. cbn [batch_loop]. unfold ret. rewrite app_nil_r.
    repeat split; [cbn; lia | constructor].
  - rewrite batch_loop_cons.
    pose proof (in_flight_analyze_url_log url w) as Hlog.
    destruct (in_flight url (analyze_url url) w) as [[e | result] w1].
    + destruct Hlog as (cause & -> & Hlog).
      destruct (IH (acc ++ [ErrorRecord url (str_exn (HTTPException 500 (str_exn cause)))])
                  (add_log (error_processing url (HTTPException 500 (str_exn cause))) w1))
        as (new & w' & -> & Hlen & Hall).
      exists (ErrorRecord url (str_exn (HTTPException 500 (str_exn cause))) :: new), w'.
      rewrite <- app_assoc. split; [reflexivity |].
      split.
      * rewrite Hlen. cbn [log add_log List.filter is_error length].
        rewrite !length_app, Hlog, length_app. cbn [length]. lia.
      * constructor; [| exact Hall]. intros _. exists cause. reflexivity.
    + destruct (IH (acc ++ [Verdict result]) w1) as (new & w' & -> & Hlen & Hall).
      exists (Verdict result :: new), w'.
      rewrite <- app_assoc. split; [reflexivity |].
      split.
      * rewrite Hlen, Hlog. cbn [List.filter is_error]. reflexivity.
      * constructor; [discriminate | exact Hall].
Qed.

(** X15.  Each failed URL of a batch is logged twice, once by
    [analyze_url] and once by the loop of [process_url_batch], and a
    successful one is not logged: without a callback the log grows by twice
    the number of error records stored.  The text of an error record is the
    rendering of the [HTTPException] of status 500 that wraps the cause. *)
Theorem process_url_batch_logs_failures_twice
    (urls : list string) (job_id : string) (w : World E) :
  exists results w',
    process_url_batch urls job_id None w = (inr tt, w') /\
    jobs w' !! job_id = Some results /\
    length (log w') = length (log w) + 2 * length (List.filter is_error results) /\
    Forall (fun e => is_error e = true ->
                     exists cause,
                       e = ErrorRecord (entry_url e)
                             (http_exception_str 500 (str_exn cause))) results.
Proof.
  destruct (batch_loop_log urls [] w) as (results & w1 & Hloop & Hlen & Hall).
  cbn [app] in Hloop.
  exists results, (put_job job_id results w1).
  unfold process_url_batch, bind at 1. rewrite Hloop.
  unfold bind, store_batch_results, ret.
  split; [reflexivity |].
  cbn [jobs log put_job].
  split; [apply lookup_insert_eq |].
  split; assumption.
Qed.

End PipelineMore.

Section JobIdFacts.

Import Float64 ThreatDetection ApiBackend Clock.
Local Open Scope string_scope.

Context {E Features : Type} `{Collaborators E Features}.

Lemma In_below (k n : N) : (n < k)%N -> In n (below k).
Proof.
  intros Hn. unfold below. apply in_map_iff.
  exists (N.to_nat n). split; [apply N2Nat.id |].
  apply in_seq. lia.
Qed.

Lemma pad_ok_2 (n : N) : (n <= 99)%N -> pad_ok 2 n = true.
Proof.
  intros Hn.
  assert (Hall : forallb (pad_ok 2) (below 100%N) = true) by (vm_compute; reflexivity).
  rewrite forallb_forall in Hall. apply Hall. apply In_below. lia.
Qed.

Lemma pad_ok_4 (n : N) : (n <= 9999)%N -> pad_ok 4 n = true.
Proof.
  intros Hn.
  assert (Hall : forallb (pad_ok 4) (below 10000%N) = true) by (vm_compute; reflexivity).
  rewrite forallb_forall in Hall. apply Hall. apply In_below. lia.
Qed.

Lemma pad_ok_inj (width : nat) (n n' : N) :
  pad_ok width n = true -> pad_ok width n' = true ->
  zero_pad width n = zero_pad width n' -> n = n'.
Proof.
  unfold pad_ok. intros Hn Hn' Heq.
  apply andb_prop in Hn as [_ Hn]. apply andb_prop in Hn' as [_ Hn'].
  apply N.eqb_eq in Hn, Hn'. rewrite <- Hn, <- Hn', Heq. reflexivity.
Qed.

Lemma pad_ok_length (width : nat) (n : N) :
  pad_ok width n = true -> String.length (zero_pad width n) = width.
Proof.
  unfold pad_ok. intros Hn. apply andb_prop in Hn as [Hn _].
  apply Nat.eqb_eq in Hn. exact Hn.
Qed.

Lemma sapp_inj_length (a b c d : string) :
  String.length a = String.length c -> a ++ b = c ++ d -> a = c /\ b = d.
Proof.
  revert c. induction a as [| x a IH]; intros [| y c] Hlen Heq;
    try discriminate Hlen.
  - split; [reflexivity | exact Heq].
  - rewrite !sapp_cons in Heq. injection Heq as -> Heq.
    cbn [String.length] in Hlen.
    destruct (IH c ltac:(lia) Heq) as [-> ->]. split; reflexivity.
Qed.

(** The stamp [strftime('%Y%m%d%H%M%S-')] of a well-formed reading: fifteen
    characters that determine the reading to the second. *)
Lemma strftime_job_length (t : datetime) :
  well_formed t -> String.length (strftime_job t) = 15%nat.
Proof.
  intros (Hy & Hmo & Hd & Hh & Hmi & Hs).
  unfold strftime_job. rewrite !slength_app.
  rewrite (pad_ok_length 4 (year t)) by (apply pad_ok_4; lia).
  rewrite (pad_ok_length 2 (month t)) by (apply pad_ok_2; lia).
  rewrite (pad_ok_length 2 (day t)) by (apply pad_ok_2; lia).
  rewrite (pad_ok_length 2 (hour t)) by (apply pad_ok_2; lia).
  rewrite (pad_ok_length 2 (minute t)) by (apply pad_ok_2; lia).
  rewrite (pad_ok_length 2 (second t)) by (apply pad_ok_2; lia).
  reflexivity.
Qed.

Lemma strftime_job_inj (t t' : datetime) :
  well_formed t -> well_formed t' ->
  strftime_job t = strftime_job t' -> same_second t t'.
Proof.
  intros (Hy & Hmo & Hd & Hh & Hmi & Hs) (Hy' & Hmo' & Hd' & Hh' & Hmi' & Hs').
  unfold strftime_job. intros Heq.
  assert (P4 : forall n, (n <= 9999)%N -> pad_ok 4 n = true) by exact pad_ok_4.
  assert (P2 : forall n, (n <= 99)%N -> pad_ok 2 n = true) by exact pad_ok_2.
  apply sapp_inj_length in Heq as [E1 Heq];
    [| rewrite !pad_ok_length by (apply P4; lia); reflexivity].
  apply sapp_inj_length in Heq as [E2 Heq];
    [| rewrite !pad_ok_length by (apply P2; lia); reflexivity].
  apply sapp_inj_length in Heq as [E3 Heq];
    [| rewrite !pad_ok_length by (apply P2; lia); reflexivity].
  apply sapp_inj_length in Heq as [E4 Heq];
    [| rewrite !pad_ok_length by (apply P2; lia); reflexivity].
  apply sapp_inj_length in Heq as [E5 Heq];
    [| rewrite !pad_ok_length by (apply P2; lia); reflexivity].
  apply sapp_inj_length in Heq as [E6 _];
    [| rewrite !pad_ok_length by (apply P2; lia); reflexivity].
  repeat split.
  - apply (pad_ok_inj 4); [apply P4; lia | apply P4; lia | exact E1].
  - apply (pad_ok_inj 2); [apply P2; lia | apply P2; lia | exact E2].
  - apply (pad_ok_inj 2); [apply P2; lia | apply P2; lia | exact E3].
  - apply (pad_ok_inj 2); [apply P2; lia | apply P2; lia | exact E4].
  - apply (pad_ok_inj 2); [apply P2; lia | apply P2; lia | exact E5].
  - apply (pad_ok_inj 2); [apply P2; lia | apply P2; lia | exact E6].
Qed.

(** X16.  A job id starts with the fifteen characters of the stamp
    [YYYYMMDDHHMMSS-] of the first clock reading.  Two job ids generated
    from readings that fall in different calendar seconds are different,
    whatever the hash of the second readings. *)
Theorem generate_job_id_distinct_seconds
    (w w' : World E) (t1 t2 t1' t2' : datetime) (e1 e2 e1' e2' : E) :
  utcnow (env w) = (t1, e1) -> utcnow e1 = (t2, e2) ->
  utcnow (env w') = (t1', e1') -> utcnow e1' = (t2', e2') ->
  well_formed t1 -> well_formed t1' ->
  ~ same_second t1 t1' ->
  exists job_id job_id',
    fst (generate_job_id w) = inr job_id /\
    fst (generate_job_id w') = inr job_id' /\
    job_id = strftime_job t1 ++ str_int (hash_datetime t2) /\
    String.length (strftime_job t1) = 15%nat /\
    job_id <> job_id'.
Proof.
  intros H1 H2 H1' H2' Hwf Hwf' Hdiff.
  exists (strftime_job t1 ++ str_int (hash_datetime t2)),
    (strftime_job t1' ++ str_int (hash_datetime t2')).
  unfold generate_job_id, bind, ret, call. cbn [env set_env].
  rewrite H1, H1'. cbn [env set_env fst]. rewrite H2, H2'. cbn [fst].
  repeat split.
  - apply strftime_job_length. exact Hwf.
  - intros Heq. apply Hdiff.
    apply sapp_inj_length in Heq as [Heq _].
    + apply strftime_job_inj; assumption.
    + rewrite !strftime_job_length by assumption. reflexivity.
Qed.

End JobIdFacts.

(* ===================================================================== *)
(** * Properties of the Snowflake connector *)
(* ===================================================================== *)

Section ConnectorFacts.

Import Float64 Py DatabaseConnector.
Local Open Scope run_scope.

Context {D C J T : Type} `{Driver D C J T}.

(** ** Statements and their parameters *)

Lemma open_cursors_app (j j' : list (call C)) :
  open_cursors (j ++ j') = (open_cursors j + open_cursors j')%Z.
Proof.
  induction j as [| c j IH]; cbn [app open_cursors]; [lia |].
  destruct c; rewrite IH; lia.
Qed.

Lemma tidy_nil : tidy (C := C) [].
Proof. split; [constructor | reflexivity]. Qed.

Lemma tidy_app (j j' : list (call C)) : tidy j -> tidy j' -> tidy (j ++ j').
Proof.
  intros [F1 O1] [F2 O2]. split; [apply Forall_app; split; assumption |].
  rewrite open_cursors_app. lia.
Qed.

Ltac nothing_added :=
  exists []; cbn [snd journal has_conn]; rewrite ?app_nil_r;
  split; [reflexivity | split; [apply tidy_nil | first [reflexivity | assumption]]].

Lemma adds_ret {A} (a : A) : adds tidy (ret (S := Connector D C) a).
Proof. intros s. unfold ret. nothing_added. Qed.

Lemma adds_raise {A} (e : exception) : adds tidy (raise (S := Connector D C) (A := A) e).
Proof. intros s. unfold raise. nothing_added. Qed.

Lemma adds_bind {A B} (c : Run (Connector D C) A) (k : A -> Run (Connector D C) B) :
  adds tidy c -> (forall a, adds tidy (k a)) -> adds tidy (x <- c ;; k x).
Proof.
  intros Hc Hk s. unfold bind.
  destruct (Hc s) as (n1 & Hj1 & Ht1 & Hh1).
  destruct (c s) as [[e | a] s1]; cbn [snd] in *.
  - exists n1. split; [assumption | split; assumption].
  - destruct (Hk a s1) as (n2 & Hj2 & Ht2 & Hh2).
    exists (n1 ++ n2). rewrite Hj2, Hj1, app_assoc, Hh2, Hh1.
    split; [reflexivity | split; [apply tidy_app; assumption | reflexivity]].
Qed.

Lemma adds_utcnow : adds tidy utcnow.
Proof.
  intros s. unfold utcnow.
  destruct (db_utcnow (outside s)) as [t d]. nothing_added.
Qed.

Lemma adds_dumps (j : J) : adds tidy (dumps j).
Proof. unfold dumps. destruct (json_dumps j); [apply adds_raise | apply adds_ret]. Qed.

Lemma adds_self_conn : adds tidy (self_conn (D := D) (C := C)).
Proof.
  intros s. unfold self_conn.
  destruct (has_conn s) eqn:Hconn; nothing_added.
Qed.

Lemma adds_attempt {A} (what : call C) (f : D -> (exception + A) * D) :
  well_bound what -> open_cursors [what] = 0%Z -> adds tidy (attempt what f).
Proof.
  intros Hw Ho s. exists [what]. unfold attempt.
  destruct (f (outside s)) as [r d]. cbn [snd journal has_conn].
  split; [reflexivity |]. split; [| reflexivity].
  split; [repeat constructor; exact Hw | exact Ho].
Qed.

Lemma adds_execute (cursor : C) (sql : string) (params : list param) :
  placeholders sql = length params -> adds tidy (execute cursor sql params).
Proof. intros Hb. apply adds_attempt; [exact Hb | reflexivity]. Qed.

Lemma adds_fetch_id (cursor : C) : adds tidy (fetch_id cursor).
Proof.
  unfold fetch_id. apply adds_bind.
  - apply adds_attempt; [exact I | reflexivity].
  - intros [[| id row] |]; [apply adds_raise | apply adds_ret | apply adds_raise].
Qed.

(** A [with] block whose body is tidy is tidy: [close()] is called on the
    cursor it obtains on the way out, however the body ends. *)
Lemma adds_with_cursor {A} (body : C -> Run (Connector D C) A) :
  (forall cursor, adds tidy (body cursor)) -> adds tidy (with_cursor body).
Proof.
  intros Hbody s. unfold with_cursor, bind, self_conn.
  destruct (has_conn s) eqn:Hconn; cbn [snd].
  2: { nothing_added. }
  unfold driver.
  destruct (db_cursor (outside s)) as [[e | cursor] d]; cbn [snd journal has_conn].
  { nothing_added. }
  unfold try_finally.
  set (s0 := Build_Connector d (has_conn s) (logger s) (journal s ++ [Cursor cursor])).
  destruct (Hbody cursor s0) as (n1 & Hj1 & [F1 O1] & Hh1).
  destruct (body cursor s0) as [r s1]. cbn [snd] in *.
  unfold attempt.
  destruct (db_cursor_close cursor (outside s1)) as [[e | []] d2];
    cbn [snd journal has_conn];
    exists ([Cursor cursor] ++ n1 ++ [CursorClose cursor]);
    rewrite Hj1; unfold s0; cbn [journal has_conn];
    rewrite <- !app_assoc;
    (split; [reflexivity |]);
    (split; [| rewrite Hh1; unfold s0; cbn [has_conn];
               first [reflexivity | exact Hconn]]);
    (split;
     [apply Forall_app; split; [repeat constructor |];
      apply Forall_app; split; [exact F1 | repeat constructor]
     | rewrite !open_cursors_app, O1; reflexivity]).
Qed.


Lemma count_char_app (c : ascii) (a b : string) :
  count_char c (a ++ b)%string = count_char c a + count_char c b.
Proof.
  induction a as [| x a IH]; [reflexivity |].
  rewrite sapp_cons. cbn [count_char]. rewrite IH. lia.
Qed.

Lemma count_percent_uint (d : Decimal.uint) :
  count_char "%" (NilEmpty.string_of_uint d) = 0.
Proof. induction d; cbn [NilEmpty.string_of_uint count_char]; try reflexivity; exact IHd. Qed.

Lemma count_percent_str_int (z : Z) : count_char "%" (ApiBackend.str_int z) = 0.
Proof.
  unfold ApiBackend.str_int, NilZero.string_of_int, NilZero.string_of_uint.
  destruct (Z.to_int z) as [d | d]; destruct d;
    try reflexivity; cbn [count_char Ascii.eqb]; try apply count_percent_uint;
    cbn [NilEmpty.string_of_uint count_char]; apply count_percent_uint.
Qed.

Lemma placeholders_le_count (s : string) :
  placeholders s <= count_char "%" s.
Proof.
  induction s as [| c rest IH]; [reflexivity |].
  cbn [placeholders count_char]. destruct rest as [| d rest']; [lia |].
  destruct (Ascii.eqb c "%"); cbn [andb]; [destruct (Ascii.eqb d "s") |]; lia.
Qed.

(** Placeholders add up over a concatenation, unless the seam makes one. *)
Lemma placeholders_app (a b : string) :
  starts_with_s b = false ->
  placeholders (a ++ b)%string = placeholders a + placeholders b.
Proof.
  intros Hb. induction a as [| c rest IH]; [reflexivity |].
  rewrite sapp_cons. destruct rest as [| d rest'].
  - rewrite sapp_nil_l. cbn [placeholders].
    destruct b as [| x b']; [reflexivity |].
    cbn [starts_with_s] in Hb. rewrite Hb, andb_false_r. reflexivity.
  - rewrite sapp_cons in *. cbn [placeholders] in *. rewrite IH. lia.
Qed.

Lemma str_int_head (z : Z) : starts_with_s (ApiBackend.str_int z) = false.
Proof.
  unfold ApiBackend.str_int, NilZero.string_of_int, NilZero.string_of_uint.
  destruct (Z.to_int z) as [d | d]; destruct d; reflexivity.
Qed.

Lemma analysis_query_well_bound
    (start_date end_date : option ApiBackend.datetime)
    (threat_level : option string) (limit : Z) :
  placeholders (fst (analysis_query start_date end_date threat_level limit))
  = length (snd (analysis_query start_date end_date threat_level limit)).
Proof.
  unfold analysis_query.
  assert (H0 : placeholders select_analysis = 0) by (vm_compute; reflexivity).
  assert (Hlimit : placeholders
                     (" ORDER BY t.timestamp DESC LIMIT " ++ ApiBackend.str_int limit)%string
                   = 0).
  { rewrite placeholders_app by apply str_int_head.
    pose proof (placeholders_le_count (ApiBackend.str_int limit)) as Hle.
    rewrite count_percent_str_int in Hle.
    replace (placeholders (ApiBackend.str_int limit)) with 0 by lia.
    reflexivity. }
  assert (Hseam : starts_with_s
                    (" ORDER BY t.timestamp DESC LIMIT " ++ ApiBackend.str_int limit)%string
                  = false) by reflexivity.
  destruct start_date as [t1 |], end_date as [t2 |],
    threat_level as [[| c level] |];
    cbn [fst snd];
    rewrite (placeholders_app _ _ Hseam), Hlimit,
      ?(placeholders_app _ " AND t.threat_level = %s"%string eq_refl),
      ?(placeholders_app _ " AND t.timestamp <= %s"%string eq_refl),
      ?(placeholders_app _ " AND t.timestamp >= %s"%string eq_refl), H0;
    reflexivity.
Qed.

Lemma adds_create_tables : adds tidy create_tables.
Proof.
  unfold create_tables. apply adds_with_cursor. intros cursor.
  apply adds_bind; [apply adds_execute; vm_compute; reflexivity | intros _].
  apply adds_bind; [apply adds_execute; vm_compute; reflexivity | intros _].
  apply adds_execute; vm_compute; reflexivity.
Qed.

Lemma adds_store_crawl_data (data : CrawlData J) : adds tidy (store_crawl_data data).
Proof.
  unfold store_crawl_data. apply adds_with_cursor. intros cursor.
  apply adds_bind; [apply adds_utcnow | intros now].
  apply adds_bind; [apply adds_dumps | intros headers].
  apply adds_bind; [apply adds_execute; vm_compute; reflexivity | intros _].
  apply adds_fetch_id.
Qed.

Lemma adds_store_features (crawl_id : Z) (features : FeatureData J) :
  adds tidy (store_features crawl_id features).
Proof.
  unfold store_features. apply adds_with_cursor. intros cursor.
  apply adds_bind; [apply adds_dumps | intros text_features].
  apply adds_bind; [apply adds_dumps | intros image_features].
  apply adds_bind; [apply adds_dumps | intros url_features].
  apply adds_bind; [apply adds_utcnow | intros now].
  apply adds_bind; [apply adds_execute; vm_compute; reflexivity | intros _].
  apply adds_fetch_id.
Qed.

Lemma adds_store_analysis (feature_id : Z) (analysis : AnalysisData J) :
  adds tidy (store_analysis feature_id analysis).
Proof.
  unfold store_analysis. apply adds_with_cursor. intros cursor.
  apply adds_bind; [apply adds_dumps | intros component_scores].
  apply adds_bind; [apply adds_utcnow | intros now].
  apply adds_execute; vm_compute; reflexivity.
Qed.

Lemma adds_get_analysis_results
    (start_date end_date : option ApiBackend.datetime)
    (threat_level : option string) (limit : Z) :
  adds tidy (get_analysis_results start_date end_date threat_level limit).
Proof.
  unfold get_analysis_results.
  pose proof (analysis_query_well_bound start_date end_date threat_level limit) as Hb.
  destruct (analysis_query start_date end_date threat_level limit) as [query params].
  cbn [fst snd] in Hb.
  apply adds_bind; [apply adds_self_conn | intros _].
  apply adds_attempt; [exact Hb | reflexivity].
Qed.

(** ** Cursors *)

Section OnCursor.

Variable P : list (call C) -> Prop.
Hypothesis P_nil : P [].
Hypothesis P_app : forall j j', P j -> P j' -> P (j ++ j').

Lemma adds_ret_any {A} (a : A) : adds P (ret (S := Connector D C) a).
Proof.
  intros s. exists []. unfold ret. cbn [snd]. rewrite app_nil_r.
  repeat split. exact P_nil.
Qed.

Lemma adds_raise_any {A} (e : exception) :
  adds P (raise (S := Connector D C) (A := A) e).
Proof.
  intros s. exists []. unfold raise. cbn [snd]. rewrite app_nil_r.
  repeat split. exact P_nil.
Qed.

Lemma adds_bind_any {A B} (c : Run (Connector D C) A)
    (k : A -> Run (Connector D C) B) :
  adds P c -> (forall a, adds P (k a)) -> adds P (x <- c ;; k x).
Proof.
  intros Hc Hk s. unfold bind.
  destruct (Hc s) as (n1 & Hj1 & Ht1 & Hh1).
  destruct (c s) as [[e | a] s1]; cbn [snd] in *.
  - exists n1. split; [assumption | split; assumption].
  - destruct (Hk a s1) as (n2 & Hj2 & Ht2 & Hh2).
    exists (n1 ++ n2). rewrite Hj2, Hj1, app_assoc, Hh2, Hh1.
    split; [reflexivity | split; [apply P_app; assumption | reflexivity]].
Qed.

Lemma adds_utcnow_any : adds P utcnow.
Proof.
  intros s. unfold utcnow. destruct (db_utcnow (outside s)) as [t d].
  exists []. cbn [snd journal has_conn]. rewrite app_nil_r.
  repeat split. exact P_nil.
Qed.

Lemma adds_dumps_any (j : J) : adds P (dumps j).
Proof.
  unfold dumps. destruct (json_dumps j); [apply adds_raise_any | apply adds_ret_any].
Qed.

Lemma adds_attempt_any {A} (what : call C) (f : D -> (exception + A) * D) :
  P [what] -> adds P (attempt what f).
Proof.
  intros Hw s. exists [what]. unfold attempt.
  destruct (f (outside s)) as [r d]. cbn [snd journal has_conn].
  repeat split. exact Hw.
Qed.

End OnCursor.

(** The bodies of the four [with] blocks call nothing but [execute] and
    [fetchone] on the cursor they are given. *)
Lemma fetch_id_uses (cursor : C) :
  adds (Forall (uses_cursor cursor)) (fetch_id cursor).
Proof.
  unfold fetch_id.
  apply adds_bind_any; [intros j j' Hj Hj'; apply Forall_app; split; assumption | |].
  - apply adds_attempt_any. repeat constructor.
  - intros [[| id row] |];
      [apply adds_raise_any | apply adds_ret_any | apply adds_raise_any];
      constructor.
Qed.

Lemma execute_uses (cursor : C) (sql : string) (params : list param) :
  adds (Forall (uses_cursor cursor)) (execute cursor sql params).
Proof. apply adds_attempt_any. repeat constructor. Qed.

(** A [with] block whose body only uses its cursor closes it, however the
    body ends. *)
Lemma with_cursor_closes {A} (body : C -> Run (Connector D C) A) :
  (forall cursor, adds (Forall (uses_cursor cursor)) (body cursor)) ->
  closes_its_cursor (with_cursor body).
Proof.
  intros Hbody s. unfold with_cursor, bind, self_conn.
  destruct (has_conn s) eqn:Hconn; [| left; split; [reflexivity | eauto]].
  unfold driver.
  destruct (db_cursor (outside s)) as [[e | cursor] d].
  { left. cbn [snd fst journal]. rewrite app_nil_r. split; [reflexivity | eauto]. }
  unfold try_finally.
  set (s0 := Build_Connector d (has_conn s) (logger s) (journal s ++ [Cursor cursor])).
  destruct (Hbody cursor s0) as (uses & Hj & Hu & _).
  destruct (body cursor s0) as [r s1]. cbn [snd] in Hj.
  unfold attempt.
  destruct (db_cursor_close cursor (outside s1)) as [closed d2] eqn:Hclose.
  right. exists cursor, uses, (outside s1), closed.
  destruct closed as [e | []]; cbn [snd fst journal outside];
    rewrite Hj; unfold s0; cbn [journal]; rewrite <- !app_assoc;
    repeat split; assumption.
Qed.

(** X17.  [create_tables] and the three [store_*] methods close every
    cursor they obtain.  Whatever the driver, the clock and the JSON
    encoder do, each of them either obtains no cursor and raises, or
    obtains exactly one, calls only [execute] and [fetchone] on it and then
    calls [close()] on that cursor, once, as its last call on the driver,
    whether the body of the [with] block returned or raised.  When that
    [close()] itself raises, the method raises the same exception: what
    becomes of the cursor then is the driver's affair. *)
Theorem connector_closes_every_cursor :
  closes_its_cursor create_tables /\
  (forall data, closes_its_cursor (store_crawl_data data)) /\
  (forall crawl_id features, closes_its_cursor (store_features crawl_id features)) /\
  (forall feature_id analysis,
     closes_its_cursor (store_analysis feature_id analysis)).
Proof.
  assert (Happ : forall cursor (j j' : list (call C)),
             Forall (uses_cursor cursor) j -> Forall (uses_cursor cursor) j' ->
             Forall (uses_cursor cursor) (j ++ j'))
    by (intros cursor j j' Hj Hj'; apply Forall_app; split; assumption).
  assert (Hnil : forall cursor : C, Forall (uses_cursor cursor) [])
    by (intros cursor; constructor).
  repeat split; intros; apply with_cursor_closes; intros cursor;
    repeat first
      [ apply execute_uses
      | apply fetch_id_uses
      | apply adds_utcnow_any; [apply Hnil]
      | apply adds_dumps_any; [apply Hnil]
      | apply adds_bind_any; [apply Happ | | intros ?] ].
Qed.

(** X18.  Every statement the connector hands to the driver, in
    [create_tables], in the [store_*] methods and in
    [get_analysis_results] with any combination of filters and any limit,
    comes with exactly as many parameters as it has [%s] placeholders. *)
Theorem connector_statements_bind_their_placeholders (s : Connector D C) :
  Forall well_bound (journal s) ->
  Forall well_bound (journal (snd (create_tables s))) /\
  (forall data, Forall well_bound (journal (snd (store_crawl_data data s)))) /\
  (forall crawl_id features,
     Forall well_bound (journal (snd (store_features crawl_id features s)))) /\
  (forall feature_id analysis,
     Forall well_bound (journal (snd (store_analysis feature_id analysis s)))) /\
  (forall start_date end_date threat_level limit,
     Forall well_bound
       (journal (snd (get_analysis_results start_date end_date threat_level limit s)))).
Proof.
  intros Hs.
  assert (Hkeep : forall A (c : Run (Connector D C) A),
             adds tidy c -> Forall well_bound (journal (snd (c s)))).
  { intros A c Hc. destruct (Hc s) as (new & -> & [Hf _] & _).
    apply Forall_app. split; assumption. }
  repeat split; intros; apply Hkeep.
  - apply adds_create_tables.
  - apply adds_store_crawl_data.
  - apply adds_store_features.
  - apply adds_store_analysis.
  - apply adds_get_analysis_results.
Qed.

(** ** Creating the tables *)

(** X19.  [create_tables] issues its three statements in the order
    [raw_crawl_data], [extracted_features], [threat_analysis] on one
    cursor and stops at the first one that fails: no further statement is
    issued, the cursor is closed and the method raises the error of the
    statement, or the error of [close()] when closing fails too.  When the
    three statements succeed the method returns, unless [close()] raises.
    When the cursor cannot be obtained nothing is issued and nothing is
    closed. *)
Theorem create_tables_stops_at_first_failure (s : Connector D C) :
  has_conn s = true ->
  let ends (cursor : C) (statements : list string) (r closed : exception + unit)
      (d : D) :=
    create_tables s =
      (match closed with
       | inl e => inl e
       | inr _ => r
       end,
       Build_Connector d true (logger s)
         (journal s ++ Cursor cursor
            :: map (fun sql => Execute cursor sql []) statements
            ++ [CursorClose cursor])) in
  (forall e d1,
     db_cursor (outside s) = (inl e, d1) ->
     create_tables s = (inl e, Build_Connector d1 true (logger s) (journal s))) /\
  (forall cursor d1 e d2 closed d3,
     db_cursor (outside s) = (inr cursor, d1) ->
     db_execute cursor create_raw_crawl_data [] d1 = (inl e, d2) ->
     db_cursor_close cursor d2 = (closed, d3) ->
     ends cursor [create_raw_crawl_data] (inl e) closed d3) /\
  (forall cursor d1 d2 e d3 closed d4,
     db_cursor (outside s) = (inr cursor, d1) ->
     db_execute cursor create_raw_crawl_data [] d1 = (inr tt, d2) ->
     db_execute cursor create_extracted_features [] d2 = (inl e, d3) ->
     db_cursor_close cursor d3 = (closed, d4) ->
     ends cursor [create_raw_crawl_data; create_extracted_features]
       (inl e) closed d4) /\
  (forall cursor d1 d2 d3 r d4 closed d5,
     db_cursor (outside s) = (inr cursor, d1) ->
     db_execute cursor create_raw_crawl_data [] d1 = (inr tt, d2) ->
     db_execute cursor create_extracted_features [] d2 = (inr tt, d3) ->
     db_execute cursor create_threat_analysis [] d3 = (r, d4) ->
     db_cursor_close cursor d4 = (closed, d5) ->
     ends cursor table_statements r closed d5).
Proof.
  intros Hconn ends. subst ends. cbv beta.
  unfold create_tables, with_cursor, bind, self_conn, driver, try_finally,
    execute, attempt, table_statements.
  rewrite Hconn. cbn beta iota zeta.
  repeat split.
  - intros e d1 Hcursor. rewrite Hcursor.
    cbn beta iota zeta delta [outside journal has_conn logger].
    rewrite app_nil_r, ?Hconn. reflexivity.
  - intros cursor d1 e d2 closed d3 Hcursor H1 Hclose. rewrite Hcursor.
    cbn beta iota zeta delta [outside journal has_conn logger]. rewrite H1.
    cbn beta iota zeta delta [outside journal has_conn logger]. rewrite Hclose.
    destruct closed as [e' | []]; cbn [map app]; rewrite <- !app_assoc, ?Hconn; reflexivity.
  - intros cursor d1 d2 e d3 closed d4 Hcursor H1 H2 Hclose. rewrite Hcursor.
    cbn beta iota zeta delta [outside journal has_conn logger]. rewrite H1.
    cbn beta iota zeta delta [outside journal has_conn logger]. rewrite H2.
    cbn beta iota zeta delta [outside journal has_conn logger]. rewrite Hclose.
    destruct closed as [e' | []]; cbn [map app]; rewrite <- !app_assoc, ?Hconn; reflexivity.
  - intros cursor d1 d2 d3 r d4 closed d5 Hcursor H1 H2 H3 Hclose. rewrite Hcursor.
    cbn beta iota zeta delta [outside journal has_conn logger]. rewrite H1.
    cbn beta iota zeta delta [outside journal has_conn logger]. rewrite H2.
    cbn beta iota zeta delta [outside journal has_conn logger]. rewrite H3.
    cbn beta iota zeta delta [outside journal has_conn logger]. rewrite Hclose.
    destruct closed as [e' | []]; destruct r as [e3 | []];
      cbn [map app]; rewrite <- !app_assoc, ?Hconn; reflexivity.
Qed.

(** ** Storing a page *)

(** X24.  Once the cursor is obtained, the headers are encoded and the
    INSERT has succeeded, [store_crawl_data] asks for one row and closes
    the cursor.  It returns the first column of the row; it raises
    [TypeError] when there is no row and [IndexError] when the row is
    empty, the INSERT having been executed all the same; and when closing
    the cursor fails, that error replaces whatever the outcome was, a
    fetched id included. *)
Theorem store_crawl_data_outcomes
    (data : CrawlData J) (s : Connector D C)
    (cursor : C) (now : ApiBackend.datetime) (headers : string)
    (row : option (list Z)) (closed : exception + unit)
    (d1 d2 d3 d4 d5 : D) :
  has_conn s = true ->
  db_cursor (outside s) = (inr cursor, d1) ->
  db_utcnow d1 = (now, d2) ->
  json_dumps (cd_headers data) = inr headers ->
  let params :=
    [PText (cd_url data); PTime now; PText (cd_html_content data);
     PText headers; PInt (cd_status data)] in
  db_execute cursor insert_raw_crawl_data params d2 = (inr tt, d3) ->
  db_fetchone cursor d3 = (inr row, d4) ->
  db_cursor_close cursor d4 = (closed, d5) ->
  journal (snd (store_crawl_data data s)) =
    journal s ++
    [Cursor cursor; Execute cursor insert_raw_crawl_data params;
     Fetchone cursor; CursorClose cursor] /\
  fst (store_crawl_data data s) =
    match closed with
    | inl e => inl e
    | inr _ =>
        match row with
        | Some (id :: _) => inr id
        | Some [] => inl (Exception "IndexError" "tuple index out of range")
        | None =>
            inl (Exception "TypeError" "'NoneType' object is not subscriptable")
        end
    end.
Proof.
  intros Hconn Hcursor Hnow Hdumps params Hinsert Hfetch Hclose.
  unfold store_crawl_data, with_cursor, bind, self_conn, driver, try_finally,
    execute, fetch_id, attempt, utcnow, dumps, bind, ret, raise.
  rewrite Hconn. cbn beta iota zeta.
  rewrite Hcursor. cbn beta iota zeta delta [outside journal has_conn logger].
  rewrite Hnow. cbn beta iota zeta delta [outside journal has_conn logger].
  rewrite Hdumps. cbn beta iota zeta delta [outside journal has_conn logger].
  fold params. rewrite Hinsert.
  cbn beta iota zeta delta [outside journal has_conn logger].
  rewrite Hfetch. cbn beta iota zeta delta [outside journal has_conn logger].
  destruct row as [[| id rest] |];
    cbn beta iota zeta delta [outside journal has_conn logger];
    rewrite Hclose; cbn beta iota zeta delta [outside journal has_conn logger];
    destruct closed as [e | []]; cbn [fst snd journal];
    rewrite <- !app_assoc; split; reflexivity.
Qed.

(** ** Connecting *)

(** X20.  When the connection cannot be established the constructor
    makes one attempt only: it logs one ERROR record with the text of the
    error, raises that same error, creates no table and leaves
    [self.conn] unset, so that [close] on the object does nothing. *)
Theorem init_connect_failure (d d' : D) (e : exception) :
  db_connect d = (inl e, d') ->
  let s' :=
    {| outside := d'; has_conn := false;
       logger := [("ERROR"%string,
                   ("Failed to connect to Snowflake: " ++ str e)%string)];
       journal := [Connect] |} in
  init (fresh_connector d) = (inl e, s') /\
  close s' = (inr tt, s').
Proof.
  intros Hfail. cbv zeta. split; [| reflexivity].
  unfold init, initialize_connection, bind, try_except, attempt, log_record, raise.
  cbn [outside fresh_connector]. rewrite Hfail. reflexivity.
Qed.

End ConnectorFacts.

(* ===================================================================== *)
(** * Properties of the spider *)
(* ===================================================================== *)

Section SpiderFacts.

Import Py Spider.
Local Open Scope run_scope.

Context {W J : Type} `{Outside W J}.
Variable settings : Settings.




(** X22.  [start_requests] logs nothing and yields its requests in the
    order of [START_URLS], each with the callback [parse], the errback
    [handle_error] and the first proxy of [PROXY_LIST]: the proxy never
    rotates.  It yields one request per start URL when it ends normally,
    which it does when every start URL is accepted by [Request]. *)
Theorem start_requests_shape (s : Spider W) :
  match start_requests settings s with
  | (r, s') =>
      errors s' = errors s /\
      exists new,
        yielded s' = yielded s ++ new /\
        Forall (start_request settings) new /\
        map request_url new `prefix_of` START_URLS settings /\
        (r = inr tt -> map request_url new = START_URLS settings) /\
        (Forall (fun url => request_check url = inr tt) (START_URLS settings) ->
         r = inr tt)
  end.
Proof.
  unfold start_requests.
  generalize (START_URLS settings) as urls. intros urls. revert s.
  induction urls as [| url rest IH]; intros s; cbn [start_loop].
  - unfold ret. split; [reflexivity |]. exists []. rewrite app_nil_r.
    repeat split; try constructor. exists []. reflexivity.
  - unfold bind, lift, total, outside, yield.
    destruct (random_user_agent (world s)) as [agent w1].
    cbn [world errors yielded].
    destruct (request_check url) as [e | []] eqn:Hcheck; unfold raise, ret.
    { cbn [errors yielded]. split; [reflexivity |]. exists []. rewrite app_nil_r.
      split; [reflexivity |]. split; [constructor |].
      split; [exists (url :: rest); reflexivity |].
      split; [discriminate |].
      intros Hall. inversion Hall as [| ? ? Hurl _]. congruence. }
    cbn [world errors yielded].
    set (request := {| request_url := url; user_agent := agent;
                       callback := parse_callback;
                       errback := Some handle_error_callback;
                       proxy := get_next_proxy settings |}).
    set (s1 := Build_Spider w1 (errors s) (yielded s ++ [request])).
    specialize (IH s1).
    destruct (start_loop settings rest s1) as [r s'].
    destruct IH as (Herr & new & Hy & Hall & Hpre & Hdone & Hok).
    split; [exact Herr |].
    exists (request :: new). unfold s1 in Hy. cbn [yielded] in Hy.
    rewrite Hy, <- app_assoc. split; [reflexivity |].
    split; [constructor; [repeat split | exact Hall] |].
    cbn [map request_url request].
    split; [apply prefix_cons; exact Hpre |].
    split.
    + intros Hr. rewrite Hdone by exact Hr. reflexivity.
    + intros Hchecks. apply Hok. inversion Hchecks; assumption.
Qed.

End SpiderFacts.

(* ===================================================================== *)
(** * The properties at work on the concrete deployment *)
(* ===================================================================== *)

Section Examples.

Import Float64 ThreatDetection ApiBackend Scenario.
Local Open Scope string_scope.

Lemma get_threat_level_thresholds_witness :
  get_threat_level (lit 3 10) = MEDIUM.
Proof.
  apply (get_threat_level_thresholds (lit 3 10)); vm_compute; reflexivity.
Defined.

(** C3, refuted as stated.  The page of [http://a.example/] is fetched
    and its features are extracted, the database refuses the INSERT; the
    analysis returns no verdict but fails with status 500. *)
Lemma analyze_url_fails_when_store_fails :
  let url := "http://a.example/" in
  let w := fresh database_down in
  crawl_single_url url (env w)
    = (inr {| text := "<html></html>" |}, database_down) /\
  extract_features "<html></html>" url database_down
    = (inr "<html></html>", database_down) /\
  fst (analyze_url url w)
    = inl (HTTPException 500 "snowflake: connection lost") /\
  log (snd (analyze_url url w))
    = ["Error analyzing URL http://a.example/: snowflake: connection lost"] /\
  ~ (exists verdict, fst (analyze_url url w) = inr verdict).
Proof.
  cbv zeta. repeat apply conj; try (vm_compute; reflexivity).
  intros [verdict Hv]. vm_compute in Hv. discriminate Hv.
Qed.

Lemma analyze_url_store_failure_propagates_witness :
  fst (analyze_url "http://a.example/" (fresh database_down))
  = inl (HTTPException 500 "snowflake: connection lost").
Proof.
  destruct (analyze_url_store_failure_propagates
              "http://a.example/" (fresh database_down)
              {| text := "<html></html>" |} "<html></html>"
              {| text_score := lit 8 10; anomaly_score := lit 4 10;
                 rule_based_score := lit 1 10 |}
              database_down database_down) as [_ Hpath];
    [reflexivity | reflexivity | reflexivity |].
  pose proof (Hpath database_down (inl (Error "snowflake: connection lost"))
                database_down (inr tt) database_down) as Hfails.
  cbv beta iota in Hfails.
  rewrite Hfails; reflexivity.
Defined.

(** Three URLs, the second of which cannot be fetched: the job is stored
    with two verdicts and one error record, in submission order. *)
Lemma process_url_batch_never_aborts_witness :
  exists w',
    process_url_batch
      ["http://a.example/"; "http://b.example/"; "http://c.example/"]
      "job" None (fresh one_site_down) = (inr tt, w') /\
    map is_error <$> (jobs w' !! "job") = Some [false; true; false].
Proof.
  destruct (process_url_batch_never_aborts
              ["http://a.example/"; "http://b.example/"; "http://c.example/"]
              "job" None (fresh one_site_down)) as (w' & Hrun & Hjob & _).
  exists w'. split; [exact Hrun |]. rewrite Hjob. vm_compute. reflexivity.
Defined.

Lemma batch_results_one_per_url_witness :
  exists results w1,
    batch_loop ["http://a.example/"; "http://b.example/"] []
      (fresh one_site_down) = (inr results, w1) /\
    length results = 2.
Proof.
  destruct (proj1 (batch_results_one_per_url
              ["http://a.example/"; "http://b.example/"]
              "job" None (fresh one_site_down)))
    as (results & w1 & Hloop & Hlen & _).
  exists results, w1. split; assumption.
Defined.

(** C9, refuted as stated.  With three URLs to analyse and nothing that
    bounds the number of workers, the analyses still run one after the
    other: the number in flight never reaches two. *)
Lemma batch_of_three_runs_one_at_a_time :
  let tr :=
    trace (snd (process_url_batch
                  ["http://a.example/"; "http://b.example/"; "http://c.example/"]
                  "job" None (fresh healthy))) in
  tr = [Started "http://a.example/"; Finished "http://a.example/";
        Started "http://b.example/"; Finished "http://b.example/";
        Started "http://c.example/"; Finished "http://c.example/"] /\
  peak_in_flight tr 0 = 1 /\
  ~ (2 <= peak_in_flight tr 0).
Proof.
  cbv zeta. repeat apply conj; try (vm_compute; reflexivity).
  vm_compute. lia.
Qed.

Lemma get_batch_results_not_found_iff_witness :
  fst (get_batch_results "job" (fresh healthy))
  = inl (HTTPException 404 "Job not found").
Proof.
  apply (proj1 (get_batch_results_not_found_iff "job" (fresh healthy))).
  left. reflexivity.
Defined.

Lemma generate_job_id_collision_witness :
  exists job_id w1 w2,
    generate_job_id (fresh healthy) = (inr job_id, w1) /\
    generate_job_id w1 = (inr job_id, w2).
Proof.
  apply (generate_job_id_collision (fresh healthy) noon noon noon noon
           healthy healthy healthy healthy); reflexivity.
Defined.

(** Two batches submitted while the clock reads the same instant get the
    same job id; once both have been processed, the id leads to the
    results of the second batch only. *)
Lemma two_submissions_one_job_id :
  let '(r1, w1) := analyze_urls_batch ["http://a.example/"] None (fresh healthy) in
  let '(r2, w2) :=
    analyze_urls_batch ["http://b.example/"; "http://c.example/"] None w1 in
  let w3 := snd (run_background_tasks w2) in
  r1 = inr ("20240101120000-0", "processing") /\
  r2 = inr ("20240101120000-0", "processing") /\
  size (jobs w3) = 1%nat /\
  map entry_url <$> (jobs w3 !! "20240101120000-0")
    = Some ["http://b.example/"; "http://c.example/"].
Proof. vm_compute. repeat split. Qed.

End Examples.

(* ===================================================================== *)
(** * The further properties at work on concrete inputs *)
(* ===================================================================== *)

Section RuleExamples.

Import Float64 PyFloat ThreatDetection.
Import Re FeatureExtractor ThreatDetectionModel PageScenario.
Local Open Scope string_scope.

Lemma get_threat_level_monotone_witness :
  leb (lit 3 10) (lit 9 10) = true /\
  (level_rank (get_threat_level (lit 3 10))
   <= level_rank (get_threat_level (lit 9 10)))%nat.
Proof.
  split; [vm_compute; reflexivity |].
  apply (get_threat_level_monotone (lit 3 10) (lit 9 10)).
  vm_compute. reflexivity.
Defined.

Lemma predict_threat_nan_component_witness :
  threat_level
    (predict_threat
       {| w_text := lit 5 10; w_anomaly := lit 3 10; w_rules := lit 2 10 |}
       {| text_score := S754_nan; anomaly_score := lit 1 10;
          rule_based_score := of_Z 0 |}) = CRITICAL.
Proof.
  apply (predict_threat_nan_component
           {| w_text := lit 5 10; w_anomaly := lit 3 10; w_rules := lit 2 10 |}
           {| text_score := S754_nan; anomaly_score := lit 1 10;
              rule_based_score := of_Z 0 |}).
  left. reflexivity.
Defined.

Lemma apply_rules_zero_iff_witness :
  apply_rules quiet = of_Z 0 /\
  gt_zero (apply_rules (features_of "http://10.0.0.1/")) = true.
Proof.
  split.
  - apply (proj1 (apply_rules_zero_iff quiet)). vm_compute. reflexivity.
  - apply (proj2 (apply_rules_zero_iff (features_of "http://10.0.0.1/"))).
    vm_compute. reflexivity.
Defined.

Lemma contains_ip_iff_witness :
  contains_ip (analyze_url "http://999.999.999.999/") = true.
Proof.
  apply (proj2 (contains_ip_iff "http://999.999.999.999/")).
  exists "http://", "999", "999", "999", "999", "/".
  repeat split; reflexivity.
Defined.

Lemma dotted_name_flags_web_urls_witness :
  In (pattern_text dotted_name)
     (suspicious_patterns (analyze_url "http://example.com")).
Proof.
  apply (dotted_name_flags_web_urls false "example" "m" "c" "o");
    reflexivity.
Defined.

Lemma calculate_risk_score_in_unit_witness :
  calculate_risk_score plain_text {| images := [] |} (url_features quiet) = of_Z 0.
Proof.
  apply (calculate_risk_score_in_unit plain_text {| images := [] |}
           (url_features quiet)).
  reflexivity.
Defined.

Lemma web_urls_always_score_witness :
  gt_zero (apply_rules (features_of "https://example.org/login")) = true /\
  gt_zero (combined_risk_score (features_of "https://example.org/login")) = true.
Proof.
  apply (web_urls_always_score (fun _ => plain_text) (fun _ => ["a.png"; "b.png"])
           "<html></html>" true "example" "g/login" "o" "r");
    reflexivity.
Defined.

Lemma predict_threat_with_rule_engine_in_unit_witness :
  let verdict :=
    predict_threat
      {| w_text := lit 4 10; w_anomaly := lit 4 10; w_rules := lit 2 10 |}
      {| text_score := lit 8 10; anomaly_score := lit 4 10;
         rule_based_score := apply_rules (features_of "http://10.0.0.1/") |} in
  (0 <= value (threat_score verdict) <= 1)%Q.
Proof.
  cbv zeta.
  apply (predict_threat_with_rule_engine_in_unit
           {| w_text := lit 4 10; w_anomaly := lit 4 10; w_rules := lit 2 10 |}
           (lit 8 10) (lit 4 10) (features_of "http://10.0.0.1/"));
    cbn [w_text w_anomaly w_rules];
    try (vm_compute; exact I);
    try (vm_compute; reflexivity);
    try (vm_compute; discriminate).
Defined.

Lemma apply_rules_monotone_witness :
  leb (apply_rules quiet) (apply_rules (features_of "http://10.0.0.1/")) = true.
Proof.
  apply (apply_rules_monotone quiet (features_of "http://10.0.0.1/")).
  - vm_compute. lia.
  - vm_compute. intros _. reflexivity.
  - vm_compute. lia.
  - vm_compute. discriminate.
  - vm_compute. lia.
Defined.

Lemma calculate_risk_score_monotone_witness :
  leb (calculate_risk_score plain_text {| images := [] |} (url_features quiet))
      (calculate_risk_score plain_text
         (image_features (features_of "http://bit.ly/x"))
         (url_features (features_of "http://bit.ly/x"))) = true.
Proof.
  apply (calculate_risk_score_monotone plain_text plain_text
           {| images := [] |} (image_features (features_of "http://bit.ly/x"))
           (url_features quiet) (url_features (features_of "http://bit.ly/x"))).
  - vm_compute. lia.
  - vm_compute. lia.
  - vm_compute. lia.
Defined.

Lemma calculate_risk_score_saturates_witness :
  calculate_risk_score
    {| bert_embeddings := [];
       suspicious_patterns_found := repeat "verify your account" 10;
       named_entities := []; text_length := 40; sentence_count := 10 |}
    {| images := [] |} (url_features quiet) = of_Z 1.
Proof.
  apply (calculate_risk_score_saturates
           {| bert_embeddings := [];
              suspicious_patterns_found := repeat "verify your account" 10;
              named_entities := []; text_length := 40; sentence_count := 10 |}
           {| images := [] |} (url_features quiet)).
  vm_compute. lia.
Defined.

End RuleExamples.

Section PipelineExamples.

Import Float64 ThreatDetection ApiBackend Scenario Clock ClockScenario.
Local Open Scope string_scope.


Lemma analyze_url_failure_before_store_witness :
  analyze_url "http://b.example/" (fresh one_site_down) =
    (inl (HTTPException 500 "connection refused"),
     add_log "Error analyzing URL http://b.example/: connection refused"
       (fresh one_site_down)).
Proof.
  apply (proj1 (analyze_url_failure_before_store
                  "http://b.example/" (fresh one_site_down))
           (Error "connection refused") one_site_down).
  reflexivity.
Defined.

Lemma analyze_urls_batch_only_enqueues_witness :
  exists job_id w',
    analyze_urls_batch ["http://a.example/"] None (fresh healthy)
      = (inr (job_id, "processing"), w') /\
    fst (get_batch_results job_id w') = inl (HTTPException 404 "Job not found").
Proof.
  destruct (analyze_urls_batch_only_enqueues ["http://a.example/"] None
              (fresh healthy))
    as (job_id & w' & Hrun & _ & _ & _ & _ & Hnot_yet).
  exists job_id, w'. split; [exact Hrun |].
  apply Hnot_yet. apply lookup_empty.
Defined.

Lemma submitted_batch_is_retrievable_witness :
  exists job_id w1 w2 results,
    analyze_urls_batch ["http://a.example/"; "http://b.example/"] None
      (fresh one_site_down) = (inr (job_id, "processing"), w1) /\
    run_background_tasks w1 = (inr tt, w2) /\
    fst (get_batch_results job_id w2) = inr (Some results) /\
    map entry_url results = ["http://a.example/"; "http://b.example/"].
Proof.
  destruct (submitted_batch_is_retrievable "http://a.example/"
              ["http://b.example/"] None (fresh one_site_down) eq_refl)
    as (job_id & w1 & w2 & results & Hsubmit & Hrun & _ & Hget & Hurls).
  exists job_id, w1, w2, results. repeat split; assumption.
Defined.

Lemma process_url_batch_logs_failures_twice_witness :
  exists results w',
    process_url_batch
      ["http://a.example/"; "http://b.example/"; "http://c.example/"]
      "job" None (fresh one_site_down) = (inr tt, w') /\
    jobs w' !! "job" = Some results /\
    length (log w') = (0 + 2 * length (List.filter is_error results))%nat.
Proof.
  destruct (process_url_batch_logs_failures_twice
              ["http://a.example/"; "http://b.example/"; "http://c.example/"]
              "job" (fresh one_site_down))
    as (results & w' & Hrun & Hjob & Hlog & _).
  exists results, w'. repeat split; assumption.
Defined.

Lemma generate_job_id_distinct_seconds_witness :
  exists job_id job_id',
    fst (generate_job_id (fresh ticking)) = inr job_id /\
    fst (generate_job_id (fresh ticked)) = inr job_id' /\
    job_id <> job_id'.
Proof.
  destruct (generate_job_id_distinct_seconds
              (fresh ticking) (fresh ticked)
              noon noon one_second_later one_second_later
              {| clock := [noon; one_second_later]; unreachable := [];
                 snowflake_up := true; rows := []; delivered := [] |}
              ticked ticked ticked)
    as (job_id & job_id' & H1 & H2 & _ & _ & Hne);
    try reflexivity.
  - unfold well_formed. cbn. lia.
  - unfold well_formed. cbn. lia.
  - unfold same_second. cbn. intros (_ & _ & _ & _ & _ & Hs). discriminate Hs.
  - exists job_id, job_id'. repeat split; assumption.
Defined.

End PipelineExamples.

Section ConnectorExamples.

Import Py DatabaseConnector ConnectorScenario.
Local Open Scope string_scope.

Lemma connector_closes_every_cursor_witness :
  closes_its_cursor (D := nat) (C := unit) (T := unit)
    (store_crawl_data
       {| cd_url := "http://a.example/"; cd_html_content := "<html></html>";
          cd_headers := "{}"; cd_status := 200 |}).
Proof.
  apply (proj1 (proj2 connector_closes_every_cursor)).
Defined.

Lemma connector_statements_bind_their_placeholders_witness :
  Forall well_bound
    (journal (snd (store_analysis 7
                     {| ad_threat_score := Float64.lit 54 100;
                        ad_threat_level := "HIGH";
                        ad_confidence := Float64.lit 5 10;
                        ad_component_scores := "{}" |}
                     (connected 5)))).
Proof.
  apply (connector_statements_bind_their_placeholders (connected 5)).
  constructor.
Defined.

(** The database answers two calls: the cursor and the first statement. *)
Lemma create_tables_stops_at_first_failure_witness :
  create_tables (connected 2) =
    (inl (Exception "DatabaseError" "connection lost"),
     {| outside := 0; has_conn := true; logger := [];
        journal := [Cursor tt; Execute tt create_raw_crawl_data [];
                    Execute tt create_extracted_features []; CursorClose tt] |}).
Proof.
  destruct (create_tables_stops_at_first_failure (connected 2))
    as (_ & _ & Hsecond & _); [reflexivity |].
  rewrite (Hsecond tt 1 0 (Exception "DatabaseError" "connection lost") 0
             (inr tt) 0);
    reflexivity.
Defined.

(** Every call succeeds: the id of the inserted row is returned. *)
Lemma store_crawl_data_outcomes_witness :
  fst (store_crawl_data
         {| cd_url := "http://a.example/"; cd_html_content := "<html></html>";
            cd_headers := "{}"; cd_status := 200 |}
         (connected 3)) = inr 7%Z.
Proof.
  apply (store_crawl_data_outcomes
           {| cd_url := "http://a.example/"; cd_html_content := "<html></html>";
              cd_headers := "{}"; cd_status := 200 |}
           (connected 3) tt Scenario.noon "{}" (Some [7%Z]) (inr tt)
           2 2 1 0 0);
    reflexivity.
Defined.

Lemma init_connect_failure_witness :
  fst (init (fresh_connector 0))
  = inl (Exception "DatabaseError" "connection lost") /\
  journal (snd (init (fresh_connector 0))) = [Connect].
Proof.
  pose proof (init_connect_failure 0 0 (Exception "DatabaseError" "connection lost")
                eq_refl) as [Hinit _].
  rewrite Hinit. split; reflexivity.
Defined.

End ConnectorExamples.

Section SpiderExamples.

Import Py Spider SpiderScenario.
Local Open Scope string_scope.


Lemma start_requests_shape_witness :
  fst (start_requests settings (at_start true)) = inr tt.
Proof.
  pose proof (start_requests_shape settings (at_start true)) as Hshape.
  destruct (start_requests settings (at_start true)) as [r s'].
  destruct Hshape as (_ & new & _ & _ & _ & _ & Hok).
  apply Hok. repeat constructor.
Defined.

End SpiderExamples.
